(** * Epilogos part 2: the per-chromosome divergence-metric engine

  A shallow embedding of [computeEpilogosPart2_perChrom.cpp]: the three
  model classes [KLModel], [KLsModel] and [KLssModel], the driver
  [parseInputWriteOutput], and the properties the specification states
  about them.

  Conventions of the embedding.
  - [unsigned int] and [unsigned long] values are integers of [Z] with the
    wrap-around written out ([u32], [u64]); [int] coordinates are signed
    32-bit ([i32]).
  - [float] and [double] values are IEEE-754 binary32 and binary64 values
    (module [IEEE]): a finite value is the rational it denotes, every
    operation rounds to nearest, ties to even, and overflows to an
    infinity.  The sign of a zero is not tracked.  The program is taken to
    evaluate each operation in the precision of its C++ type
    (FLT_EVAL_METHOD 0), with the usual arithmetic conversions.
  - The C library's single-precision [log] is a parameter [logf].
  - [std::vector] element access without a bounds check is modelled by a
    checked access that raises a [fault]; the text written to the output
    streams is modelled by the records of the values written. *)

From Stdlib Require Import ZArith QArith Qround Qabs Qreduction Qpower Lia Lqa List Bool.
Import ListNotations.

(** ** IEEE-754 binary floating point over the rationals *)

Module IEEE.
Local Open Scope Q_scope.

Inductive float : Type :=
| Fin (q : Q)
| Inf (negative : bool)
| NaN.

Record format : Type := { prec : Z; emin : Z; emax : Z }.

Definition binary32 : format := {| prec := 24; emin := -149; emax := 128 |}.
Definition binary64 : format := {| prec := 53; emin := -1074; emax := 1024 |}.

(** [pow2 z] is 2^z for any integer [z]. *)
Definition pow2 (z : Z) : Q :=
  if (0 <=? z)%Z then inject_Z (2 ^ z) else / inject_Z (2 ^ (- z)).

(** Nearest integer, ties to even. *)
Definition rne (x : Q) : Z :=
  let f := Qfloor x in
  match Qcompare (x - inject_Z f) (1 # 2) with
  | Lt => f
  | Gt => (f + 1)%Z
  | Eq => if Z.even f then f else (f + 1)%Z
  end.

(** [ilog2 x] is the floor of the binary logarithm of a positive [x]. *)
Definition ilog2 (x : Q) : Z :=
  let l := (Z.log2 (Qnum x) - Z.log2 (Zpos (Qden x)))%Z in
  if Qle_bool (pow2 l) x then l else (l - 1)%Z.

(** Exponent of the unit in the last place of a positive [x]. *)
Definition ulp_exp (fmt : format) (x : Q) : Z :=
  Z.max (ilog2 x + 1 - prec fmt) (emin fmt).

Definition round_at (e : Z) (x : Q) : Q := inject_Z (rne (x / pow2 e)) * pow2 e.

Definition round_pos (fmt : format) (x : Q) : Q := round_at (ulp_exp fmt x) x.

(** Rounding of a rational to the format, exponent range unbounded above. *)
Definition round (fmt : format) (x : Q) : Q :=
  match Qcompare x 0 with
  | Eq => 0
  | Gt => round_pos fmt x
  | Lt => - round_pos fmt (- x)
  end.

Definition is_neg (x : Q) : bool :=
  match Qcompare x 0 with Lt => true | _ => false end.

(** The value an operation with exact result [x] delivers. *)
Definition deliver (fmt : format) (x : Q) : float :=
  let r := round fmt x in
  if Qle_bool (pow2 (emax fmt)) (Qabs r) then Inf (is_neg x) else Fin (Qred r).

Definition is_zero (x : Q) : bool := Qeq_bool x 0.

Definition add (fmt : format) (a b : float) : float :=
  match a, b with
  | NaN, _ | _, NaN => NaN
  | Inf s, Inf t => if Bool.eqb s t then Inf s else NaN
  | Inf s, Fin _ | Fin _, Inf s => Inf s
  | Fin x, Fin y => deliver fmt (x + y)
  end.

Definition opp (a : float) : float :=
  match a with
  | NaN => NaN
  | Inf s => Inf (negb s)
  | Fin x => Fin (Qred (- x))
  end.

Definition sub (fmt : format) (a b : float) : float := add fmt a (opp b).

Definition mul (fmt : format) (a b : float) : float :=
  match a, b with
  | NaN, _ | _, NaN => NaN
  | Inf s, Inf t => Inf (xorb s t)
  | Inf s, Fin y | Fin y, Inf s => if is_zero y then NaN else Inf (xorb s (is_neg y))
  | Fin x, Fin y => deliver fmt (x * y)
  end.

Definition div (fmt : format) (a b : float) : float :=
  match a, b with
  | NaN, _ | _, NaN => NaN
  | Inf _, Inf _ => NaN
  | Inf s, Fin y => Inf (xorb s (is_neg y))
  | Fin _, Inf _ => Fin 0
  | Fin x, Fin y =>
      if is_zero y then (if is_zero x then NaN else Inf (is_neg x))
      else deliver fmt (x / y)
  end.

Definition abs (a : float) : float :=
  match a with
  | NaN => NaN
  | Inf _ => Inf false
  | Fin x => Fin (Qred (Qabs x))
  end.

(** [a < b]; false when either is not a number. *)
Definition ltb (a b : float) : bool :=
  match a, b with
  | NaN, _ | _, NaN => false
  | Inf s, Inf t => s && negb t
  | Inf s, Fin _ => s
  | Fin _, Inf t => negb t
  | Fin x, Fin y => match Qcompare x y with Lt => true | _ => false end
  end.

Definition gtb (a b : float) : bool := ltb b a.

(** Correctly rounded square root of a positive rational. *)
Definition sqrt_pos (fmt : format) (x : Q) : Q :=
  let e := (Z.max (ilog2 x / 2 + 1 - prec fmt) (emin fmt))%Z in
  let y := x / pow2 (2 * e) in
  let m := Z.sqrt (Qfloor y) in
  let h := inject_Z m + (1 # 2) in
  let k := match Qcompare y (h * h) with
           | Lt => m
           | Gt => (m + 1)%Z
           | Eq => if Z.even m then m else (m + 1)%Z
           end in
  inject_Z k * pow2 e.

Definition sqrt (fmt : format) (a : float) : float :=
  match a with
  | NaN => NaN
  | Inf s => if s then NaN else Inf false
  | Fin x =>
      match Qcompare x 0 with
      | Eq => Fin 0
      | Lt => NaN
      | Gt => Fin (Qred (sqrt_pos fmt x))
      end
  end.

Definition floor (a : float) : float :=
  match a with
  | Fin x => Fin (inject_Z (Qfloor x))
  | _ => a
  end.

(** Conversion of an integer to the format. *)
Definition of_Z (fmt : format) (n : Z) : float := deliver fmt (inject_Z n).

(** Conversion between formats: to a wider format it is exact. *)
Definition convert (fmt : format) (a : float) : float :=
  match a with
  | Fin x => deliver fmt x
  | _ => a
  end.

(** A decimal literal [n / d] of the source, read in the format. *)
Definition literal (fmt : format) (n : Z) (d : positive) : float :=
  deliver fmt (n # d).

End IEEE.

From Stdlib Require String.

Abbreviation float := IEEE.float.
Abbreviation string := String.string.

(** ** Machine integers *)

Local Open Scope Z_scope.

Definition u32 (x : Z) : Z := x mod 2 ^ 32.
Definition u64 (x : Z) : Z := x mod 2 ^ 64.
Definition i32 (x : Z) : Z := (x + 2 ^ 31) mod 2 ^ 32 - 2 ^ 31.

(** ** The arithmetic of the source, by C++ type *)

Definition float_of (n : Z) : float := IEEE.of_Z IEEE.binary32 n.
Definition fadd : float -> float -> float := IEEE.add IEEE.binary32.
Definition fsub : float -> float -> float := IEEE.sub IEEE.binary32.
Definition fmul : float -> float -> float := IEEE.mul IEEE.binary32.
Definition fdiv : float -> float -> float := IEEE.div IEEE.binary32.
Definition dadd : float -> float -> float := IEEE.add IEEE.binary64.
Definition dsub : float -> float -> float := IEEE.sub IEEE.binary64.
Definition dmul : float -> float -> float := IEEE.mul IEEE.binary64.
Definition ddiv : float -> float -> float := IEEE.div IEEE.binary64.
Definition dsqrt : float -> float := IEEE.sqrt IEEE.binary64.
Definition to_double : float -> float := IEEE.convert IEEE.binary64.
Definition to_float : float -> float := IEEE.convert IEEE.binary32.
Definition fabs : float -> float := IEEE.abs.
Definition fneg : float -> float := IEEE.opp.

(** A [double] literal [n / d] and an integer-valued one. *)
Definition dlit (n : Z) (d : positive) : float := IEEE.literal IEEE.binary64 n d.
Definition dint (n : Z) : float := dlit n 1.
Definition fzero : float := IEEE.Fin 0.

(** [const float LOG2(0.6931471806)] *)
Definition LOG2 : float := to_float (dlit 6931471806 10000000000).

(** The sentinel [-999999.] stored in a background vector, and the bound
    [-999.] it is recognised by. *)
Definition sentinel : float := to_float (dint (-999999)).
Definition sentinel_bound : float := dint (-999).

(** ** Undefined behaviour and reported errors *)

Inductive container : Type :=
| P1numerators | P2numerators | Q1contrib | Q2contrib
| LogsOfObservationTallies | StatePairDecompositions | ContribOfEachState
| TallyRow.

Inductive fault : Type :=
| NullToken                                  (* atoi or atol of the null pointer strtok returns *)
| OutOfRange (c : container) (index : Z)      (* operator[] past the end of a vector *)
| CastOutOfRange                             (* static_cast<unsigned int> of a double outside its range *)
| ModuloByZero                               (* % with a zero divisor *)
| MissingKey (key : Z)                       (* dereference of map::find's end() *)
| EmptyRange                                 (* dereference of max_element's end() *)
| Diverges.                                  (* a loop whose counter cannot pass its bound *)

Inductive outcome (A : Type) : Type :=
| Ok (a : A)
| Undefined (f : fault).
Arguments Ok {A} a.
Arguments Undefined {A} f.

Definition bind {A B : Type} (c : outcome A) (k : A -> outcome B) : outcome B :=
  match c with
  | Ok a => k a
  | Undefined f => Undefined f
  end.

Notation "x <- c ;; k" := (bind c (fun x => k))
  (at level 61, c at next level, right associativity).
Notation "' p <- c ;; k" := (bind c (fun x => let p := x in k))
  (at level 61, p pattern, c at next level, right associativity).

(** What a method returning [false] wrote to the diagnostic stream. *)
Inductive error : Type :=
| FileEmpty
| MultipleLines
| NumStatesMismatch (group1 group2 : Z)
| ParseFailed (linenum : Z)
| TooFewColumns (numCols fieldnum linenum : Z)
| TooManyColumns (numCols linenum : Z)
| ExcessColumns (expected : Z)
| DetectedInColumn (e : error) (column linenum : Z)
| ColumnCount (expected linenum found : Z).

(** The [bool] a method returns. *)
Inductive verdict : Type :=
| Accepted
| Reported (e : error).

(** Checked [operator[]]. *)
Definition at_ {A : Type} (c : container) (v : list A) (i : Z) : outcome A :=
  if (0 <=? i) && (i <? Z.of_nat (List.length v)) then
    match nth_error v (Z.to_nat i) with
    | Some a => Ok a
    | None => Undefined (OutOfRange c i)
    end
  else Undefined (OutOfRange c i).

Fixpoint replace_nth {A : Type} (n : nat) (a : A) (v : list A) : list A :=
  match v, n with
  | [], _ => []
  | _ :: t, O => a :: t
  | h :: t, S k => h :: replace_nth k a t
  end.

Definition store {A : Type} (c : container) (v : list A) (i : Z) (a : A) : outcome (list A) :=
  if (0 <=? i) && (i <? Z.of_nat (length v)) then Ok (replace_nth (Z.to_nat i) a v)
  else Undefined (OutOfRange c i).

(** [vector::assign(n, a)] *)
Definition assign {A : Type} (n : nat) (a : A) : list A := repeat a n.

(** The integers [lo, lo+1, ..., hi]. *)
Definition range (lo hi : Z) : list Z :=
  map (fun k => lo + Z.of_nat k) (seq 0 (Z.to_nat (hi + 1 - lo))).

(** A loop over a list whose body may be undefined. *)
Fixpoint foldM {A B : Type} (body : A -> B -> outcome A) (l : list B) (a : A) : outcome A :=
  match l with
  | [] => Ok a
  | b :: t => a' <- body a b ;; foldM body t a'
  end.

(** [static_cast<unsigned int>] of a [double]: truncation, undefined outside
    the range of the target type. *)
Definition to_unsigned (x : float) : outcome Z :=
  match x with
  | IEEE.Fin q =>
      let t := if Qle_bool 0 q then Qfloor q else Qceiling q in
      if (0 <=? t) && (t <? 2 ^ 32) then Ok t else Undefined CastOutOfRange
  | _ => Undefined CastOutOfRange
  end.

(** [std::max_element(first, last, FloatAbs_LT)]: position and value of the
    first element of greatest absolute value. *)
Definition FloatAbs_LT (a b : float) : bool := IEEE.ltb (fabs a) (fabs b).

Fixpoint max_element_from (largest : Z * float) (i : Z) (v : list float) : Z * float :=
  match v with
  | [] => largest
  | x :: t =>
      max_element_from (if FloatAbs_LT (snd largest) x then (i, x) else largest) (i + 1) t
  end.

Definition max_element (v : list float) : outcome (Z * float) :=
  match v with
  | [] => Undefined EmptyRange
  | x :: t => Ok (max_element_from (0, x) 1 t)
  end.

(** ** Output records *)

(** The sign column: ["1"] for a positive value, ["-1"] otherwise. *)
Definition sign_column (x : float) : Z := if IEEE.gtb x fzero then 1 else -1.

Record pair_columns : Type := {
  pc_state1 : Z;
  pc_state2 : Z;
  pc_magnitude : float;
  pc_sign : Z }.

(** A line of the observations stream. *)
Record obs_line : Type := {
  ol_chrom : string;
  ol_begin : Z;
  ol_end : Z;
  ol_state : Z;
  ol_magnitude : float;
  ol_sign : Z;
  ol_pair : option pair_columns;
  ol_retVal : float }.

(** A line of the scores stream. *)
Record scores_line : Type := {
  sl_chrom : string;
  sl_begin : Z;
  sl_end : Z;
  sl_scores : list float }.

(** ** The members shared by the three models *)

Record Base : Type := mkBase {
  m_numStates : Z;
  m_size : Z;
  m_group1size : Z;
  m_group2size : Z;
  m_numValsProcessedForGroup1 : Z;
  m_numValsProcessedForGroup2 : Z;
  m_writeNullMetric : bool;
  m_ofsObs : list obs_line;
  m_ofsNullValues : list float;
  m_ofsScores : list scores_line;
  m_chrom : string;
  m_curBegPos : Z;
  m_curEndPos : Z }.

Definition with_numStates (n : Z) (b : Base) : Base :=
  mkBase n (m_size b) (m_group1size b) (m_group2size b)
    (m_numValsProcessedForGroup1 b) (m_numValsProcessedForGroup2 b) (m_writeNullMetric b)
    (m_ofsObs b) (m_ofsNullValues b) (m_ofsScores b) (m_chrom b) (m_curBegPos b) (m_curEndPos b).

Definition with_size (n : Z) (b : Base) : Base :=
  mkBase (m_numStates b) n (m_group1size b) (m_group2size b)
    (m_numValsProcessedForGroup1 b) (m_numValsProcessedForGroup2 b) (m_writeNullMetric b)
    (m_ofsObs b) (m_ofsNullValues b) (m_ofsScores b) (m_chrom b) (m_curBegPos b) (m_curEndPos b).

Definition with_group1size (n : Z) (b : Base) : Base :=
  mkBase (m_numStates b) (m_size b) n (m_group2size b)
    (m_numValsProcessedForGroup1 b) (m_numValsProcessedForGroup2 b) (m_writeNullMetric b)
    (m_ofsObs b) (m_ofsNullValues b) (m_ofsScores b) (m_chrom b) (m_curBegPos b) (m_curEndPos b).

Definition with_group2size (n : Z) (b : Base) : Base :=
  mkBase (m_numStates b) (m_size b) (m_group1size b) n
    (m_numValsProcessedForGroup1 b) (m_numValsProcessedForGroup2 b) (m_writeNullMetric b)
    (m_ofsObs b) (m_ofsNullValues b) (m_ofsScores b) (m_chrom b) (m_curBegPos b) (m_curEndPos b).

Definition with_processed1 (n : Z) (b : Base) : Base :=
  mkBase (m_numStates b) (m_size b) (m_group1size b) (m_group2size b)
    n (m_numValsProcessedForGroup2 b) (m_writeNullMetric b)
    (m_ofsObs b) (m_ofsNullValues b) (m_ofsScores b) (m_chrom b) (m_curBegPos b) (m_curEndPos b).

Definition with_processed2 (n : Z) (b : Base) : Base :=
  mkBase (m_numStates b) (m_size b) (m_group1size b) (m_group2size b)
    (m_numValsProcessedForGroup1 b) n (m_writeNullMetric b)
    (m_ofsObs b) (m_ofsNullValues b) (m_ofsScores b) (m_chrom b) (m_curBegPos b) (m_curEndPos b).

Definition with_curBegPos (p : Z) (b : Base) : Base :=
  mkBase (m_numStates b) (m_size b) (m_group1size b) (m_group2size b)
    (m_numValsProcessedForGroup1 b) (m_numValsProcessedForGroup2 b) (m_writeNullMetric b)
    (m_ofsObs b) (m_ofsNullValues b) (m_ofsScores b) (m_chrom b) p (m_curEndPos b).

Definition with_curEndPos (p : Z) (b : Base) : Base :=
  mkBase (m_numStates b) (m_size b) (m_group1size b) (m_group2size b)
    (m_numValsProcessedForGroup1 b) (m_numValsProcessedForGroup2 b) (m_writeNullMetric b)
    (m_ofsObs b) (m_ofsNullValues b) (m_ofsScores b) (m_chrom b) (m_curBegPos b) p.

(** [m_ofsObs << ... << endl; m_ofsScores << ... << endl] *)
Definition write_obs_scores (o : obs_line) (s : scores_line) (b : Base) : Base :=
  mkBase (m_numStates b) (m_size b) (m_group1size b) (m_group2size b)
    (m_numValsProcessedForGroup1 b) (m_numValsProcessedForGroup2 b) (m_writeNullMetric b)
    (m_ofsObs b ++ [o]) (m_ofsNullValues b) (m_ofsScores b ++ [s])
    (m_chrom b) (m_curBegPos b) (m_curEndPos b).

(** [m_ofsNullValues << retVal << endl] *)
Definition write_null (retVal : float) (b : Base) : Base :=
  mkBase (m_numStates b) (m_size b) (m_group1size b) (m_group2size b)
    (m_numValsProcessedForGroup1 b) (m_numValsProcessedForGroup2 b) (m_writeNullMetric b)
    (m_ofsObs b) (m_ofsNullValues b ++ [retVal]) (m_ofsScores b)
    (m_chrom b) (m_curBegPos b) (m_curEndPos b).

(** The reset at the end of every [computeAndWriteMetric]. *)
Definition reset_counters (b : Base) : Base :=
  with_curEndPos (-1) (with_curBegPos (-1) (with_processed2 0 (with_processed1 0 b))).

(** [KLModel::init], which the other two models inherit.  A stream is open
    exactly when its file name is given. *)
Definition init (pObsFname pScoresFname pNullsFname : option string) (chrom : string) : Base :=
  {| m_numStates := 0; m_size := 0;
     m_group1size := 0; m_group2size := 0;
     m_numValsProcessedForGroup1 := 0; m_numValsProcessedForGroup2 := 0;
     m_writeNullMetric := match pNullsFname with Some _ => true | None => false end;
     m_ofsObs := []; m_ofsNullValues := []; m_ofsScores := [];
     m_chrom := chrom;
     m_curBegPos := -1; m_curEndPos := -1 |}.

(** The lines the three streams hold. *)
Definition written (b : Base) : list obs_line * list scores_line * list float :=
  (m_ofsObs b, m_ofsScores b, m_ofsNullValues b).

(** The coordinate prologue the three [processInputValue] share: in
    non-null mode, before any observation of the line, a value fills an
    unset [m_curBegPos], then an unset [m_curEndPos]. *)
Definition take_coordinate (val : Z) (b : Base) : option Base :=
  if negb (m_writeNullMetric b) && (m_numValsProcessedForGroup1 b =? 0) then
    if m_curBegPos b =? -1 then Some (with_curBegPos (i32 val) b)
    else if m_curEndPos b =? -1 then Some (with_curEndPos (i32 val) b)
    else None
  else None.

(** ** The per-identifier term of variants 1 and 2

  The body of the evaluation loop of [KLModel::computeAndWriteMetric]
  (lines 275-294), which [KLsModel::computeAndWriteMetric] repeats word
  for word over its own vectors (lines 505-532). *)

Section Term.
Variables (denom1 denom2 : float) (group2size : Z).
Variables (P1 P2 : list Z) (Q1 Q2 logs : list float).

(** The value of [term] after the group-1 block. *)
Definition group1_term (i : Z) : outcome float :=
  n <- at_ P1numerators P1 i ;;
  if n =? 0 then Ok fzero
  else
    q <- at_ Q1contrib Q1 i ;;
    if IEEE.ltb (to_double q) sentinel_bound then Ok q
    else
      l <- at_ LogsOfObservationTallies logs n ;;
      Ok (fadd fzero (fmul (fdiv (float_of n) denom1) (fadd l q))).

(** The value of [term] after the group-2 block. *)
Definition term (i : Z) : outcome float :=
  t <- group1_term i ;;
  if group2size =? 0 then Ok t
  else
    n <- at_ P2numerators P2 i ;;
    if n =? 0 then Ok t
    else
      q <- at_ Q2contrib Q2 i ;;
      if IEEE.ltb (to_double q) sentinel_bound then Ok (fneg q)
      else
        l <- at_ LogsOfObservationTallies logs n ;;
        Ok (fsub t (fmul (fdiv (float_of n) denom2) (fadd l q))).

(** [retVal += (0 == m_group2size ? term : fabs(term))] *)
Definition accumulate (retVal t : float) : float :=
  fadd retVal (if group2size =? 0 then t else fabs t).
End Term.

(** The table of logarithms: [push_back(log(static_cast<float>(i)))] for
    [i] from [lo] while [i <= hi], [i] an [unsigned int]. *)
Definition push_logs (logf : float -> float) (lo hi : Z) (logs : list float) : outcome (list float) :=
  if hi =? 2 ^ 32 - 1 then Undefined Diverges
  else Ok (logs ++ map (fun i => logf (float_of i)) (range lo hi)).

(** The loop over the tokens of a background line shared by variants 1 and
    2 (lines 136-151 and 342-357): the running total and the vector the
    contributions are pushed to. *)
Definition Qcontrib_of (logf : float -> float) (LOG_Nsites : float) (thisNumTallies : Z) : float :=
  to_float (if thisNumTallies =? 0 then dint (-999999)
            else to_double (fsub LOG_Nsites (logf (float_of thisNumTallies)))).

Definition tally_step (logf : float -> float) (LOG_Nsites : float)
    (acc : Z * list float) (token : Z) : Z * list float :=
  let thisNumTallies := u64 token in
  (u64 (fst acc + thisNumTallies), snd acc ++ [Qcontrib_of logf LOG_Nsites thisNumTallies]).

(** ** Variant 1: [KLModel] *)

Module KLModel.

Record t : Type := mk {
  base : Base;
  m_P1numerators : list Z;
  m_P2numerators : list Z;
  m_Q1contrib : list float;
  m_Q2contrib : list float;
  m_logsOfObservationTallies : list float }.

Definition with_base (b : Base) (m : t) : t :=
  mk b (m_P1numerators m) (m_P2numerators m) (m_Q1contrib m) (m_Q2contrib m)
    (m_logsOfObservationTallies m).
Definition with_P1numerators (v : list Z) (m : t) : t :=
  mk (base m) v (m_P2numerators m) (m_Q1contrib m) (m_Q2contrib m)
    (m_logsOfObservationTallies m).
Definition with_P2numerators (v : list Z) (m : t) : t :=
  mk (base m) (m_P1numerators m) v (m_Q1contrib m) (m_Q2contrib m)
    (m_logsOfObservationTallies m).
Definition with_Q1contrib (v : list float) (m : t) : t :=
  mk (base m) (m_P1numerators m) (m_P2numerators m) v (m_Q2contrib m)
    (m_logsOfObservationTallies m).
Definition with_Q2contrib (v : list float) (m : t) : t :=
  mk (base m) (m_P1numerators m) (m_P2numerators m) (m_Q1contrib m) v
    (m_logsOfObservationTallies m).
Definition with_logs (v : list float) (m : t) : t :=
  mk (base m) (m_P1numerators m) (m_P2numerators m) (m_Q1contrib m) (m_Q2contrib m) v.

(** The object after its constructor and [init]. *)
Definition create (b : Base) : t := mk b [] [] [] [] [].

Definition size (m : t) : Z := m_size (base m).
Definition writingNulls (m : t) : bool := m_writeNullMetric (base m).

(** [floor(static_cast<float>(totalNumTallies)/static_cast<float>(Nsites) + 0.01)] *)
Definition implied_group_size (totalNumTallies Nsites : Z) : outcome Z :=
  to_unsigned
    (IEEE.floor (dadd (to_double (fdiv (float_of totalNumTallies) (float_of Nsites)))
                      (dlit 1 100))).

Section WithLog.
Variable logf : float -> float.

Definition getQcontrib (infile : list (list Z)) (Nsites : Z) (m : t) : outcome (verdict * t) :=
  let LOG_Nsites := logf (float_of Nsites) in
  let group1 := m_group1size (base m) =? 0 in
  match infile with
  | [] => Ok (Reported FileEmpty, m)
  | [] :: _ => Undefined NullToken
  | line :: rest =>
      let '(totalNumTallies, contrib) :=
        fold_left (tally_step logf LOG_Nsites) line
          (0, if group1 then m_Q1contrib m else m_Q2contrib m) in
      let m := if group1 then with_Q1contrib contrib m else with_Q2contrib contrib m in
      match rest with
      | _ :: _ => Ok (Reported MultipleLines, m)
      | [] =>
          let thisNumStates := u32 (Z.of_nat (List.length (m_Q2contrib m))) in
          if negb group1 && negb (thisNumStates =? m_numStates (base m)) then
            Ok (Reported (NumStatesMismatch (m_numStates (base m)) thisNumStates), m)
          else
            let m :=
              if group1
              then with_base (with_numStates (u32 (Z.of_nat (List.length (m_Q1contrib m)))) (base m)) m
              else m in
            g <- implied_group_size totalNumTallies Nsites ;;
            let m :=
              if group1
              then with_P1numerators (assign (List.length (m_Q1contrib m)) 0)
                     (with_base (with_group1size g (base m)) m)
              else with_P2numerators (assign (List.length (m_Q2contrib m)) 0)
                     (with_base (with_group2size g (base m)) m) in
            let logs := m_logsOfObservationTallies m in
            logs' <-
              (if m_group2size (base m) =? 0
               then push_logs logf 1 (m_group1size (base m)) (logs ++ [fzero])
               else if u64 (Z.of_nat (List.length logs) - 1) <? m_group2size (base m)
                    then push_logs logf (u32 (Z.of_nat (List.length logs)))
                           (m_group2size (base m)) logs
                    else Ok logs) ;;
            let m := with_logs logs' m in
            Ok (Accepted,
                with_base
                  (with_size (u32 (Z.of_nat (List.length (m_P1numerators m))
                                   + Z.of_nat (List.length (m_P2numerators m))))
                     (base m)) m)
      end
  end.

Definition processInputValue (thisTally : Z) (m : t) : outcome (verdict * t) :=
  let b := base m in
  match take_coordinate thisTally b with
  | Some b' => Ok (Accepted, with_base b' m)
  | None =>
      if m_numValsProcessedForGroup1 b =? m_numStates b then
        if m_group2size b =? 0 then Ok (Reported (ExcessColumns (m_numStates b)), m)
        else if m_numValsProcessedForGroup2 b =? m_numStates b
             then Ok (Reported (ExcessColumns (u32 (m_numStates b * 2))), m)
             else
               v <- store P2numerators (m_P2numerators m)
                      (m_numValsProcessedForGroup2 b) thisTally ;;
               Ok (Accepted,
                   with_P2numerators v
                     (with_base (with_processed2 (u32 (m_numValsProcessedForGroup2 b + 1)) b) m))
      else
        v <- store P1numerators (m_P1numerators m)
               (m_numValsProcessedForGroup1 b) thisTally ;;
        Ok (Accepted,
            with_P1numerators v
              (with_base (with_processed1 (u32 (m_numValsProcessedForGroup1 b + 1)) b) m))
  end.

Definition denom1 (m : t) : float := fmul LOG2 (float_of (m_group1size (base m))).
Definition denom2 (m : t) : float := fmul LOG2 (float_of (m_group2size (base m))).

(** The term of state [i] (0-based). *)
Definition term_of (m : t) (i : Z) : outcome float :=
  term (denom1 m) (denom2 m) (m_group2size (base m))
    (m_P1numerators m) (m_P2numerators m) (m_Q1contrib m) (m_Q2contrib m)
    (m_logsOfObservationTallies m) i.

(** One turn of the loop of lines 273-299: the state is [retVal] and
    [contribOfEachState]. *)
Definition metric_step (m : t) (acc : float * list float) (i : Z)
  : outcome (float * list float) :=
  t <- term_of m i ;;
  contribOfEachState <-
    (if m_writeNullMetric (base m) then Ok (snd acc)
     else store ContribOfEachState (snd acc) i t) ;;
  Ok (accumulate (m_group2size (base m)) (fst acc) t, contribOfEachState).

Definition identifiers (m : t) : list Z :=
  range 0 (Z.of_nat (List.length (m_P1numerators m)) - 1).

Definition metric_loop (m : t) : outcome (float * list float) :=
  foldM (metric_step m) (identifiers m)
    (fzero, assign (Z.to_nat (m_numStates (base m))) fzero).

Definition reset (m : t) : t :=
  let m := with_base (reset_counters (base m)) m in
  let m := with_P1numerators (assign (List.length (m_P1numerators m)) 0) m in
  match m_P2numerators m with
  | [] => m
  | _ => with_P2numerators (assign (List.length (m_P2numerators m)) 0) m
  end.

Definition computeAndWriteMetric (m : t) : outcome t :=
  let b := base m in
  '(retVal, contribOfEachState) <- metric_loop m ;;
  b' <-
    (if m_writeNullMetric b then Ok (write_null retVal b)
     else
       '(position, maxContributor) <- max_element contribOfEachState ;;
       Ok (write_obs_scores
             {| ol_chrom := m_chrom b; ol_begin := m_curBegPos b; ol_end := m_curEndPos b;
                ol_state := position + 1;
                ol_magnitude := fabs maxContributor;
                ol_sign := sign_column maxContributor;
                ol_pair := None;
                ol_retVal := retVal |}
             {| sl_chrom := m_chrom b; sl_begin := m_curBegPos b; sl_end := m_curEndPos b;
                sl_scores := contribOfEachState |}
             b)) ;;
  Ok (reset (with_base b' m)).

End WithLog.
End KLModel.

(** ** Variant 2: [KLsModel] *)

Module KLsModel.

Record t : Type := mk {
  base : Base;
  m_Ps1numerators : list Z;
  m_Ps2numerators : list Z;
  m_Qs1contrib : list float;
  m_Qs2contrib : list float;
  m_logsOfObservationTallies : list float;
  m_unorderedStatePairDecompositions : list (Z * Z) }.

Definition with_base (b : Base) (m : t) : t :=
  mk b (m_Ps1numerators m) (m_Ps2numerators m) (m_Qs1contrib m) (m_Qs2contrib m)
    (m_logsOfObservationTallies m) (m_unorderedStatePairDecompositions m).
Definition with_Ps1numerators (v : list Z) (m : t) : t :=
  mk (base m) v (m_Ps2numerators m) (m_Qs1contrib m) (m_Qs2contrib m)
    (m_logsOfObservationTallies m) (m_unorderedStatePairDecompositions m).
Definition with_Ps2numerators (v : list Z) (m : t) : t :=
  mk (base m) (m_Ps1numerators m) v (m_Qs1contrib m) (m_Qs2contrib m)
    (m_logsOfObservationTallies m) (m_unorderedStatePairDecompositions m).
Definition with_Qs1contrib (v : list float) (m : t) : t :=
  mk (base m) (m_Ps1numerators m) (m_Ps2numerators m) v (m_Qs2contrib m)
    (m_logsOfObservationTallies m) (m_unorderedStatePairDecompositions m).
Definition with_Qs2contrib (v : list float) (m : t) : t :=
  mk (base m) (m_Ps1numerators m) (m_Ps2numerators m) (m_Qs1contrib m) v
    (m_logsOfObservationTallies m) (m_unorderedStatePairDecompositions m).
Definition with_logs (v : list float) (m : t) : t :=
  mk (base m) (m_Ps1numerators m) (m_Ps2numerators m) (m_Qs1contrib m) (m_Qs2contrib m)
    v (m_unorderedStatePairDecompositions m).
Definition with_decompositions (v : list (Z * Z)) (m : t) : t :=
  mk (base m) (m_Ps1numerators m) (m_Ps2numerators m) (m_Qs1contrib m) (m_Qs2contrib m)
    (m_logsOfObservationTallies m) v.

Definition create (b : Base) : t := mk b [] [] [] [] [] [].

Definition size (m : t) : Z := m_size (base m).
Definition writingNulls (m : t) : bool := m_writeNullMetric (base m).

(** [floor((sqrt(1. + 8.*static_cast<float>(x)) - 1.)/2. + 0.01)]: the
    number of states implied by [x] unordered pairs, and the row offset
    [delta_row] of the decomposition table (where the source writes the
    numerator as [-1. + sqrt(...)]). *)
Definition implied_numStates (x : Z) : outcome Z :=
  to_unsigned
    (IEEE.floor
       (dadd (ddiv (dsub (dsqrt (dadd (dint 1) (dmul (dint 8) (to_double (float_of x)))))
                         (dint 1))
                   (dint 2))
             (dlit 1 100))).

Definition delta_row_of (delta : Z) : outcome Z :=
  to_unsigned
    (IEEE.floor
       (dadd (ddiv (dadd (dint (-1))
                         (dsqrt (dadd (dint 1) (dmul (dint 8) (to_double (float_of delta))))))
                   (dint 2))
             (dlit 1 100))).

(** [floor((sqrt(1. + 8.*static_cast<float>(totalNumTallies)/static_cast<float>(Nsites)) + 1.)/2. + 0.01)] *)
Definition implied_group_size (totalNumTallies Nsites : Z) : outcome Z :=
  to_unsigned
    (IEEE.floor
       (dadd (ddiv (dadd (dsqrt (dadd (dint 1)
                                      (ddiv (dmul (dint 8) (to_double (float_of totalNumTallies)))
                                            (to_double (float_of Nsites)))))
                         (dint 1))
                   (dint 2))
             (dlit 1 100))).

(** [g*(g-1)/2] in [unsigned int] arithmetic. *)
Definition pairs_of (g : Z) : Z := u32 (g * u32 (g - 1)) / 2.

(** One turn of the loop of lines 431-447. *)
Definition decomposition_step (numStates maxUniqueStatePairID : Z)
    (table : list (Z * Z)) (delta : Z) : outcome (list (Z * Z)) :=
  delta_row <- delta_row_of delta ;;
  let delta_column :=
    if delta <=? 2 then (if delta =? 2 then 1 else 0)
    else u32 (delta - u32 (delta_row * u32 (delta_row + 1)) / 2) in
  store StatePairDecompositions table (u32 (maxUniqueStatePairID - delta))
    (u32 (numStates - delta_row), u32 (numStates - delta_column)).

(** The table built by lines 429-447 for [numStates] states. *)
Definition decompositions (numStates : Z) : outcome (list (Z * Z)) :=
  let maxUniqueStatePairID := u32 (u32 (numStates * u32 (numStates + 1)) / 2 - 1) in
  if maxUniqueStatePairID =? 2 ^ 32 - 1
  then Undefined (OutOfRange StatePairDecompositions maxUniqueStatePairID)
  else
    foldM (decomposition_step numStates maxUniqueStatePairID)
      (range 0 maxUniqueStatePairID)
      (assign (Z.to_nat (u32 (maxUniqueStatePairID + 1))) (0, 0)).

(** The state of the loop of lines 503-547. *)
Record progress : Type := {
  retVal : float;
  contribOfMaxStatePairTerm : float;
  statePairWithMaxTerm_1based : Z;
  contribOfEachState : list float }.

(** [contribOfEachState[s - 1] += 0.5*term] *)
Definition add_half (contrib : list float) (s_1based : Z) (t : float) : outcome (list float) :=
  let i := u32 (s_1based - 1) in
  c <- at_ ContribOfEachState contrib i ;;
  store ContribOfEachState contrib i
    (to_float (dadd (to_double c) (dmul (dlit 1 2) (to_double t)))).

Section WithLog.
Variable logf : float -> float.

Definition getQcontrib (infile : list (list Z)) (Nsites : Z) (m : t) : outcome (verdict * t) :=
  let LOG_Nsites := logf (float_of Nsites) in
  let group1 := m_group1size (base m) =? 0 in
  match infile with
  | [] => Ok (Reported FileEmpty, m)
  | [] :: _ => Undefined NullToken
  | line :: rest =>
      let '(totalNumTallies, contrib) :=
        fold_left (tally_step logf LOG_Nsites) line
          (0, if group1 then m_Qs1contrib m else m_Qs2contrib m) in
      let m := if group1 then with_Qs1contrib contrib m else with_Qs2contrib contrib m in
      match rest with
      | _ :: _ => Ok (Reported MultipleLines, m)
      | [] =>
          thisNumStates <-
            implied_numStates
              (Z.of_nat (List.length (if group1 then m_Qs1contrib m else m_Qs2contrib m))) ;;
          if negb group1 && negb (thisNumStates =? m_numStates (base m)) then
            Ok (Reported (NumStatesMismatch (m_numStates (base m)) thisNumStates), m)
          else
            let m := if group1 then with_base (with_numStates thisNumStates (base m)) m
                     else m in
            g <- implied_group_size totalNumTallies Nsites ;;
            let m :=
              if group1
              then with_Ps1numerators (assign (List.length (m_Qs1contrib m)) 0)
                     (with_base (with_group1size g (base m)) m)
              else with_Ps2numerators (assign (List.length (m_Qs2contrib m)) 0)
                     (with_base (with_group2size g (base m)) m) in
            let logs := m_logsOfObservationTallies m in
            logs' <-
              (if m_group2size (base m) =? 0
               then push_logs logf 1 (pairs_of (m_group1size (base m))) (logs ++ [fzero])
               else if u64 (Z.of_nat (List.length logs) - 1) <? pairs_of (m_group2size (base m))
                    then push_logs logf (u32 (Z.of_nat (List.length logs)))
                           (pairs_of (m_group2size (base m))) logs
                    else Ok logs) ;;
            let m := with_logs logs' m in
            table <- decompositions (m_numStates (base m)) ;;
            let m := with_decompositions table m in
            Ok (Accepted,
                with_base
                  (with_size (u32 (Z.of_nat (List.length (m_Ps1numerators m))
                                   + Z.of_nat (List.length (m_Ps2numerators m))))
                     (base m)) m)
      end
  end.

Definition processInputValue (thisTally : Z) (m : t) : outcome (verdict * t) :=
  let b := base m in
  match take_coordinate thisTally b with
  | Some b' => Ok (Accepted, with_base b' m)
  | None =>
      if m_numValsProcessedForGroup1 b =? Z.of_nat (List.length (m_Ps1numerators m)) then
        if m_numValsProcessedForGroup2 b =? Z.of_nat (List.length (m_Ps2numerators m))
        then Ok (Reported (ExcessColumns (u32 (m_group1size b + m_group2size b))), m)
        else
          v <- store P2numerators (m_Ps2numerators m)
                 (m_numValsProcessedForGroup2 b) thisTally ;;
          Ok (Accepted,
              with_Ps2numerators v
                (with_base (with_processed2 (u32 (m_numValsProcessedForGroup2 b + 1)) b) m))
      else
        v <- store P1numerators (m_Ps1numerators m)
               (m_numValsProcessedForGroup1 b) thisTally ;;
        Ok (Accepted,
            with_Ps1numerators v
              (with_base (with_processed1 (u32 (m_numValsProcessedForGroup1 b + 1)) b) m))
  end.

(** [LOG2 * static_cast<float>(g)*static_cast<float>(g - 1)/2.] stored in a [float] *)
Definition denom_of (g : Z) : float :=
  to_float (ddiv (to_double (fmul (fmul LOG2 (float_of g)) (float_of (u32 (g - 1)))))
                 (dint 2)).
Definition denom1 (m : t) : float := denom_of (m_group1size (base m)).
Definition denom2 (m : t) : float := denom_of (m_group2size (base m)).

(** The term of the unordered state pair [uniqueStatePairID] (0-based). *)
Definition term_of (m : t) (uniqueStatePairID : Z) : outcome float :=
  term (denom1 m) (denom2 m) (m_group2size (base m))
    (m_Ps1numerators m) (m_Ps2numerators m) (m_Qs1contrib m) (m_Qs2contrib m)
    (m_logsOfObservationTallies m) uniqueStatePairID.

(** One turn of the loop of lines 503-547. *)
Definition metric_step (m : t) (st : progress) (uniqueStatePairID : Z) : outcome progress :=
  if m_writeNullMetric (base m) then
    t <- term_of m uniqueStatePairID ;;
    Ok {| retVal := accumulate (m_group2size (base m)) (retVal st) t;
          contribOfMaxStatePairTerm := contribOfMaxStatePairTerm st;
          statePairWithMaxTerm_1based := statePairWithMaxTerm_1based st;
          contribOfEachState := contribOfEachState st |}
  else
    '(stateOfEpi1_1based, stateOfEpi2_1based) <-
      at_ StatePairDecompositions (m_unorderedStatePairDecompositions m) uniqueStatePairID ;;
    t <- term_of m uniqueStatePairID ;;
    let absTerm := fabs t in
    let larger := IEEE.gtb absTerm (fabs (contribOfMaxStatePairTerm st)) in
    c <- add_half (contribOfEachState st) stateOfEpi1_1based t ;;
    c <- add_half c stateOfEpi2_1based t ;;
    Ok {| retVal := accumulate (m_group2size (base m)) (retVal st) t;
          contribOfMaxStatePairTerm := if larger then t else contribOfMaxStatePairTerm st;
          statePairWithMaxTerm_1based :=
            if larger then u32 (uniqueStatePairID + 1) else statePairWithMaxTerm_1based st;
          contribOfEachState := c |}.

Definition identifiers (m : t) : list Z :=
  range 0 (Z.of_nat (List.length (m_Ps1numerators m)) - 1).

Definition start (m : t) : progress :=
  {| retVal := fzero;
     contribOfMaxStatePairTerm := fzero;
     statePairWithMaxTerm_1based := 0;
     contribOfEachState := assign (Z.to_nat (m_numStates (base m))) fzero |}.

Definition metric_loop (m : t) : outcome progress :=
  foldM (metric_step m) (identifiers m) (start m).

(** The index line 553 reads the decomposition table at. *)
Definition decode_index (st : progress) : Z := u32 (statePairWithMaxTerm_1based st - 1).

Definition reset (m : t) : t :=
  let m := with_base (reset_counters (base m)) m in
  let m := with_Ps1numerators (assign (List.length (m_Ps1numerators m)) 0) m in
  match m_Ps2numerators m with
  | [] => m
  | _ => with_Ps2numerators (assign (List.length (m_Ps2numerators m)) 0) m
  end.

Definition computeAndWriteMetric (m : t) : outcome t :=
  let b := base m in
  st <- metric_loop m ;;
  b' <-
    (if m_writeNullMetric b then Ok (write_null (retVal st) b)
     else
       '(s1, s2) <-
         at_ StatePairDecompositions (m_unorderedStatePairDecompositions m)
           (decode_index st) ;;
       '(position, maxContributor) <- max_element (contribOfEachState st) ;;
       Ok (write_obs_scores
             {| ol_chrom := m_chrom b; ol_begin := m_curBegPos b; ol_end := m_curEndPos b;
                ol_state := position + 1;
                ol_magnitude := fabs maxContributor;
                ol_sign := sign_column maxContributor;
                ol_pair :=
                  Some {| pc_state1 := s1; pc_state2 := s2;
                          pc_magnitude := fabs (contribOfMaxStatePairTerm st);
                          pc_sign := sign_column (contribOfMaxStatePairTerm st) |};
                ol_retVal := retVal st |}
             {| sl_chrom := m_chrom b; sl_begin := m_curBegPos b; sl_end := m_curEndPos b;
                sl_scores := contribOfEachState st |}
             b)) ;;
  Ok (reset (with_base b' m)).

End WithLog.
End KLsModel.

(** ** [std::map] and [std::set] over [unsigned int]

  A map is the list of its entries in increasing key order, which is the
  order the source iterates in; a set is the increasing list of its
  elements. *)

Module OrderedMap.
Definition t (V : Type) : Type := list (Z * V).

Fixpoint find {V : Type} (k : Z) (m : t V) : option V :=
  match m with
  | [] => None
  | (k', v) :: r => if k =? k' then Some v else find k r
  end.

(** [m[k] = v] *)
Fixpoint insert {V : Type} (k : Z) (v : V) (m : t V) : t V :=
  match m with
  | [] => [(k, v)]
  | (k', v') :: r =>
      if k <? k' then (k, v) :: m
      else if k =? k' then (k, v) :: r
      else (k', v') :: insert k v r
  end.

Definition keys {V : Type} (m : t V) : list Z := map fst m.
End OrderedMap.

Module OrderedSet.
Definition t : Type := list Z.

Fixpoint insert (k : Z) (s : t) : t :=
  match s with
  | [] => [k]
  | k' :: r =>
      if k <? k' then k :: s
      else if k =? k' then s
      else k' :: insert k r
  end.
End OrderedSet.

(** ** Variant 3: [KLssModel] *)

Module KLssModel.

(** [map<unsigned int, set<unsigned int> >]: for an ordered state pair, the
    epigenome pairs it was observed in. *)
Definition observations : Type := OrderedMap.t OrderedSet.t.

Record t : Type := mk {
  base : Base;
  m_Qss1contrib : OrderedMap.t (OrderedMap.t float);
  m_Qss2contrib : OrderedMap.t (OrderedMap.t float);
  m_statePairGroupObservationsAtThisSite : OrderedMap.t (observations * observations) }.

Definition with_base (b : Base) (m : t) : t :=
  mk b (m_Qss1contrib m) (m_Qss2contrib m) (m_statePairGroupObservationsAtThisSite m).
Definition with_Qss1contrib (q : OrderedMap.t (OrderedMap.t float)) (m : t) : t :=
  mk (base m) q (m_Qss2contrib m) (m_statePairGroupObservationsAtThisSite m).
Definition with_Qss2contrib (q : OrderedMap.t (OrderedMap.t float)) (m : t) : t :=
  mk (base m) (m_Qss1contrib m) q (m_statePairGroupObservationsAtThisSite m).
Definition with_observations (o : OrderedMap.t (observations * observations)) (m : t) : t :=
  mk (base m) (m_Qss1contrib m) (m_Qss2contrib m) o.

Definition create (b : Base) : t := mk b [] [] [].

Definition size (m : t) : Z := m_size (base m).
Definition writingNulls (m : t) : bool := m_writeNullMetric (base m).

(** [floor(sqrt(static_cast<float>(numCols)) + 0.01)], the square root in
    single precision. *)
Definition implied_numStates (numCols : Z) : outcome Z :=
  to_unsigned
    (IEEE.floor (dadd (to_double (IEEE.sqrt IEEE.binary32 (float_of numCols))) (dlit 1 100))).

(** [floor(1. + (sqrt(1. + 8.*static_cast<float>(linenum)))/2. + 0.001)] *)
Definition implied_group_size (linenum : Z) : outcome Z :=
  to_unsigned
    (IEEE.floor
       (dadd (dadd (dint 1)
                   (ddiv (dsqrt (dadd (dint 1) (dmul (dint 8) (to_double (float_of linenum)))))
                         (dint 2)))
             (dlit 1 1000))).

(** [g*(g-1)/2] in [unsigned int] arithmetic. *)
Definition pairs_of (g : Z) : Z := u32 (g * u32 (g - 1)) / 2.

(** Lines 719-728: the state-pair group of an ordered state pair, by
    reflection across the diagonal of the matrix of state pairs. *)
Definition statePairGroupID_of (numStates statePairID : Z) : Z :=
  let remainder := statePairID mod numStates in
  if negb (remainder =? 0) then
    let quotient := statePairID / numStates in
    if u32 (quotient + 1) >? remainder
    then u32 (u32 (numStates * u32 (remainder - 1)) + u32 (quotient + 1))
    else statePairID
  else statePairID.

(** Lines 796-802 (and 845-853): the 1-based row and column of a state-pair
    group in the matrix of state pairs. *)
Definition row_column (numStates statePairGroupID : Z) : Z * Z :=
  let column := statePairGroupID mod numStates in
  let row := u32 (statePairGroupID / numStates + 1) in
  if column =? 0 then (u32 (row - 1), numStates) else (row, column).

(** The ordered state pair at [row], [column] (both 1-based). *)
Definition statePairID_at (numStates row column : Z) : Z := numStates * (row - 1) + column.

(** Rows 2, 3, ... of a background matrix (lines 620-622): the values
    overwrite [row] from its start.  The loop stops at the end of the line
    or once [row] is full, and then it has already taken one more value off
    the line; the result holds [fieldnum], [row] and the values not yet
    taken. *)
Fixpoint overwrite (tokens : list Z) (fieldnum : Z) (row : list Z) : outcome (Z * list Z * list Z) :=
  match tokens with
  | [] => Ok (fieldnum, row, [])
  | token :: rest =>
      if fieldnum <? Z.of_nat (List.length row) then
        row' <- store TallyRow row fieldnum (u32 token) ;;
        overwrite rest (u32 (fieldnum + 1)) row'
      else Ok (fieldnum, row, rest)
  end.

(** Column [c] of the matrix: a row of the transposed matrix. *)
Definition column_of (tallyMatrix : list (list Z)) (c : Z) : outcome (list Z) :=
  foldM (fun acc row => x <- at_ TallyRow row c ;; Ok (acc ++ [x])) tallyMatrix [].

(** The state of the loop of lines 785-841. *)
Record progress : Type := {
  retVal : float;
  contribOfMaxStatePairGroupTerm : float;
  statePairGroupWithMaxTerm_1based : Z;
  contribOfEachState : list float }.

Definition add_half (contrib : list float) (s_1based : Z) (t : float) : outcome (list float) :=
  let i := u32 (s_1based - 1) in
  c <- at_ ContribOfEachState contrib i ;;
  store ContribOfEachState contrib i
    (to_float (dadd (to_double c) (dmul (dlit 1 2) (to_double t)))).

(** [Q.find(statePairID)->second.find(epigenomePairID)->second] *)
Definition contribution (Q : OrderedMap.t (OrderedMap.t float)) (statePairID epigenomePairID : Z)
  : outcome float :=
  match OrderedMap.find statePairID Q with
  | None => Undefined (MissingKey statePairID)
  | Some byPair =>
      match OrderedMap.find epigenomePairID byPair with
      | None => Undefined (MissingKey epigenomePairID)
      | Some c => Ok c
      end
  end.

(** The two nested loops of lines 805-815 ([combine] is [fadd]) and of
    lines 817-827 ([combine] is [fsub]). *)
Definition sum_over (combine : float -> float -> float)
    (Q : OrderedMap.t (OrderedMap.t float)) (obs : observations) (t : float) : outcome float :=
  foldM (fun t entry =>
           foldM (fun t epigenomePairID =>
                    c <- contribution Q (fst entry) epigenomePairID ;;
                    Ok (combine t c))
                 (snd entry) t)
        obs t.

(** [it->second.first[statePairID]] gains the epigenome pair [k] (lines
    735-772: a fresh singleton when the state pair is new, an insertion
    otherwise). *)
Definition record_pair (statePairID k : Z) (obs : observations) : observations :=
  match OrderedMap.find statePairID obs with
  | None => OrderedMap.insert statePairID (OrderedSet.insert k []) obs
  | Some s => OrderedMap.insert statePairID (OrderedSet.insert k s) obs
  end.

Section WithLog.
Variable logf : float -> float.

(** Lines 597-646: the rows of the file, the first fixing [numCols] and
    [m_numStates]. *)
Definition read_row (st : Z * Z * list Z * list (list Z) * Z) (tokens : list Z)
  : outcome (verdict * (Z * Z * list Z * list (list Z) * Z)) :=
  let '(linenum, numCols, row, tallyMatrix, numStates) := st in
  let linenum := u32 (linenum + 1) in
  match tokens with
  | [] => Ok (Reported (ParseFailed linenum), st)
  | _ =>
      if linenum =? 1 then
        let row := row ++ map u32 tokens in
        let numCols := u32 (numCols + Z.of_nat (List.length tokens)) in
        n <- implied_numStates numCols ;;
        Ok (Accepted, (linenum, numCols, row, tallyMatrix ++ [row], n))
      else
        '(fieldnum, row, unread) <- overwrite tokens 0 row ;;
        if negb (fieldnum =? numCols)
        then Ok (Reported (TooFewColumns numCols fieldnum linenum), st)
        else
          match unread with
          | _ :: _ => Ok (Reported (TooManyColumns numCols linenum), st)
          | [] => Ok (Accepted, (linenum, numCols, row, tallyMatrix ++ [row], numStates))
          end
  end.

Fixpoint read_rows (infile : list (list Z)) (st : Z * Z * list Z * list (list Z) * Z)
  : outcome (verdict * (Z * Z * list Z * list (list Z) * Z)) :=
  match infile with
  | [] => Ok (Accepted, st)
  | tokens :: rest =>
      r <- read_row st tokens ;;
      match r with
      | (Accepted, st') => read_rows rest st'
      | rejected => Ok rejected
      end
  end.

(** Lines 665-677: the contributions of one ordered state pair, by
    epigenome pair. *)
Definition Qss_of (LOG_Nsites denom : float) (tallies : list Z) : OrderedMap.t float :=
  snd (fold_left
         (fun acc tally =>
            let c := if negb (tally =? 0)
                     then fdiv (fsub LOG_Nsites (logf (float_of tally))) denom
                     else to_float (dint 999999) in
            (u32 (fst acc + 1), OrderedMap.insert (fst acc) c (snd acc)))
         tallies (0, [])).

Definition getQcontrib (infile : list (list Z)) (Nsites : Z) (m : t) : outcome (verdict * t) :=
  let LOG_Nsites := logf (float_of Nsites) in
  let first := match m_Qss1contrib m with [] => true | _ => false end in
  r <- read_rows infile (0, 0, [], [], m_numStates (base m)) ;;
  match r with
  | (Reported e, (_, _, _, _, numStates)) =>
      Ok (Reported e, with_base (with_numStates numStates (base m)) m)
  | (Accepted, (linenum, numCols, _, tallyMatrix, numStates)) =>
      let m := with_base (with_numStates numStates (base m)) m in
      g <- implied_group_size linenum ;;
      let m := if m_group1size (base m) =? 0
               then with_base (with_group1size g (base m)) m
               else with_base (with_group2size g (base m)) m in
      transposedTallyMatrix <-
        foldM (fun acc c => col <- column_of tallyMatrix c ;; Ok (acc ++ [col]))
              (range 0 (numCols - 1)) [] ;;
      let denom := fmul LOG2 (float_of (Z.of_nat (List.length tallyMatrix))) in
      let Qss :=
        snd (fold_left
               (fun acc tallies =>
                  (u32 (fst acc + 1),
                   OrderedMap.insert (u32 (fst acc + 1)) (Qss_of LOG_Nsites denom tallies)
                     (snd acc)))
               transposedTallyMatrix
               (0, if first then m_Qss1contrib m else m_Qss2contrib m)) in
      let m := if first then with_Qss1contrib Qss m else with_Qss2contrib Qss m in
      Ok (Accepted,
          with_base
            (with_size (u32 (pairs_of (m_group1size (base m))
                             + pairs_of (m_group2size (base m))))
               (base m)) m)
  end.

Definition processInputValue (statePairID : Z) (m : t) : outcome (verdict * t) :=
  let b := base m in
  if m_numStates b =? 0 then Undefined ModuloByZero
  else
    match take_coordinate statePairID b with
    | Some b' => Ok (Accepted, with_base b' m)
    | None =>
        let full1 := m_numValsProcessedForGroup1 b =? pairs_of (m_group1size b) in
        if full1 && (m_numValsProcessedForGroup2 b =? pairs_of (m_group2size b))
        then Ok (Reported (ExcessColumns (u32 (m_group1size b + m_group2size b))), m)
        else
          let processingGroup1 := negb full1 in
          let statePairGroupID := statePairGroupID_of (m_numStates b) statePairID in
          let sites := m_statePairGroupObservationsAtThisSite m in
          let '(group1, group2) :=
            match OrderedMap.find statePairGroupID sites with
            | None => ([], [])
            | Some both => both
            end in
          if processingGroup1 then
            Ok (Accepted,
                with_observations
                  (OrderedMap.insert statePairGroupID
                     (record_pair statePairID (m_numValsProcessedForGroup1 b) group1, group2)
                     sites)
                  (with_base (with_processed1 (u32 (m_numValsProcessedForGroup1 b + 1)) b) m))
          else
            Ok (Accepted,
                with_observations
                  (OrderedMap.insert statePairGroupID
                     (group1, record_pair statePairID (m_numValsProcessedForGroup2 b) group2)
                     sites)
                  (with_base (with_processed2 (u32 (m_numValsProcessedForGroup2 b + 1)) b) m))
    end.

(** The term of a state-pair group: its group-1 observations added, its
    group-2 observations subtracted. *)
Definition term_of (m : t) (both : observations * observations) : outcome float :=
  t <- sum_over fadd (m_Qss1contrib m) (fst both) fzero ;;
  sum_over fsub (m_Qss2contrib m) (snd both) t.

(** One turn of the loop of lines 785-841. *)
Definition metric_step (m : t) (st : progress) (entry : Z * (observations * observations))
  : outcome progress :=
  let statePairGroupID := fst entry in
  if m_writeNullMetric (base m) then
    t <- term_of m (snd entry) ;;
    Ok {| retVal := accumulate (m_group2size (base m)) (retVal st) t;
          contribOfMaxStatePairGroupTerm := contribOfMaxStatePairGroupTerm st;
          statePairGroupWithMaxTerm_1based := statePairGroupWithMaxTerm_1based st;
          contribOfEachState := contribOfEachState st |}
  else
    if m_numStates (base m) =? 0 then Undefined ModuloByZero
    else
      let '(row, column) := row_column (m_numStates (base m)) statePairGroupID in
      t <- term_of m (snd entry) ;;
      let absTerm := fabs t in
      let larger := IEEE.gtb absTerm (fabs (contribOfMaxStatePairGroupTerm st)) in
      c <- add_half (contribOfEachState st) row t ;;
      c <- add_half c column t ;;
      Ok {| retVal := accumulate (m_group2size (base m)) (retVal st) t;
            contribOfMaxStatePairGroupTerm :=
              if larger then t else contribOfMaxStatePairGroupTerm st;
            statePairGroupWithMaxTerm_1based :=
              if larger then statePairGroupID else statePairGroupWithMaxTerm_1based st;
            contribOfEachState := c |}.

Definition start (m : t) : progress :=
  {| retVal := fzero;
     contribOfMaxStatePairGroupTerm := fzero;
     statePairGroupWithMaxTerm_1based := 0;
     contribOfEachState := assign (Z.to_nat (m_numStates (base m))) fzero |}.

Definition metric_loop (m : t) : outcome progress :=
  foldM (metric_step m) (m_statePairGroupObservationsAtThisSite m) (start m).

Definition reset (m : t) : t :=
  with_observations [] (with_base (reset_counters (base m)) m).

Definition computeAndWriteMetric (m : t) : outcome t :=
  let b := base m in
  st <- metric_loop m ;;
  b' <-
    (if m_writeNullMetric b then Ok (write_null (retVal st) b)
     else
       if m_numStates b =? 0 then Undefined ModuloByZero
       else
         let '(s1, s2) := row_column (m_numStates b) (statePairGroupWithMaxTerm_1based st) in
         '(position, maxContributor) <- max_element (contribOfEachState st) ;;
         Ok (write_obs_scores
               {| ol_chrom := m_chrom b; ol_begin := m_curBegPos b; ol_end := m_curEndPos b;
                  ol_state := position + 1;
                  ol_magnitude := fabs maxContributor;
                  ol_sign := sign_column maxContributor;
                  ol_pair :=
                    Some {| pc_state1 := s1; pc_state2 := s2;
                            pc_magnitude := fabs (contribOfMaxStatePairGroupTerm st);
                            pc_sign := sign_column (contribOfMaxStatePairGroupTerm st) |};
                  ol_retVal := retVal st |}
               {| sl_chrom := m_chrom b; sl_begin := m_curBegPos b; sl_end := m_curEndPos b;
                  sl_scores := contribOfEachState st |}
               b)) ;;
  Ok (reset (with_base b' m)).

End WithLog.
End KLssModel.

(** ** The interface [Model] and the driver *)

(** The methods of the abstract class [Model] the driver calls, with the
    members every model inherits from [KLModel]. *)
Class Model (S : Type) : Type := {
  members : S -> Base;
  size : S -> Z;
  writingNulls : S -> bool;
  processInputValue : Z -> S -> outcome (verdict * S);
  computeAndWriteMetric : S -> outcome S }.

#[export] Instance KL : Model KLModel.t := {
  members := KLModel.base;
  size := KLModel.size;
  writingNulls := KLModel.writingNulls;
  processInputValue := KLModel.processInputValue;
  computeAndWriteMetric := KLModel.computeAndWriteMetric }.

#[export] Instance KLs : Model KLsModel.t := {
  members := KLsModel.base;
  size := KLsModel.size;
  writingNulls := KLsModel.writingNulls;
  processInputValue := KLsModel.processInputValue;
  computeAndWriteMetric := KLsModel.computeAndWriteMetric }.

#[export] Instance KLss : Model KLssModel.t := {
  members := KLssModel.base;
  size := KLssModel.size;
  writingNulls := KLssModel.writingNulls;
  processInputValue := KLssModel.processInputValue;
  computeAndWriteMetric := KLssModel.computeAndWriteMetric }.

Section Driver.
Context {S : Type} {M : Model S}.

(** The [do ... while] over the values of a line (lines 894-904): every
    value is counted and handed to the model; the loop ends with the
    first value the model rejects. *)
Fixpoint feed (tokens : list Z) (numColsProcessed linenum : Z) (m : S)
  : outcome (verdict * Z * S) :=
  match tokens with
  | [] => Ok (Accepted, numColsProcessed, m)
  | token :: rest =>
      let inputValue := u32 token in
      let numColsProcessed := u32 (numColsProcessed + 1) in
      r <- processInputValue inputValue m ;;
      match r with
      | (Reported e, m') =>
          Ok (Reported (DetectedInColumn e numColsProcessed linenum), numColsProcessed, m')
      | (Accepted, m') => feed rest numColsProcessed linenum m'
      end
  end.

(** The body of the [while] over the lines (lines 890-914).  A line is the
    list of the integers [atoi] reads from its tab-separated fields; for a
    line without a field [strtok] returns the null pointer, which the
    source hands to [atoi]. *)
Definition process_line (numExpected linenum : Z) (tokens : list Z) (m : S)
  : outcome (verdict * S) :=
  match tokens with
  | [] => Undefined NullToken
  | _ =>
      r <- feed tokens 0 linenum m ;;
      match r with
      | (Reported e, _, m') => Ok (Reported e, m')
      | (Accepted, numColsProcessed, m') =>
          if negb (numColsProcessed =? numExpected)
          then Ok (Reported (ColumnCount numExpected linenum numColsProcessed), m')
          else
            m'' <- computeAndWriteMetric m' ;;
            Ok (Accepted, m'')
      end
  end.

Fixpoint process_lines (numExpected linenum : Z) (ifs : list (list Z)) (m : S)
  : outcome (verdict * S) :=
  match ifs with
  | [] => Ok (Accepted, m)
  | tokens :: rest =>
      let linenum := u32 (linenum + 1) in
      r <- process_line numExpected linenum tokens m ;;
      match r with
      | (Accepted, m') => process_lines numExpected linenum rest m'
      | rejected => Ok rejected
      end
  end.

Definition numExpected_of (m : S) : Z :=
  if writingNulls m then size m else u32 (size m + 2).

Definition parseInputWriteOutput (ifs : list (list Z)) (m : S) : outcome (verdict * S) :=
  process_lines (numExpected_of m) 0 ifs m.
End Driver.

(** ** The object behind the driver's [Model*]

    [main] points [pM] at one of the three models; the properties that hold
    of every variant are stated over this tagged union. *)

Inductive model : Type :=
| OfKL (m : KLModel.t)
| OfKLs (m : KLsModel.t)
| OfKLss (m : KLssModel.t).

Definition lift {S : Type} (inj : S -> model) (r : outcome (verdict * S))
  : outcome (verdict * model) :=
  r' <- r ;; Ok (fst r', inj (snd r')).

#[export] Instance AnyModel : Model model := {
  members M :=
    match M with
    | OfKL m => KLModel.base m
    | OfKLs m => KLsModel.base m
    | OfKLss m => KLssModel.base m
    end;
  size M :=
    match M with
    | OfKL m => KLModel.size m
    | OfKLs m => KLsModel.size m
    | OfKLss m => KLssModel.size m
    end;
  writingNulls M :=
    match M with
    | OfKL m => KLModel.writingNulls m
    | OfKLs m => KLsModel.writingNulls m
    | OfKLss m => KLssModel.writingNulls m
    end;
  processInputValue val M :=
    match M with
    | OfKL m => lift OfKL (KLModel.processInputValue val m)
    | OfKLs m => lift OfKLs (KLsModel.processInputValue val m)
    | OfKLss m => lift OfKLss (KLssModel.processInputValue val m)
    end;
  computeAndWriteMetric M :=
    match M with
    | OfKL m => m' <- KLModel.computeAndWriteMetric m ;; Ok (OfKL m')
    | OfKLs m => m' <- KLsModel.computeAndWriteMetric m ;; Ok (OfKLs m')
    | OfKLss m => m' <- KLssModel.computeAndWriteMetric m ;; Ok (OfKLss m')
    end }.

(** The model with its members replaced. *)
Definition with_members (b : Base) (M : model) : model :=
  match M with
  | OfKL m => OfKL (KLModel.with_base b m)
  | OfKLs m => OfKLs (KLsModel.with_base b m)
  | OfKLss m => OfKLss (KLssModel.with_base b m)
  end.

Fixpoint mapM {A B : Type} (f : A -> outcome B) (l : list A) : outcome (list B) :=
  match l with
  | [] => Ok []
  | a :: t => b <- f a ;; r <- mapM f t ;; Ok (b :: r)
  end.

(** The terms of the segment held by the model, one per identifier
    (variants 1 and 2) or per state-pair group observed (variant 3), in the
    order the evaluation loop computes them. *)
Definition terms_of (M : model) : outcome (list float) :=
  match M with
  | OfKL m => mapM (KLModel.term_of m) (KLModel.identifiers m)
  | OfKLs m => mapM (KLsModel.term_of m) (KLsModel.identifiers m)
  | OfKLss m =>
      mapM (fun entry => KLssModel.term_of m (snd entry))
        (KLssModel.m_statePairGroupObservationsAtThisSite m)
  end.

(** [retVal] when the evaluation loop of [computeAndWriteMetric] ends. *)
Definition total_of (M : model) : outcome float :=
  match M with
  | OfKL m => r <- KLModel.metric_loop m ;; Ok (fst r)
  | OfKLs m => st <- KLsModel.metric_loop m ;; Ok (KLsModel.retVal st)
  | OfKLss m => st <- KLssModel.metric_loop m ;; Ok (KLssModel.retVal st)
  end.

(** A sum of [float]s accumulated from zero, left to right. *)
Definition sum_of (terms : list float) : float := fold_left fadd terms fzero.

(** The per-state breakdown of non-null mode stays within its vectors: every
    identifier of the segment has a slot in [contribOfEachState] (variant 1),
    a decomposition into two states of the model (variant 2), or a row and a
    column among the states of the model (variant 3). *)
Definition state_slot (numStates s_1based : Z) : Prop := 1 <= s_1based <= numStates.

Definition breakdown_in_range (M : model) : Prop :=
  match M with
  | OfKL m =>
      Z.of_nat (List.length (KLModel.m_P1numerators m)) <= m_numStates (KLModel.base m)
  | OfKLs m =>
      forall id, In id (KLsModel.identifiers m) ->
        exists s1 s2,
          nth_error (KLsModel.m_unorderedStatePairDecompositions m) (Z.to_nat id) = Some (s1, s2)
          /\ state_slot (m_numStates (KLsModel.base m)) s1
          /\ state_slot (m_numStates (KLsModel.base m)) s2
  | OfKLss m =>
      forall entry, In entry (KLssModel.m_statePairGroupObservationsAtThisSite m) ->
        state_slot (m_numStates (KLssModel.base m))
          (fst (KLssModel.row_column (m_numStates (KLssModel.base m)) (fst entry)))
        /\ state_slot (m_numStates (KLssModel.base m))
             (snd (KLssModel.row_column (m_numStates (KLssModel.base m)) (fst entry)))
  end.

(** A stand-in for the C library's [log] in closed examples: the
    single-precision value nearest the natural logarithm at 1, 2, ..., 10,
    and zero elsewhere. *)
Definition logf_sample (x : float) : float :=
  match x with
  | IEEE.Fin q =>
      if Qeq_bool q 2 then IEEE.Fin (1453635 # 2097152)
      else if Qeq_bool q 3 then IEEE.Fin (2303957 # 2097152)
      else if Qeq_bool q 4 then IEEE.Fin (1453635 # 1048576)
      else if Qeq_bool q 5 then IEEE.Fin (843809 # 524288)
      else if Qeq_bool q 6 then IEEE.Fin (469699 # 262144)
      else if Qeq_bool q 7 then IEEE.Fin (16323477 # 8388608)
      else if Qeq_bool q 8 then IEEE.Fin (4360905 # 2097152)
      else if Qeq_bool q 9 then IEEE.Fin (2303957 # 1048576)
      else if Qeq_bool q 10 then IEEE.Fin (4828871 # 2097152)
      else fzero
  | _ => fzero
  end.

(** ** [main], from the choice of the model on (lines 1003-1021)

    The arguments are taken as parsed and the files as opened: [nulls] tells
    usage type 2 (a file of null values) from usage type 1 (observations and
    scores), [infileQ2] is the background of a second group when one is
    given. *)

Inductive measurementType : Type := measure_KL | measure_KLs | measure_KLss.

Section Main.
Variable logf : float -> float.

Definition getQcontrib (infile : list (list Z)) (Nsites : Z) (M : model)
  : outcome (verdict * model) :=
  match M with
  | OfKL m => lift OfKL (KLModel.getQcontrib logf infile Nsites m)
  | OfKLs m => lift OfKLs (KLsModel.getQcontrib logf infile Nsites m)
  | OfKLss m => lift OfKLss (KLssModel.getQcontrib logf infile Nsites m)
  end.

Definition startup (kind : measurementType) (nulls : bool) (chrom : string) (Nsites : Z)
    (infileQ1 : list (list Z)) (infileQ2 : option (list (list Z)))
  : outcome (verdict * model) :=
  let b := if nulls then init None None (Some String.EmptyString) chrom
           else init (Some String.EmptyString) (Some String.EmptyString) None chrom in
  let M := match kind with
           | measure_KL => OfKL (KLModel.create b)
           | measure_KLs => OfKLs (KLsModel.create b)
           | measure_KLss => OfKLss (KLssModel.create b)
           end in
  r <- getQcontrib infileQ1 Nsites M ;;
  match r, infileQ2 with
  | (Accepted, M1), Some infile => getQcontrib infile Nsites M1
  | _, _ => Ok r
  end.

Definition run (kind : measurementType) (nulls : bool) (chrom : string) (Nsites : Z)
    (infileQ1 : list (list Z)) (infileQ2 : option (list (list Z))) (infile : list (list Z))
  : outcome (verdict * model) :=
  r <- startup kind nulls chrom Nsites infileQ1 infileQ2 ;;
  match r with
  | (Accepted, M) => parseInputWriteOutput infile M
  | rejected => Ok rejected
  end.
End Main.

(** The model after the values of one more line, when none is rejected. *)
Definition after_values (tokens : list Z) (M : model) : outcome model :=
  r <- feed tokens 0 1 M ;; Ok (snd r).

(** ** Invariants and auxiliary notions of the proofs *)

(** The record of the dominant pair after the identifiers [done]: still
    unset, no term so far being positive in absolute value, or set to an
    identifier whose term is. *)
Definition dominant_pair_record (m : KLsModel.t) (done : list Z) (st : KLsModel.progress) : Prop :=
  (KLsModel.statePairWithMaxTerm_1based st = 0
   /\ KLsModel.contribOfMaxStatePairTerm st = fzero
   /\ forall id t, In id done -> KLsModel.term_of m id = Ok t ->
        IEEE.gtb (fabs t) fzero = false)
  \/ (exists id t,
        In id done /\ KLsModel.term_of m id = Ok t
        /\ IEEE.gtb (fabs t) fzero = true
        /\ 0 <= id < Z.of_nat (List.length (KLsModel.m_unorderedStatePairDecompositions m))
        /\ KLsModel.statePairWithMaxTerm_1based st = u32 (id + 1)).

(** The written error is one of the two the driver reports for a line with
    a wrong number of columns: excess columns found by the model, or a
    column count other than the expected one. *)
Definition is_column_count_error (e : error) : Prop :=
  match e with
  | DetectedInColumn (ExcessColumns _) _ _ => True
  | ColumnCount _ _ _ => True
  | _ => False
  end.

(** Between two lines the counters of a loaded model lie within the
    vectors they index, whose sizes are [unsigned int]s (variants 1 and 2),
    and the number of states is not zero (variant 3). *)
Definition counters_in_range (M : model) : Prop :=
  match M with
  | OfKL m =>
      let b := KLModel.base m in
      0 <= m_numValsProcessedForGroup1 b <= m_numStates b
      /\ 0 <= m_numValsProcessedForGroup2 b <= m_numStates b
      /\ Z.of_nat (List.length (KLModel.m_P1numerators m)) = m_numStates b
      /\ (m_group2size b <> 0 -> Z.of_nat (List.length (KLModel.m_P2numerators m)) = m_numStates b)
      /\ m_numStates b < 2 ^ 32
  | OfKLs m =>
      let b := KLsModel.base m in
      0 <= m_numValsProcessedForGroup1 b <= Z.of_nat (List.length (KLsModel.m_Ps1numerators m))
      /\ 0 <= m_numValsProcessedForGroup2 b <= Z.of_nat (List.length (KLsModel.m_Ps2numerators m))
      /\ Z.of_nat (List.length (KLsModel.m_Ps1numerators m)) < 2 ^ 32
      /\ Z.of_nat (List.length (KLsModel.m_Ps2numerators m)) < 2 ^ 32
  | OfKLss m => m_numStates (KLssModel.base m) <> 0
  end.

(** The table of logarithms of a model of variant 1 or 2, and the greatest
    count a segment can hold for a group of [g] epigenomes: [g] states
    observed, or [g(g-1)/2] pairs. *)
Definition logs_of (M : model) : list float :=
  match M with
  | OfKL m => KLModel.m_logsOfObservationTallies m
  | OfKLs m => KLsModel.m_logsOfObservationTallies m
  | OfKLss _ => []
  end.

Definition tally_bound (kind : measurementType) (g : Z) : Z :=
  match kind with
  | measure_KL => g
  | measure_KLs => KLsModel.pairs_of g
  | measure_KLss => 0
  end.

(** The table after a call of [getQcontrib], from the table before it and
    the greatest counts [top1] and [top2] of the two groups as the call
    leaves them. *)
Definition grown (logs' logs : list float) (group2size top1 top2 : Z) : Prop :=
  if group2size =? 0
  then top1 <> 2 ^ 32 - 1
       /\ List.length logs' = (List.length logs + 1 + Z.to_nat top1)%nat
  else if u64 (Z.of_nat (List.length logs) - 1) <? top2
       then top2 <> 2 ^ 32 - 1
            /\ List.length logs'
               = (List.length logs
                  + Z.to_nat (top2 + 1 - u32 (Z.of_nat (List.length logs))))%nat
       else logs' = logs.

(** Arithmetic is not unfolded by simplification. *)
Arguments IEEE.deliver : simpl never.
Arguments IEEE.round : simpl never.
Arguments IEEE.add : simpl never.
Arguments IEEE.sub : simpl never.
Arguments IEEE.mul : simpl never.
Arguments IEEE.div : simpl never.
Arguments IEEE.sqrt : simpl never.
Arguments IEEE.abs : simpl never.
Arguments IEEE.opp : simpl never.
Arguments IEEE.ltb : simpl never.
Arguments IEEE.gtb : simpl never.
Arguments IEEE.floor : simpl never.
Arguments IEEE.of_Z : simpl never.
Arguments IEEE.convert : simpl never.
Arguments IEEE.literal : simpl never.
Arguments fadd : simpl never.
Arguments fsub : simpl never.
Arguments fmul : simpl never.
Arguments fdiv : simpl never.
Arguments dadd : simpl never.
Arguments dsub : simpl never.
Arguments dmul : simpl never.
Arguments ddiv : simpl never.
Arguments dsqrt : simpl never.
Arguments to_double : simpl never.
Arguments to_float : simpl never.
Arguments fabs : simpl never.
Arguments fneg : simpl never.
Arguments float_of : simpl never.
Arguments dlit : simpl never.
Arguments dint : simpl never.
Arguments fzero : simpl never.
Arguments LOG2 : simpl never.
Arguments sentinel : simpl never.
Arguments sentinel_bound : simpl never.
Arguments to_unsigned : simpl never.
Arguments u32 : simpl never.
Arguments u64 : simpl never.
Arguments i32 : simpl never.
Arguments range : simpl never.
Arguments Z.pow : simpl never.

(** ** Variant 2: the arithmetic of the decomposition table *)

(** The number of unordered pairs of [n] states. *)
Definition triangular (n : Z) : Z := n * (n + 1) / 2.

(** [delta_row_of delta] is the row [r] of the triangle that holds [delta]:
    triangular r <= delta < triangular (r + 1). *)
Definition delta_row_is_exact (delta : Z) : bool :=
  match KLsModel.delta_row_of delta with
  | Ok r => (0 <=? r) && (r * (r + 1) <=? 2 * delta) && (2 * delta <? (r + 1) * (r + 2))
  | Undefined _ => false
  end.

(** The row of [delta] as the source computes it (0 where the computation
    is undefined), and the pair lines 445-446 store for [delta]. *)
Definition exact_row (delta : Z) : Z :=
  match KLsModel.delta_row_of delta with
  | Ok r => r
  | Undefined _ => 0
  end.

Definition decomposition_of (numStates delta : Z) : Z * Z :=
  (numStates - exact_row delta, numStates - (delta - triangular (exact_row delta))).

(** ** Null mode against non-null mode *)

Definition with_writeNullMetric (nulls : bool) (b : Base) : Base :=
  mkBase (m_numStates b) (m_size b) (m_group1size b) (m_group2size b)
    (m_numValsProcessedForGroup1 b) (m_numValsProcessedForGroup2 b) nulls
    (m_ofsObs b) (m_ofsNullValues b) (m_ofsScores b) (m_chrom b) (m_curBegPos b) (m_curEndPos b).

(** The same model writing null values ([nulls] true) or observations and
    scores. *)
Definition in_mode (nulls : bool) (M : model) : model :=
  with_members (with_writeNullMetric nulls (members M)) M.

(** [retVal] when the evaluation loop ends, after the values of a line;
    nothing when the model rejects one of them. *)
Definition segment_total (tokens : list Z) (M : model) : outcome (option float) :=
  r <- feed tokens 0 1 M ;;
  match r with
  | (Accepted, _, M') => t <- total_of M' ;; Ok (Some t)
  | (Reported _, _, _) => Ok None
  end.

(** The model between two lines: counters and coordinates reset, no
    observation of variant 3 held. *)
Definition between_lines (M : model) : Prop :=
  m_numValsProcessedForGroup1 (members M) = 0
  /\ m_numValsProcessedForGroup2 (members M) = 0
  /\ m_curBegPos (members M) = -1
  /\ m_curEndPos (members M) = -1
  /\ match M with
     | OfKLss m => KLssModel.m_statePairGroupObservationsAtThisSite m = []
     | _ => True
     end.

(** The background of the model fits its number of states: a slot of
    [contribOfEachState] for every identifier (variant 1), a decomposition
    into two states for every identifier (variant 2), contributions for the
    ordered state pairs 1 .. numStates^2 only (variant 3). *)
Definition background_fits (M : model) : Prop :=
  0 <= m_numStates (members M) < 2 ^ 32
  /\ match M with
     | OfKL m =>
         Z.of_nat (List.length (KLModel.m_P1numerators m)) <= m_numStates (KLModel.base m)
     | OfKLs m =>
         forall id, 0 <= id < Z.of_nat (List.length (KLsModel.m_Ps1numerators m)) ->
           exists s1 s2,
             nth_error (KLsModel.m_unorderedStatePairDecompositions m) (Z.to_nat id)
             = Some (s1, s2)
             /\ state_slot (m_numStates (KLsModel.base m)) s1
             /\ state_slot (m_numStates (KLsModel.base m)) s2
     | OfKLss m =>
         0 < m_numStates (KLssModel.base m)
         /\ m_numStates (KLssModel.base m) * m_numStates (KLssModel.base m) < 2 ^ 32
         /\ forall k, In k (OrderedMap.keys (KLssModel.m_Qss1contrib m))
                      \/ In k (OrderedMap.keys (KLssModel.m_Qss2contrib m)) ->
              1 <= k <= m_numStates (KLssModel.base m) * m_numStates (KLssModel.base m)
     end.

(** Two sets of members that differ in the mode and the coordinates only. *)
Definition same_line (b1 b2 : Base) : Prop :=
  m_numStates b1 = m_numStates b2
  /\ m_size b1 = m_size b2
  /\ m_group1size b1 = m_group1size b2
  /\ m_group2size b1 = m_group2size b2
  /\ m_numValsProcessedForGroup1 b1 = m_numValsProcessedForGroup1 b2
  /\ m_numValsProcessedForGroup2 b1 = m_numValsProcessedForGroup2 b2.

(** Two models that differ in the mode, the coordinates and what they
    wrote only. *)
Definition same_segment (M1 M2 : model) : Prop :=
  same_line (members M1) (members M2)
  /\ match M1, M2 with
     | OfKL m1, OfKL m2 =>
         KLModel.m_P1numerators m1 = KLModel.m_P1numerators m2
         /\ KLModel.m_P2numerators m1 = KLModel.m_P2numerators m2
         /\ KLModel.m_Q1contrib m1 = KLModel.m_Q1contrib m2
         /\ KLModel.m_Q2contrib m1 = KLModel.m_Q2contrib m2
         /\ KLModel.m_logsOfObservationTallies m1 = KLModel.m_logsOfObservationTallies m2
     | OfKLs m1, OfKLs m2 =>
         KLsModel.m_Ps1numerators m1 = KLsModel.m_Ps1numerators m2
         /\ KLsModel.m_Ps2numerators m1 = KLsModel.m_Ps2numerators m2
         /\ KLsModel.m_Qs1contrib m1 = KLsModel.m_Qs1contrib m2
         /\ KLsModel.m_Qs2contrib m1 = KLsModel.m_Qs2contrib m2
         /\ KLsModel.m_logsOfObservationTallies m1 = KLsModel.m_logsOfObservationTallies m2
         /\ KLsModel.m_unorderedStatePairDecompositions m1
            = KLsModel.m_unorderedStatePairDecompositions m2
     | OfKLss m1, OfKLss m2 =>
         KLssModel.m_Qss1contrib m1 = KLssModel.m_Qss1contrib m2
         /\ KLssModel.m_Qss2contrib m1 = KLssModel.m_Qss2contrib m2
         /\ KLssModel.m_statePairGroupObservationsAtThisSite m1
            = KLssModel.m_statePairGroupObservationsAtThisSite m2
     | _, _ => False
     end.

(** Every state-pair group held by a model of variant 3 holds an ordered
    state pair of the group, observed in at least one epigenome pair. *)
Definition groups_hold_their_pairs (m : KLssModel.t) : Prop :=
  forall gid both,
    In (gid, both) (KLssModel.m_statePairGroupObservationsAtThisSite m) ->
    exists statePairID epigenomePairs,
      (In (statePairID, epigenomePairs) (fst both)
       \/ In (statePairID, epigenomePairs) (snd both))
      /\ epigenomePairs <> []
      /\ gid = KLssModel.statePairGroupID_of (m_numStates (KLssModel.base m)) statePairID.

(** A model in non-null mode whose coordinates are read, beside the same
    model in null mode. *)
Definition paired (M1 M2 : model) : Prop :=
  same_segment M1 M2
  /\ m_writeNullMetric (members M1) = false
  /\ m_curBegPos (members M1) <> -1
  /\ m_curEndPos (members M1) <> -1
  /\ m_writeNullMetric (members M2) = true.

(** Two outcomes that agree: the same fault, a rejection on both sides, or
    two paired models. *)
Definition paired_outcomes {A B : Type} (model_of : A -> verdict * model)
    (model_of' : B -> verdict * model) (r1 : outcome A) (r2 : outcome B) : Prop :=
  match r1, r2 with
  | Ok a, Ok b =>
      match model_of a, model_of' b with
      | (Accepted, M1), (Accepted, M2) => paired M1 M2
      | (Reported _, _), (Reported _, _) => True
      | _, _ => False
      end
  | Undefined f1, Undefined f2 => f1 = f2
  | _, _ => False
  end.

(** ** Rounding *)

(** The relative error of one rounding to the format: half the distance
    from 1 to the next number of the format. *)
Definition eps (fmt : IEEE.format) : Q := IEEE.pow2 (- IEEE.prec fmt).

(** The least positive normal number of the format. *)
Definition least_normal (fmt : IEEE.format) : Q :=
  IEEE.pow2 (IEEE.emin fmt + IEEE.prec fmt - 1).

(** A finite value between two rationals. *)
Definition within (lo hi : Q) (a : float) : Prop :=
  exists q, a = IEEE.Fin q /\ (lo <= q <= hi)%Q.

(** A number of the format, or of its range extended upwards: an integer
    of at most [prec] bits times a power of two not below the least. *)
Definition representable (fmt : IEEE.format) (y : Q) : Prop :=
  exists k e : Z,
    (y == inject_Z k * IEEE.pow2 e)%Q /\ Z.abs k <= 2 ^ IEEE.prec fmt /\ IEEE.emin fmt <= e.

(** The sum of the tallies of a background line. *)
Definition total_tallies (line : list Z) : Z := fold_right Z.add 0%Z line.

(** What variants 1 and 2 store for a tally of the background: the
    sentinel for zero, [log(Nsites) - log(tally)] otherwise. *)
Definition contribution_of (logf : float -> float) (Nsites tally : Z) : float :=
  if tally =? 0 then sentinel
  else fsub (logf (float_of Nsites)) (logf (float_of tally)).

(** ** What streaming changes and what it leaves *)

(** The coordinates of a record of the observations stream and of the
    scores stream. *)
Definition obs_coordinates (o : obs_line) : string * Z * Z :=
  (ol_chrom o, ol_begin o, ol_end o).
Definition scores_coordinates (s : scores_line) : string * Z * Z :=
  (sl_chrom s, sl_begin s, sl_end s).

(** Two models with the same background: the members [getQcontrib] sets,
    the contributions, the table of logarithms, the decomposition table and
    the sizes of the vectors of counts. *)
Definition same_background (M1 M2 : model) : Prop :=
  m_numStates (members M1) = m_numStates (members M2)
  /\ m_size (members M1) = m_size (members M2)
  /\ m_group1size (members M1) = m_group1size (members M2)
  /\ m_group2size (members M1) = m_group2size (members M2)
  /\ m_writeNullMetric (members M1) = m_writeNullMetric (members M2)
  /\ m_chrom (members M1) = m_chrom (members M2)
  /\ match M1, M2 with
     | OfKL m1, OfKL m2 =>
         KLModel.m_Q1contrib m1 = KLModel.m_Q1contrib m2
         /\ KLModel.m_Q2contrib m1 = KLModel.m_Q2contrib m2
         /\ KLModel.m_logsOfObservationTallies m1 = KLModel.m_logsOfObservationTallies m2
         /\ List.length (KLModel.m_P1numerators m1) = List.length (KLModel.m_P1numerators m2)
         /\ List.length (KLModel.m_P2numerators m1) = List.length (KLModel.m_P2numerators m2)
     | OfKLs m1, OfKLs m2 =>
         KLsModel.m_Qs1contrib m1 = KLsModel.m_Qs1contrib m2
         /\ KLsModel.m_Qs2contrib m1 = KLsModel.m_Qs2contrib m2
         /\ KLsModel.m_logsOfObservationTallies m1 = KLsModel.m_logsOfObservationTallies m2
         /\ KLsModel.m_unorderedStatePairDecompositions m1
            = KLsModel.m_unorderedStatePairDecompositions m2
         /\ List.length (KLsModel.m_Ps1numerators m1) = List.length (KLsModel.m_Ps1numerators m2)
         /\ List.length (KLsModel.m_Ps2numerators m1) = List.length (KLsModel.m_Ps2numerators m2)
     | OfKLss m1, OfKLss m2 =>
         KLssModel.m_Qss1contrib m1 = KLssModel.m_Qss1contrib m2
         /\ KLssModel.m_Qss2contrib m1 = KLssModel.m_Qss2contrib m2
     | _, _ => False
     end.

(** A model cleared for the next line: between two lines, every count
    zero. *)
Definition cleared (M : model) : Prop :=
  between_lines M
  /\ match M with
     | OfKL m =>
         KLModel.m_P1numerators m = assign (List.length (KLModel.m_P1numerators m)) 0
         /\ KLModel.m_P2numerators m = assign (List.length (KLModel.m_P2numerators m)) 0
     | OfKLs m =>
         KLsModel.m_Ps1numerators m = assign (List.length (KLsModel.m_Ps1numerators m)) 0
         /\ KLsModel.m_Ps2numerators m = assign (List.length (KLsModel.m_Ps2numerators m)) 0
     | OfKLss m => True
     end.

(** The streams of [b'] are the streams of [b] with the records [obs],
    [scores] and [nulls] appended. *)
Definition appended (b b' : Base) (obs : list obs_line) (scores : list scores_line)
    (nulls : list float) : Prop :=
  m_ofsObs b' = m_ofsObs b ++ obs
  /\ m_ofsScores b' = m_ofsScores b ++ scores
  /\ m_ofsNullValues b' = m_ofsNullValues b ++ nulls.

(** What one evaluation writes: in null mode a value; otherwise a record
    of observations and a record of scores, both at the coordinates of the
    line. *)
Definition one_record (nulls : bool) (chrom : string) (curBegPos curEndPos : Z)
    (obs : list obs_line) (scores : list scores_line) (values : list float) : Prop :=
  if nulls then obs = [] /\ scores = [] /\ exists retVal, values = [retVal]
  else values = []
       /\ exists o s, obs = [o] /\ scores = [s]
                      /\ obs_coordinates o = (chrom, curBegPos, curEndPos)
                      /\ scores_coordinates s = (chrom, curBegPos, curEndPos).

(** What [n] evaluations write: in null mode [n] values; otherwise [n]
    records of observations and [n] records of scores, record by record at
    the same coordinates. *)
Definition records_of_lines (nulls : bool) (n : nat)
    (obs : list obs_line) (scores : list scores_line) (values : list float) : Prop :=
  if nulls then obs = [] /\ scores = [] /\ List.length values = n
  else values = [] /\ List.length obs = n /\ List.length scores = n
       /\ map obs_coordinates obs = map scores_coordinates scores.

(** A value that is a number, not an infinity. *)
Definition finite (a : float) : Prop := exists q, a = IEEE.Fin q.

(** ** Variant 1 from the backgrounds to the last line *)

(** A model of variant 1 with its backgrounds loaded: a state per tally of
    the first background, groups of at least one epigenome, the vectors of
    a second group present exactly when there is one, the table of
    logarithms up to the greater group size. *)
Definition loaded (m : KLModel.t) : Prop :=
  let b := KLModel.base m in
  1 <= m_numStates b < 2 ^ 31 - 1
  /\ 1 <= m_group1size b < 2 ^ 32
  /\ 0 <= m_group2size b < 2 ^ 32
  /\ Z.of_nat (List.length (KLModel.m_P1numerators m)) = m_numStates b
  /\ Z.of_nat (List.length (KLModel.m_Q1contrib m)) = m_numStates b
  /\ (if m_group2size b =? 0 then KLModel.m_P2numerators m = []
      else Z.of_nat (List.length (KLModel.m_P2numerators m)) = m_numStates b
           /\ Z.of_nat (List.length (KLModel.m_Q2contrib m)) = m_numStates b)
  /\ Z.of_nat (List.length (KLModel.m_logsOfObservationTallies m))
     = 1 + Z.max (m_group1size b) (m_group2size b)
  /\ m_size b = Z.of_nat (List.length (KLModel.m_P1numerators m))
                + Z.of_nat (List.length (KLModel.m_P2numerators m)).

(** Counts a group of [g] epigenomes can show for a state. *)
Definition counts_within (g : Z) (counts : list Z) : Prop :=
  Forall (fun c => 0 <= c <= g) counts.

(** A line of the observations that fits the model: two coordinates (not
    in null mode) that do not convert to [-1], then for each group a count
    per state, none above the size of the group. *)
Definition line_fits (m : KLModel.t) (tokens : list Z) : Prop :=
  let b := KLModel.base m in
  exists coordinates counts1 counts2,
    tokens = coordinates ++ counts1 ++ counts2
    /\ (if m_writeNullMetric b then coordinates = []
        else exists beg end_,
               coordinates = [beg; end_] /\ i32 (u32 beg) <> -1 /\ i32 (u32 end_) <> -1)
    /\ Z.of_nat (List.length counts1) = m_numStates b
    /\ counts_within (m_group1size b) counts1
    /\ (if m_group2size b =? 0 then counts2 = []
        else Z.of_nat (List.length counts2) = m_numStates b
             /\ counts_within (m_group2size b) counts2).

(** The coordinates of the line are read, or there are none to read. *)
Definition coordinates_done (b : Base) : Prop :=
  m_writeNullMetric b = true \/ (m_curBegPos b <> -1 /\ m_curEndPos b <> -1).

(** A loaded model amid the counts of a line: [p1] counts of group 1 and
    [p2] counts of group 2 taken, no count held above the size of its
    group. *)
Definition streaming (m : KLModel.t) (p1 p2 : Z) : Prop :=
  loaded m
  /\ coordinates_done (KLModel.base m)
  /\ m_numValsProcessedForGroup1 (KLModel.base m) = p1
  /\ m_numValsProcessedForGroup2 (KLModel.base m) = p2
  /\ 0 <= p1 <= m_numStates (KLModel.base m)
  /\ 0 <= p2 <= m_numStates (KLModel.base m)
  /\ counts_within (m_group1size (KLModel.base m)) (KLModel.m_P1numerators m)
  /\ counts_within (m_group2size (KLModel.base m)) (KLModel.m_P2numerators m).

(** * Properties *)

(** ** Checked access, stores and loops *)

Lemma bind_Ok {A B : Type} (c : outcome A) (k : A -> outcome B) (b : B) :
  bind c k = Ok b -> exists a, c = Ok a /\ k a = Ok b.
Proof.
  destruct c as [a|f]; simpl; intros H; [exists a; auto | discriminate].
Qed.

Lemma replace_nth_length {A : Type} (n : nat) (a : A) (v : list A) :
  List.length (replace_nth n a v) = List.length v.
Proof.
  revert n; induction v as [|h t IH]; intros [|n]; simpl; auto.
Qed.

Lemma nth_error_replace_nth_eq {A : Type} (n : nat) (a : A) (v : list A) :
  (n < List.length v)%nat -> nth_error (replace_nth n a v) n = Some a.
Proof.
  revert n; induction v as [|h t IH]; intros [|n]; simpl; intros H; try lia; auto.
  apply IH; lia.
Qed.

Lemma nth_error_replace_nth_neq {A : Type} (n k : nat) (a : A) (v : list A) :
  n <> k -> nth_error (replace_nth n a v) k = nth_error v k.
Proof.
  revert n k; induction v as [|h t IH]; intros [|n] [|k]; simpl; intros H; try congruence.
  apply IH; congruence.
Qed.

Lemma store_Ok {A : Type} (c : container) (v : list A) (i : Z) (a : A) :
  0 <= i < Z.of_nat (List.length v) ->
  store c v i a = Ok (replace_nth (Z.to_nat i) a v).
Proof.
  intros H; unfold store.
  replace (0 <=? i) with true by (symmetry; apply Z.leb_le; lia).
  replace (i <? Z.of_nat (List.length v)) with true by (symmetry; apply Z.ltb_lt; lia).
  reflexivity.
Qed.

Lemma store_inv {A : Type} (c : container) (v v' : list A) (i : Z) (a : A) :
  store c v i a = Ok v' ->
  0 <= i < Z.of_nat (List.length v) /\ v' = replace_nth (Z.to_nat i) a v.
Proof.
  unfold store; intros H.
  destruct (0 <=? i) eqn:H0; destruct (i <? Z.of_nat (List.length v)) eqn:H1;
    simpl in H; try discriminate.
  apply Z.leb_le in H0; apply Z.ltb_lt in H1; split; [lia | congruence].
Qed.

Lemma store_length {A : Type} (c : container) (v v' : list A) (i : Z) (a : A) :
  store c v i a = Ok v' -> List.length v' = List.length v.
Proof.
  intros H; apply store_inv in H as [_ ->]; apply replace_nth_length.
Qed.

Lemma at_Ok {A : Type} (c : container) (v : list A) (i : Z) (a : A) :
  0 <= i -> nth_error v (Z.to_nat i) = Some a -> at_ c v i = Ok a.
Proof.
  intros H0 H; unfold at_.
  assert (Z.to_nat i < List.length v)%nat by (apply nth_error_Some; congruence).
  replace (0 <=? i) with true by (symmetry; apply Z.leb_le; lia).
  replace (i <? Z.of_nat (List.length v)) with true by (symmetry; apply Z.ltb_lt; lia).
  simpl. now rewrite H.
Qed.

Lemma at_inv {A : Type} (c : container) (v : list A) (i : Z) (a : A) :
  at_ c v i = Ok a -> 0 <= i < Z.of_nat (List.length v) /\ nth_error v (Z.to_nat i) = Some a.
Proof.
  unfold at_.
  destruct (0 <=? i) eqn:H0; destruct (i <? Z.of_nat (List.length v)) eqn:H1;
    simpl; try discriminate.
  apply Z.leb_le in H0; apply Z.ltb_lt in H1.
  destruct (nth_error v (Z.to_nat i)) as [x|] eqn:H; [|discriminate].
  intros [= ->]; split; auto.
Qed.

Lemma at_in_range {A : Type} (c : container) (v : list A) (i : Z) :
  0 <= i < Z.of_nat (List.length v) -> exists a, at_ c v i = Ok a.
Proof.
  intros H. destruct (nth_error v (Z.to_nat i)) as [a|] eqn:E.
  - exists a; apply at_Ok; [lia | exact E].
  - apply nth_error_None in E; lia.
Qed.

Lemma at_out_of_range {A : Type} (c : container) (v : list A) (i : Z) :
  Z.of_nat (List.length v) <= i -> at_ c v i = Undefined (OutOfRange c i).
Proof.
  intros H; unfold at_.
  replace (i <? Z.of_nat (List.length v)) with false by (symmetry; apply Z.ltb_ge; lia).
  now rewrite andb_false_r.
Qed.

Lemma in_range (lo hi i : Z) : In i (range lo hi) <-> lo <= i <= hi.
Proof.
  unfold range; rewrite in_map_iff; split.
  - intros (k & <- & Hk); apply in_seq in Hk; lia.
  - intros H; exists (Z.to_nat (i - lo)); split; [lia | apply in_seq; lia].
Qed.

Lemma range_length (lo hi : Z) : List.length (range lo hi) = Z.to_nat (hi + 1 - lo).
Proof.
  unfold range; now rewrite length_map, length_seq.
Qed.

Lemma foldM_app {A B : Type} (body : A -> B -> outcome A) (l1 l2 : list B) (a : A) :
  foldM body (l1 ++ l2) a = (a' <- foldM body l1 a ;; foldM body l2 a').
Proof.
  revert a; induction l1 as [|b t IH]; intros a; simpl; auto.
  destruct (body a b); simpl; auto.
Qed.

Lemma u32_small (x : Z) : 0 <= x < 2 ^ 32 -> u32 x = x.
Proof. intros H; unfold u32; apply Z.mod_small; lia. Qed.

Lemma u32_range (x : Z) : 0 <= u32 x < 2 ^ 32.
Proof. unfold u32; apply Z.mod_pos_bound; lia. Qed.

(** ** Variant 3: state pairs, their groups, rows and columns *)

Lemma statePairID_at_div_mod (n r c : Z) :
  0 < n -> 1 <= c <= n ->
  (n * (r - 1) + c) mod n = (if c =? n then 0 else c)
  /\ (n * (r - 1) + c) / n = (if c =? n then r else r - 1).
Proof.
  intros Hn Hc. destruct (c =? n) eqn:E.
  - apply Z.eqb_eq in E; subst c.
    replace (n * (r - 1) + n) with (r * n) by ring.
    rewrite Z.mod_mul, Z.div_mul by lia. auto.
  - apply Z.eqb_neq in E.
    replace (n * (r - 1) + c) with (c + (r - 1) * n) by ring.
    rewrite Z.mod_add, Z.div_add by lia.
    rewrite Z.mod_small, Z.div_small by lia. split; lia.
Qed.

Lemma row_column_at (n r c : Z) :
  0 < n -> n * n < 2 ^ 32 -> 1 <= r <= n -> 1 <= c <= n ->
  KLssModel.row_column n (KLssModel.statePairID_at n r c) = (r, c).
Proof.
  intros Hn Hb Hr Hc. unfold KLssModel.row_column, KLssModel.statePairID_at.
  destruct (statePairID_at_div_mod n r c Hn Hc) as [-> ->].
  assert (n < 2 ^ 16) by nia.
  destruct (c =? n) eqn:E; simpl.
  - apply Z.eqb_eq in E; subst c.
    rewrite (u32_small (r + 1)) by lia. rewrite u32_small by lia. f_equal; lia.
  - apply Z.eqb_neq in E.
    replace (c =? 0) with false by (symmetry; apply Z.eqb_neq; lia).
    rewrite u32_small by lia. f_equal; lia.
Qed.

Lemma row_column_spec (n id : Z) :
  0 < n -> n * n < 2 ^ 32 -> 1 <= id <= n * n ->
  exists r c, KLssModel.row_column n id = (r, c)
              /\ 1 <= r <= n /\ 1 <= c <= n
              /\ id = KLssModel.statePairID_at n r c.
Proof.
  intros Hn Hb Hid.
  pose proof (Z.div_mod id n ltac:(lia)) as Hdm.
  pose proof (Z.mod_pos_bound id n Hn) as Hm.
  destruct (id mod n =? 0) eqn:E.
  - apply Z.eqb_eq in E.
    exists (id / n), n.
    assert (1 <= id / n <= n) by nia.
    split; [|unfold KLssModel.statePairID_at; repeat split; nia].
    rewrite <- (row_column_at n (id / n) n) by lia.
    f_equal. unfold KLssModel.statePairID_at. nia.
  - apply Z.eqb_neq in E.
    exists (id / n + 1), (id mod n).
    assert (0 <= id / n < n) by nia.
    split; [|unfold KLssModel.statePairID_at; repeat split; nia].
    rewrite <- (row_column_at n (id / n + 1) (id mod n)) by lia.
    f_equal. unfold KLssModel.statePairID_at. nia.
Qed.

(** The group of the pair at ([r], [c]) is the pair at the smaller and the
    larger of the two. *)
Lemma statePairGroupID_of_at (n r c : Z) :
  0 < n -> n * n < 2 ^ 32 -> 1 <= r <= n -> 1 <= c <= n ->
  KLssModel.statePairGroupID_of n (KLssModel.statePairID_at n r c)
  = KLssModel.statePairID_at n (Z.min r c) (Z.max r c).
Proof.
  intros Hn Hb Hr Hc. unfold KLssModel.statePairGroupID_of, KLssModel.statePairID_at.
  destruct (statePairID_at_div_mod n r c Hn Hc) as [-> ->].
  assert (n < 2 ^ 16) by nia.
  destruct (c =? n) eqn:E; simpl.
  - apply Z.eqb_eq in E; subst c. rewrite Z.min_l, Z.max_r by lia. reflexivity.
  - apply Z.eqb_neq in E.
    replace (c =? 0) with false by (symmetry; apply Z.eqb_neq; lia). simpl.
    replace (r - 1 + 1) with r by lia.
    rewrite (u32_small r) by lia.
    destruct (r >? c) eqn:G.
    + apply Z.gtb_lt in G. rewrite Z.min_r, Z.max_l by lia.
      rewrite (u32_small (c - 1)) by lia.
      rewrite (u32_small (n * (c - 1))) by nia.
      rewrite u32_small by nia. reflexivity.
    + assert (r <= c) by (destruct (Z.gtb_spec r c); [discriminate | lia]).
      rewrite Z.min_l, Z.max_r by lia. reflexivity.
Qed.



(** ** The per-identifier term *)

(** [KLModel] and [KLsModel] evaluate the same term. *)
Lemma KLModel_term_of_eq (m : KLModel.t) (i : Z) :
  KLModel.term_of m i
  = term (KLModel.denom1 m) (KLModel.denom2 m) (m_group2size (KLModel.base m))
      (KLModel.m_P1numerators m) (KLModel.m_P2numerators m)
      (KLModel.m_Q1contrib m) (KLModel.m_Q2contrib m)
      (KLModel.m_logsOfObservationTallies m) i.
Proof. reflexivity. Qed.

Lemma KLsModel_term_of_eq (m : KLsModel.t) (i : Z) :
  KLsModel.term_of m i
  = term (KLsModel.denom1 m) (KLsModel.denom2 m) (m_group2size (KLsModel.base m))
      (KLsModel.m_Ps1numerators m) (KLsModel.m_Ps2numerators m)
      (KLsModel.m_Qs1contrib m) (KLsModel.m_Qs2contrib m)
      (KLsModel.m_logsOfObservationTallies m) i.
Proof. reflexivity. Qed.

Lemma sentinel_is_recognised : IEEE.ltb (to_double sentinel) sentinel_bound = true.
Proof. vm_compute. reflexivity. Qed.

Lemma sentinel_negated : fneg sentinel = IEEE.Fin 999999.
Proof. vm_compute. reflexivity. Qed.



(** ** The total metric is the sum of the terms *)

Lemma fold_accumulate (group2size : Z) (terms : list float) (r : float) :
  fold_left (accumulate group2size) terms r
  = if group2size =? 0 then fold_left fadd terms r
    else fold_left fadd (map fabs terms) r.
Proof.
  unfold accumulate. destruct (group2size =? 0).
  - revert r; induction terms as [|t ts IH]; intros r; cbn [fold_left]; auto.
  - revert r; induction terms as [|t ts IH]; intros r; cbn [fold_left map]; auto.
Qed.

Lemma KLModel_loop_total (m : KLModel.t) (l : list Z) (acc : float * list float) :
  (m_writeNullMetric (KLModel.base m) = false ->
   forall i, In i l -> 0 <= i < Z.of_nat (List.length (snd acc))) ->
  (r <- foldM (KLModel.metric_step m) l acc ;; Ok (fst r))
  = (terms <- mapM (KLModel.term_of m) l ;;
     Ok (fold_left (accumulate (m_group2size (KLModel.base m))) terms (fst acc))).
Proof.
  revert acc; induction l as [|i l IH]; intros [r c] Hsafe; cbn [foldM mapM bind fst snd]; auto.
  unfold KLModel.metric_step at 1.
  destruct (KLModel.term_of m i) as [t|f]; cbn [bind fst snd]; auto.
  destruct (m_writeNullMetric (KLModel.base m)) eqn:Hnull; cbn [bind fst snd].
  - rewrite IH by (intros; discriminate). cbn [bind fst snd].
    destruct (mapM (KLModel.term_of m) l); reflexivity.
  - rewrite store_Ok by (apply (Hsafe eq_refl); now left). cbn [bind fst snd].
    rewrite IH.
    + cbn [bind fst snd KLsModel.retVal KLssModel.retVal]. destruct (mapM (KLModel.term_of m) l); reflexivity.
    + intros _ j Hj; cbn [bind fst snd]. rewrite replace_nth_length.
      apply (Hsafe eq_refl); now right.
Qed.

Lemma add_half_Ok (contrib : list float) (s numStates : Z) (t : float) :
  state_slot numStates s -> numStates <= Z.of_nat (List.length contrib) ->
  numStates < 2 ^ 32 ->
  exists c, KLsModel.add_half contrib s t = Ok c /\ List.length c = List.length contrib.
Proof.
  intros [H1 H2] Hlen Hb. unfold KLsModel.add_half.
  rewrite u32_small by lia.
  destruct (at_in_range ContribOfEachState contrib (s - 1)) as [x ->]; [lia|]; cbn [bind fst snd].
  rewrite store_Ok by lia. eexists; split; [reflexivity|apply replace_nth_length].
Qed.

Lemma KLsModel_loop_total (m : KLsModel.t) (l : list Z) (st : KLsModel.progress) :
  (m_writeNullMetric (KLsModel.base m) = false ->
   m_numStates (KLsModel.base m) <= Z.of_nat (List.length (KLsModel.contribOfEachState st))
   /\ m_numStates (KLsModel.base m) < 2 ^ 32
   /\ forall id, In id l -> 0 <= id /\ exists s1 s2,
        nth_error (KLsModel.m_unorderedStatePairDecompositions m) (Z.to_nat id) = Some (s1, s2)
        /\ state_slot (m_numStates (KLsModel.base m)) s1
        /\ state_slot (m_numStates (KLsModel.base m)) s2) ->
  (r <- foldM (KLsModel.metric_step m) l st ;; Ok (KLsModel.retVal r))
  = (terms <- mapM (KLsModel.term_of m) l ;;
     Ok (fold_left (accumulate (m_group2size (KLsModel.base m))) terms (KLsModel.retVal st))).
Proof.
  revert st; induction l as [|i l IH]; intros st Hsafe; cbn [foldM mapM bind fst snd]; auto.
  unfold KLsModel.metric_step at 1.
  destruct (m_writeNullMetric (KLsModel.base m)) eqn:Hnull.
  - destruct (KLsModel.term_of m i) as [t|f]; cbn [bind fst snd]; auto.
    rewrite IH by (intros; discriminate). cbn [bind fst snd].
    destruct (mapM (KLsModel.term_of m) l); reflexivity.
  - destruct (Hsafe eq_refl) as (Hlen & Hb & Hl).
    destruct (Hl i (or_introl eq_refl)) as (Hi & s1 & s2 & Hnth & Hs1 & Hs2).
    rewrite (at_Ok _ _ _ _ Hi Hnth); cbn [bind fst snd].
    destruct (KLsModel.term_of m i) as [t|f]; cbn [bind fst snd]; auto.
    destruct (add_half_Ok (KLsModel.contribOfEachState st) s1 _ t Hs1 Hlen Hb)
      as (c1 & -> & Hc1); cbn [bind fst snd].
    assert (Hlen1 : m_numStates (KLsModel.base m) <= Z.of_nat (List.length c1)) by lia.
    destruct (add_half_Ok c1 s2 _ t Hs2 Hlen1 Hb) as (c2 & -> & Hc2); cbn [bind fst snd].
    rewrite IH.
    + cbn [bind fst snd KLsModel.retVal KLssModel.retVal]. destruct (mapM (KLsModel.term_of m) l); reflexivity.
    + intros _; cbn [KLsModel.contribOfEachState]. split; [lia | split; [lia |]].
      intros id Hid; apply Hl; now right.
Qed.

Lemma KLss_add_half_Ok (contrib : list float) (s numStates : Z) (t : float) :
  state_slot numStates s -> numStates <= Z.of_nat (List.length contrib) ->
  numStates < 2 ^ 32 ->
  exists c, KLssModel.add_half contrib s t = Ok c /\ List.length c = List.length contrib.
Proof.
  intros [H1 H2] Hlen Hb. unfold KLssModel.add_half.
  rewrite u32_small by lia.
  destruct (at_in_range ContribOfEachState contrib (s - 1)) as [x ->]; [lia|]; cbn [bind fst snd].
  rewrite store_Ok by lia. eexists; split; [reflexivity|apply replace_nth_length].
Qed.

Lemma KLssModel_loop_total (m : KLssModel.t)
    (l : list (Z * (KLssModel.observations * KLssModel.observations)))
    (st : KLssModel.progress) :
  (m_writeNullMetric (KLssModel.base m) = false ->
   m_numStates (KLssModel.base m) <= Z.of_nat (List.length (KLssModel.contribOfEachState st))
   /\ m_numStates (KLssModel.base m) < 2 ^ 32
   /\ (l <> [] -> m_numStates (KLssModel.base m) <> 0)
   /\ forall entry t, In entry l -> KLssModel.term_of m (snd entry) = Ok t ->
        state_slot (m_numStates (KLssModel.base m))
          (fst (KLssModel.row_column (m_numStates (KLssModel.base m)) (fst entry)))
        /\ state_slot (m_numStates (KLssModel.base m))
             (snd (KLssModel.row_column (m_numStates (KLssModel.base m)) (fst entry)))) ->
  (r <- foldM (KLssModel.metric_step m) l st ;; Ok (KLssModel.retVal r))
  = (terms <- mapM (fun entry => KLssModel.term_of m (snd entry)) l ;;
     Ok (fold_left (accumulate (m_group2size (KLssModel.base m))) terms (KLssModel.retVal st))).
Proof.
  revert st; induction l as [|e l IH]; intros st Hsafe; cbn [foldM mapM bind fst snd]; auto.
  unfold KLssModel.metric_step at 1.
  destruct (m_writeNullMetric (KLssModel.base m)) eqn:Hnull.
  - destruct (KLssModel.term_of m (snd e)) as [t|f]; cbn [bind fst snd]; auto.
    rewrite IH by (intros; discriminate). cbn [bind fst snd].
    destruct (mapM _ l); reflexivity.
  - destruct (Hsafe eq_refl) as (Hlen & Hb & Hne & Hl).
    assert (Hn : (m_numStates (KLssModel.base m) =? 0) = false)
      by (apply Z.eqb_neq; apply Hne; discriminate).
    rewrite Hn.
    destruct (KLssModel.row_column (m_numStates (KLssModel.base m)) (fst e)) as [row col]
      eqn:Hrc.
    destruct (KLssModel.term_of m (snd e)) as [t|f] eqn:Ht; cbn [bind fst snd]; auto.
    destruct (Hl e t (or_introl eq_refl) Ht) as (Hr & Hc).
    rewrite Hrc in Hr, Hc. cbn [fst snd] in Hr, Hc.
    destruct (KLss_add_half_Ok (KLssModel.contribOfEachState st) row _ t Hr Hlen Hb)
      as (c1 & -> & Hc1); cbn [bind fst snd].
    assert (Hlen1 : m_numStates (KLssModel.base m) <= Z.of_nat (List.length c1)) by lia.
    destruct (KLss_add_half_Ok c1 col _ t Hc Hlen1 Hb) as (c2 & -> & Hc2); cbn [bind fst snd].
    rewrite IH.
    + cbn [bind fst snd KLssModel.retVal]. destruct (mapM _ l); reflexivity.
    + intros _; cbn [KLssModel.contribOfEachState].
      split; [lia | split; [lia | split]].
      * intros _. apply Hne; discriminate.
      * intros entry t0 Hentry; apply Hl; now right.
Qed.



(** ** Variant 2: the decode of the dominant state pair *)

Lemma foldM_invariant {A B : Type} (body : A -> B -> outcome A) (P : list B -> A -> Prop) :
  (forall done a b a', P done a -> body a b = Ok a' -> P (done ++ [b]) a') ->
  forall l done a a', P done a -> foldM body l a = Ok a' -> P (done ++ l) a'.
Proof.
  intros Hstep l; induction l as [|b l IH]; intros done a a' HP H; cbn [foldM] in H.
  - injection H as <-. now rewrite app_nil_r.
  - apply bind_Ok in H as (a1 & H1 & H2).
    replace (done ++ b :: l) with ((done ++ [b]) ++ l) by (rewrite <- app_assoc; reflexivity).
    eapply IH; [|exact H2]. eapply Hstep; eauto.
Qed.

Lemma fabs_fzero : fabs fzero = fzero.
Proof. vm_compute. reflexivity. Qed.

(** A value greater in absolute value than another is positive in absolute
    value. *)
Lemma gtb_fabs_positive (t c : float) :
  IEEE.gtb (fabs t) (fabs c) = true -> IEEE.gtb (fabs t) fzero = true.
Proof.
  unfold IEEE.gtb, fabs, fzero.
  destruct t as [y| |], c as [x| |]; cbv [IEEE.abs IEEE.ltb negb andb]; try discriminate; auto.
  destruct (Qcompare (Qred (Qabs x)) (Qred (Qabs y))) eqn:E; try discriminate.
  intros _. rewrite <- Qlt_alt in E. rewrite !Qred_correct in E.
  assert (H : (0 < Qred (Qabs y))%Q).
  { rewrite Qred_correct. pose proof (Qabs_nonneg x). lra. }
  rewrite Qlt_alt in H. now rewrite H.
Qed.

(** What one turn of the loop does to the record of the dominant pair. *)
Lemma KLsModel_metric_step_max (m : KLsModel.t) (st st' : KLsModel.progress) (id : Z) :
  m_writeNullMetric (KLsModel.base m) = false ->
  KLsModel.metric_step m st id = Ok st' ->
  0 <= id < Z.of_nat (List.length (KLsModel.m_unorderedStatePairDecompositions m))
  /\ exists t,
       KLsModel.term_of m id = Ok t
       /\ if IEEE.gtb (fabs t) (fabs (KLsModel.contribOfMaxStatePairTerm st))
          then KLsModel.contribOfMaxStatePairTerm st' = t
               /\ KLsModel.statePairWithMaxTerm_1based st' = u32 (id + 1)
          else KLsModel.contribOfMaxStatePairTerm st' = KLsModel.contribOfMaxStatePairTerm st
               /\ KLsModel.statePairWithMaxTerm_1based st'
                  = KLsModel.statePairWithMaxTerm_1based st.
Proof.
  intros Hnull H. unfold KLsModel.metric_step in H. rewrite Hnull in H.
  apply bind_Ok in H as ([s1 s2] & Hat & H).
  apply at_inv in Hat as [Hid _]. split; [exact Hid|].
  apply bind_Ok in H as (t & Ht & H). exists t; split; [exact Ht|].
  apply bind_Ok in H as (c1 & _ & H).
  apply bind_Ok in H as (c2 & _ & H).
  injection H as <-. cbn [KLsModel.contribOfMaxStatePairTerm KLsModel.statePairWithMaxTerm_1based].
  destruct (IEEE.gtb _ _); auto.
Qed.

Lemma KLsModel_loop_dominant_pair (m : KLsModel.t) (st : KLsModel.progress) :
  m_writeNullMetric (KLsModel.base m) = false ->
  KLsModel.metric_loop m = Ok st ->
  dominant_pair_record m (KLsModel.identifiers m) st.
Proof.
  intros Hnull H. unfold KLsModel.metric_loop in H.
  apply (foldM_invariant (KLsModel.metric_step m) (dominant_pair_record m)) with (done := [])
    in H; [exact H| |].
  - clear H. intros done a id a' HP Hstep.
    destruct (KLsModel_metric_step_max m a a' id Hnull Hstep) as (Hid & t & Ht & Hmax).
    destruct (IEEE.gtb (fabs t) (fabs (KLsModel.contribOfMaxStatePairTerm a))) eqn:G.
    + right. exists id, t. destruct Hmax as [_ Hmax].
      repeat split; try tauto; try lia.
      * apply in_or_app; right; now left.
      * eapply gtb_fabs_positive; eauto.
    + destruct Hmax as [Hc Hp]. destruct HP as [(Hp0 & Hc0 & Hall)|(id' & t' & Hin & Hrest)].
      * left. repeat split; [congruence | congruence |].
        intros id0 t0 Hin0 Ht0. apply in_app_or in Hin0 as [Hin0|[<-|[]]]; [eauto|].
        rewrite Ht in Ht0; injection Ht0 as <-.
        rewrite Hc0, fabs_fzero in G. exact G.
      * right. exists id', t'. rewrite Hp.
        split; [apply in_or_app; now left | exact Hrest].
  - left. repeat split. intros id t [].
Qed.

(** C9. In variant 2's non-null mode, once the evaluation loop has ended,
    the index [statePairWithMaxTerm_1based - 1] at which line 553 reads the
    decomposition table lies within the table exactly when some identifier
    of the segment has a term of strictly positive absolute value; when none
    has, the index is 0 - 1 in [unsigned int] arithmetic, 4294967295, and the
    read is past the end of the table. *)
Theorem dominant_pair_decode_in_range (m : KLsModel.t) (st : KLsModel.progress) :
  m_writeNullMetric (KLsModel.base m) = false ->
  Z.of_nat (List.length (KLsModel.m_unorderedStatePairDecompositions m)) < 2 ^ 32 ->
  KLsModel.metric_loop m = Ok st ->
  let some_term_positive :=
    exists id t, In id (KLsModel.identifiers m) /\ KLsModel.term_of m id = Ok t
                 /\ IEEE.gtb (fabs t) fzero = true in
  (0 <= KLsModel.decode_index st
        < Z.of_nat (List.length (KLsModel.m_unorderedStatePairDecompositions m))
   <-> some_term_positive)
  /\ (~ some_term_positive ->
      KLsModel.decode_index st = 2 ^ 32 - 1
      /\ KLsModel.computeAndWriteMetric m
         = Undefined (OutOfRange StatePairDecompositions (2 ^ 32 - 1))).
Proof.
  intros Hnull Hlen Hloop some_term_positive.
  pose proof (KLsModel_loop_dominant_pair m st Hnull Hloop) as Hrec.
  assert (Hzero : ~ some_term_positive -> KLsModel.decode_index st = 2 ^ 32 - 1).
  { intros Hnone. destruct Hrec as [(Hp & _)|(id & t & Hin & Ht & Hpos & _)].
    - unfold KLsModel.decode_index. rewrite Hp. reflexivity.
    - exfalso; apply Hnone. exists id, t; auto. }
  split; [split|].
  - intros Hrange. destruct Hrec as [(Hp & _)|(id & t & Hin & Ht & Hpos & _)].
    + unfold KLsModel.decode_index in Hrange. rewrite Hp in Hrange.
      change (u32 (0 - 1)) with (2 ^ 32 - 1) in Hrange. lia.
    + exists id, t; auto.
  - intros (id0 & t0 & Hin0 & Ht0 & Hpos0).
    destruct Hrec as [(_ & _ & Hall)|(id & t & Hin & Ht & Hpos & Hid & Hp)].
    + rewrite (Hall id0 t0 Hin0 Ht0) in Hpos0; discriminate.
    + unfold KLsModel.decode_index. rewrite Hp.
      rewrite (u32_small (id + 1)) by lia.
      replace (id + 1 - 1) with id by lia. rewrite u32_small by lia. exact Hid.
  - intros Hnone. split; [auto|].
    unfold KLsModel.computeAndWriteMetric. rewrite Hloop; cbn [bind]. rewrite Hnull.
    rewrite (Hzero Hnone).
    rewrite at_out_of_range by lia. reflexivity.
Qed.

(** A segment of variant 2 whose counts are all zero, over the background
    [5 0 5 5 0 0] of 5 sites: no term is positive and the decode reads the
    table of six entries at 4294967295. *)
Lemma dominant_pair_decode_in_range_witness :
  exists m st,
    (r <- startup logf_sample measure_KLs false String.EmptyString 5
            [[5; 0; 5; 5; 0; 0]] None ;;
     after_values [20; 30; 0; 0; 0; 0; 0; 0] (snd r)) = Ok (OfKLs m)
    /\ KLsModel.metric_loop m = Ok st
    /\ KLsModel.decode_index st = 2 ^ 32 - 1
    /\ KLsModel.computeAndWriteMetric m
       = Undefined (OutOfRange StatePairDecompositions (2 ^ 32 - 1)).
Proof.
  eexists; eexists. split; [vm_compute; reflexivity|].
  split; [vm_compute; reflexivity|].
  eapply dominant_pair_decode_in_range.
  - reflexivity.
  - vm_compute; reflexivity.
  - vm_compute; reflexivity.
  - intros (id & t & Hin & Ht & Hpos).
    unfold KLsModel.identifiers in Hin; apply in_range in Hin.
    cbn [KLsModel.m_Ps1numerators List.length] in Hin.
    assert (Hcases : id = 0 \/ id = 1 \/ id = 2 \/ id = 3 \/ id = 4 \/ id = 5) by lia.
    destruct Hcases as [->|[->|[->|[->|[->| ->]]]]];
      vm_compute in Ht; injection Ht as <-; vm_compute in Hpos; discriminate.
Defined.

(** ** The driver and lines with a wrong number of columns *)

Lemma take_coordinate_Some (val : Z) (b b' : Base) :
  take_coordinate val b = Some b' ->
  (b' = with_curBegPos (i32 val) b \/ b' = with_curEndPos (i32 val) b)
  /\ m_writeNullMetric b = false.
Proof.
  unfold take_coordinate.
  destruct (m_writeNullMetric b); [discriminate|]. cbn [negb andb].
  destruct (m_numValsProcessedForGroup1 b =? 0); [|discriminate].
  destruct (m_curBegPos b =? -1); [intros [= <-]; auto|].
  destruct (m_curEndPos b =? -1); [intros [= <-]; auto|discriminate].
Qed.

Lemma KLModel_processInputValue_total (val : Z) (m : KLModel.t) :
  counters_in_range (OfKL m) ->
  exists v m',
    KLModel.processInputValue val m = Ok (v, m')
    /\ written (KLModel.base m') = written (KLModel.base m)
    /\ match v with
       | Accepted => counters_in_range (OfKL m')
       | Reported e => exists n, e = ExcessColumns n
       end.
Proof.
  intros (H1 & H2 & HP1 & HP2 & Hn). unfold KLModel.processInputValue.
  destruct (take_coordinate val (KLModel.base m)) as [b'|] eqn:Hc.
  - apply take_coordinate_Some in Hc as [[-> | ->] _];
      (eexists; eexists; split; [reflexivity|]; split; [reflexivity|]);
      cbn; repeat split; try tauto; lia.
  - destruct (m_numValsProcessedForGroup1 (KLModel.base m) =? m_numStates (KLModel.base m)) eqn:E1.
    + destruct (m_group2size (KLModel.base m) =? 0) eqn:Eg.
      * eexists; eexists; split; [reflexivity|]; split; [reflexivity|]. eexists; reflexivity.
      * destruct (m_numValsProcessedForGroup2 (KLModel.base m) =? m_numStates (KLModel.base m))
          eqn:E2.
        -- eexists; eexists; split; [reflexivity|]; split; [reflexivity|]. eexists; reflexivity.
        -- apply Z.eqb_neq in Eg, E2. specialize (HP2 Eg).
           rewrite store_Ok by lia. cbn [bind].
           eexists; eexists; split; [reflexivity|]; split; [reflexivity|].
           cbn. rewrite replace_nth_length. rewrite u32_small by lia.
           repeat split; try tauto; try lia.
    + apply Z.eqb_neq in E1.
      rewrite store_Ok by lia. cbn [bind].
      eexists; eexists; split; [reflexivity|]; split; [reflexivity|].
      cbn. rewrite replace_nth_length. rewrite u32_small by lia.
      repeat split; try tauto; try lia.
Qed.

Lemma KLsModel_processInputValue_total (val : Z) (m : KLsModel.t) :
  counters_in_range (OfKLs m) ->
  exists v m',
    KLsModel.processInputValue val m = Ok (v, m')
    /\ written (KLsModel.base m') = written (KLsModel.base m)
    /\ match v with
       | Accepted => counters_in_range (OfKLs m')
       | Reported e => exists n, e = ExcessColumns n
       end.
Proof.
  intros (H1 & H2 & HP1 & HP2). unfold KLsModel.processInputValue.
  destruct (take_coordinate val (KLsModel.base m)) as [b'|] eqn:Hc.
  - apply take_coordinate_Some in Hc as [[-> | ->] _];
      (eexists; eexists; split; [reflexivity|]; split; [reflexivity|]);
      cbn; repeat split; try tauto; lia.
  - destruct (m_numValsProcessedForGroup1 (KLsModel.base m)
              =? Z.of_nat (List.length (KLsModel.m_Ps1numerators m))) eqn:E1.
    + destruct (m_numValsProcessedForGroup2 (KLsModel.base m)
                =? Z.of_nat (List.length (KLsModel.m_Ps2numerators m))) eqn:E2.
      * eexists; eexists; split; [reflexivity|]; split; [reflexivity|]. eexists; reflexivity.
      * apply Z.eqb_neq in E2.
        rewrite store_Ok by lia. cbn [bind].
        eexists; eexists; split; [reflexivity|]; split; [reflexivity|].
        cbn. rewrite replace_nth_length. rewrite u32_small by lia.
        repeat split; try tauto; try lia.
    + apply Z.eqb_neq in E1.
      rewrite store_Ok by lia. cbn [bind].
      eexists; eexists; split; [reflexivity|]; split; [reflexivity|].
      cbn. rewrite replace_nth_length. rewrite u32_small by lia.
      repeat split; try tauto; try lia.
Qed.

Lemma KLssModel_processInputValue_total (val : Z) (m : KLssModel.t) :
  counters_in_range (OfKLss m) ->
  exists v m',
    KLssModel.processInputValue val m = Ok (v, m')
    /\ written (KLssModel.base m') = written (KLssModel.base m)
    /\ match v with
       | Accepted => counters_in_range (OfKLss m')
       | Reported e => exists n, e = ExcessColumns n
       end.
Proof.
  intros Hn. cbn [counters_in_range] in Hn. unfold KLssModel.processInputValue.
  apply Z.eqb_neq in Hn as Hn'. rewrite Hn'.
  destruct (take_coordinate val (KLssModel.base m)) as [b'|] eqn:Hc.
  - apply take_coordinate_Some in Hc as [[-> | ->] _];
      (eexists; eexists; split; [reflexivity|]; split; [reflexivity|]); cbn; exact Hn.
  - destruct (_ && _).
    + eexists; eexists; split; [reflexivity|]; split; [reflexivity|]. eexists; reflexivity.
    + destruct (OrderedMap.find _ _) as [[g1 g2]|]; destruct (negb _);
        (eexists; eexists; split; [reflexivity|]; split; [reflexivity|]); cbn; exact Hn.
Qed.

Lemma processInputValue_total (val : Z) (M : model) :
  counters_in_range M ->
  exists v M',
    processInputValue val M = Ok (v, M')
    /\ written (members M') = written (members M)
    /\ match v with
       | Accepted => counters_in_range M'
       | Reported e => exists n, e = ExcessColumns n
       end.
Proof.
  intros H. destruct M as [m|m|m]; cbn [processInputValue AnyModel lift].
  - destruct (KLModel_processInputValue_total val m H) as (v & m' & -> & Hw & Hv).
    exists v, (OfKL m'); auto.
  - destruct (KLsModel_processInputValue_total val m H) as (v & m' & -> & Hw & Hv).
    exists v, (OfKLs m'); auto.
  - destruct (KLssModel_processInputValue_total val m H) as (v & m' & -> & Hw & Hv).
    exists v, (OfKLss m'); auto.
Qed.

(** The values of a line: all are taken and counted, or the model reports
    excess columns; nothing is written either way. *)
Lemma feed_total (tokens : list Z) (numColsProcessed linenum : Z) (M : model) :
  counters_in_range M ->
  0 <= numColsProcessed ->
  numColsProcessed + Z.of_nat (List.length tokens) < 2 ^ 32 ->
  exists v n M',
    feed tokens numColsProcessed linenum M = Ok (v, n, M')
    /\ written (members M') = written (members M)
    /\ match v with
       | Accepted => n = numColsProcessed + Z.of_nat (List.length tokens)
       | Reported e => is_column_count_error e
       end.
Proof.
  revert numColsProcessed M; induction tokens as [|token rest IH];
    intros n M Hinv Hn Hlen; cbn [feed].
  - exists Accepted, n, M. cbn [List.length]. repeat split; lia.
  - cbn [List.length] in Hlen.
    destruct (processInputValue_total (u32 token) M Hinv) as (v & M1 & -> & Hw & Hv).
    cbn [bind]. destruct v as [|e].
    + rewrite u32_small by lia.
      destruct (IH (n + 1) M1 Hv ltac:(lia) ltac:(lia)) as (v' & n' & M' & -> & Hw' & Hv').
      exists v', n', M'. split; [reflexivity|]. split; [congruence|].
      destruct v'; [cbn [List.length]; lia | exact Hv'].
    + destruct Hv as [k ->]. eexists; eexists; eexists.
      split; [reflexivity|]. split; [exact Hw|]. exact I.
Qed.

(** A line with at least one value and a number of values other than the
    expected one is rejected with a column-count error, and nothing is
    written for it. *)
Lemma process_line_wrong_count (numExpected linenum : Z) (tokens : list Z) (M : model) :
  counters_in_range M ->
  tokens <> [] ->
  Z.of_nat (List.length tokens) < 2 ^ 32 ->
  Z.of_nat (List.length tokens) <> numExpected ->
  exists e M',
    process_line numExpected linenum tokens M = Ok (Reported e, M')
    /\ is_column_count_error e
    /\ written (members M') = written (members M).
Proof.
  intros Hinv Hne Hlen Hcount. unfold process_line.
  destruct tokens as [|t ts]; [congruence|].
  destruct (feed_total (t :: ts) 0 linenum M Hinv ltac:(lia) ltac:(lia))
    as (v & n & M' & -> & Hw & Hv).
  cbn [bind]. destruct v as [|e].
  - replace (n =? numExpected) with false by (symmetry; apply Z.eqb_neq; lia).
    cbn [negb]. eexists; eexists; split; [reflexivity|]. split; [exact I | exact Hw].
  - eexists; eexists; split; [reflexivity|]. split; [exact Hv | exact Hw].
Qed.

Lemma process_lines_app (numExpected linenum : Z) (before after : list (list Z))
    (M M1 : model) :
  Z.of_nat (List.length before) + linenum < 2 ^ 32 -> 0 <= linenum ->
  process_lines numExpected linenum before M = Ok (Accepted, M1) ->
  process_lines numExpected linenum (before ++ after) M
  = process_lines numExpected (linenum + Z.of_nat (List.length before)) after M1.
Proof.
  revert linenum M; induction before as [|l ls IH]; intros linenum M Hlen H0 H.
  - cbn [process_lines] in H. injection H as <-.
    cbn [app List.length Z.of_nat]. now rewrite Z.add_0_r.
  - cbn [process_lines app] in *. cbn [List.length] in Hlen.
    destruct (process_line numExpected (u32 (linenum + 1)) l M) as [[v M2]|f];
      cbn [bind] in *; [|discriminate].
    destruct v; [|discriminate].
    rewrite u32_small in * by lia.
    rewrite IH by (try lia; exact H).
    f_equal. cbn [List.length]. lia.
Qed.


(** C5. A line without a value (a blank line) does not end
    [parseInputWriteOutput] with a column-count error: [strtok] returns the
    null pointer, which goes to [atoi] untested (lines 894-896), where the
    loop over the lines of a variant-3 background tests it first (lines
    600-605). *)
Theorem blank_line_reaches_atoi (before after : list (list Z)) (M M1 : model) :
  Z.of_nat (List.length before) < 2 ^ 32 - 1 ->
  parseInputWriteOutput before M = Ok (Accepted, M1) ->
  parseInputWriteOutput (before ++ [] :: after) M = Undefined NullToken.
Proof.
  intros Hlen Hbefore. unfold parseInputWriteOutput in *.
  rewrite (process_lines_app _ 0 before ([] :: after) M M1) by (try lia; exact Hbefore).
  reflexivity.
Qed.


(** The same run with a blank second line. *)
Lemma blank_line_reaches_atoi_witness :
  exists M M1,
    startup logf_sample measure_KL false String.EmptyString 5 [[4; 0; 6]] None
    = Ok (Accepted, M)
    /\ parseInputWriteOutput [[10; 20; 1; 1; 0]] M = Ok (Accepted, M1)
    /\ parseInputWriteOutput ([[10; 20; 1; 1; 0]] ++ [] :: []) M = Undefined NullToken.
Proof.
  eexists; eexists.
  split; [vm_compute; reflexivity|].
  split; [vm_compute; reflexivity|].
  eapply blank_line_reaches_atoi.
  - vm_compute; reflexivity.
  - vm_compute; reflexivity.
Defined.

(** ** Variants 1 and 2: the table of logarithms *)

Lemma to_unsigned_range (x : float) (n : Z) : to_unsigned x = Ok n -> 0 <= n < 2 ^ 32.
Proof.
  unfold to_unsigned. destruct x as [q| |]; try discriminate.
  destruct (_ && _) eqn:E; [|discriminate].
  intros [= <-]. apply andb_true_iff in E as [E1 E2].
  apply Z.leb_le in E1; apply Z.ltb_lt in E2; lia.
Qed.

Lemma push_logs_length (logf : float -> float) (lo hi : Z) (logs logs' : list float) :
  push_logs logf lo hi logs = Ok logs' ->
  hi <> 2 ^ 32 - 1
  /\ List.length logs' = (List.length logs + Z.to_nat (hi + 1 - lo))%nat.
Proof.
  unfold push_logs. destruct (hi =? 2 ^ 32 - 1) eqn:E; [discriminate|].
  apply Z.eqb_neq in E. intros [= <-]. split; [exact E|].
  now rewrite length_app, length_map, range_length.
Qed.

Lemma KLModel_getQcontrib_Accepted (logf : float -> float) (infile : list (list Z))
    (Nsites : Z) (m m' : KLModel.t) :
  KLModel.getQcontrib logf infile Nsites m = Ok (Accepted, m') ->
  exists g,
    0 <= g < 2 ^ 32
    /\ m_group1size (KLModel.base m')
       = (if m_group1size (KLModel.base m) =? 0 then g else m_group1size (KLModel.base m))
    /\ m_group2size (KLModel.base m')
       = (if m_group1size (KLModel.base m) =? 0 then m_group2size (KLModel.base m) else g)
    /\ grown (KLModel.m_logsOfObservationTallies m') (KLModel.m_logsOfObservationTallies m)
         (m_group2size (KLModel.base m'))
         (m_group1size (KLModel.base m')) (m_group2size (KLModel.base m')).
Proof.
  unfold KLModel.getQcontrib.
  destruct infile as [|[|t line] rest]; try discriminate.
  destruct (fold_left _ _ _) as [total contrib].
  destruct rest; [|discriminate].
  destruct (m_group1size (KLModel.base m) =? 0) eqn:G1; cbn [negb andb].
  - intros H. apply bind_Ok in H as (g & Hg & H). apply to_unsigned_range in Hg.
    apply bind_Ok in H as (logs' & Hlogs & H). injection H as <-. cbn in *.
    exists g. repeat split; try lia. unfold grown.
    destruct (m_group2size (KLModel.base m) =? 0).
    + apply push_logs_length in Hlogs as [Hhi Hlen]. split; [exact Hhi|].
      rewrite Hlen, length_app. cbn [List.length]. lia.
    + destruct (_ <? _).
      * apply push_logs_length in Hlogs as [Hhi Hlen]. auto.
      * congruence.
  - destruct (negb _); [discriminate|].
    intros H. apply bind_Ok in H as (g & Hg & H). apply to_unsigned_range in Hg.
    apply bind_Ok in H as (logs' & Hlogs & H). injection H as <-. cbn in *.
    exists g. repeat split; try lia. unfold grown.
    destruct (g =? 0).
    + apply push_logs_length in Hlogs as [Hhi Hlen]. split; [exact Hhi|].
      rewrite Hlen, length_app. cbn [List.length]. lia.
    + destruct (_ <? _).
      * apply push_logs_length in Hlogs as [Hhi Hlen]. auto.
      * congruence.
Qed.

Lemma KLsModel_getQcontrib_Accepted (logf : float -> float) (infile : list (list Z))
    (Nsites : Z) (m m' : KLsModel.t) :
  KLsModel.getQcontrib logf infile Nsites m = Ok (Accepted, m') ->
  exists g,
    0 <= g < 2 ^ 32
    /\ m_group1size (KLsModel.base m')
       = (if m_group1size (KLsModel.base m) =? 0 then g else m_group1size (KLsModel.base m))
    /\ m_group2size (KLsModel.base m')
       = (if m_group1size (KLsModel.base m) =? 0 then m_group2size (KLsModel.base m) else g)
    /\ grown (KLsModel.m_logsOfObservationTallies m') (KLsModel.m_logsOfObservationTallies m)
         (m_group2size (KLsModel.base m'))
         (KLsModel.pairs_of (m_group1size (KLsModel.base m')))
         (KLsModel.pairs_of (m_group2size (KLsModel.base m'))).
Proof.
  unfold KLsModel.getQcontrib.
  destruct infile as [|[|t line] rest]; try discriminate.
  destruct (fold_left _ _ _) as [total contrib].
  destruct rest; [|discriminate].
  intros H. apply bind_Ok in H as (n & Hn & H). revert H.
  destruct (m_group1size (KLsModel.base m) =? 0) eqn:G1; cbn [negb andb].
  - intros H. apply bind_Ok in H as (g & Hg & H). apply to_unsigned_range in Hg.
    apply bind_Ok in H as (logs' & Hlogs & H).
    apply bind_Ok in H as (table & Htable & H). injection H as <-. cbn in *.
    exists g. repeat split; try lia. unfold grown.
    destruct (m_group2size (KLsModel.base m) =? 0).
    + apply push_logs_length in Hlogs as [Hhi Hlen]. split; [exact Hhi|].
      rewrite Hlen, length_app. cbn [List.length]. lia.
    + destruct (_ <? _).
      * apply push_logs_length in Hlogs as [Hhi Hlen]. auto.
      * congruence.
  - destruct (negb _); [discriminate|].
    intros H. apply bind_Ok in H as (g & Hg & H). apply to_unsigned_range in Hg.
    apply bind_Ok in H as (logs' & Hlogs & H).
    apply bind_Ok in H as (table & Htable & H). injection H as <-. cbn in *.
    exists g. repeat split; try lia. unfold grown.
    destruct (g =? 0).
    + apply push_logs_length in Hlogs as [Hhi Hlen]. split; [exact Hhi|].
      rewrite Hlen, length_app. cbn [List.length]. lia.
    + destruct (_ <? _).
      * apply push_logs_length in Hlogs as [Hhi Hlen]. auto.
      * congruence.
Qed.

Lemma grown_first (logs' : list float) (top1 top2 : Z) :
  0 <= top1 ->
  grown logs' [] 0 top1 top2 ->
  top1 <> 2 ^ 32 - 1 /\ Z.of_nat (List.length logs') = 1 + top1.
Proof.
  unfold grown. cbn [Z.eqb List.length]. intros H0 [H1 H2]. split; [exact H1|].
  rewrite H2. lia.
Qed.

Lemma grown_second (logs'' logs' : list float) (group2size top1 top2 : Z) :
  group2size <> 0 ->
  Z.of_nat (List.length logs') = 1 + top1 ->
  0 <= top1 < 2 ^ 32 - 1 ->
  0 <= top2 ->
  grown logs'' logs' group2size top1 top2 ->
  Z.of_nat (List.length logs'') = 1 + Z.max top1 top2.
Proof.
  intros Hg Hlen H1 H2. unfold grown.
  apply Z.eqb_neq in Hg; rewrite Hg. rewrite Hlen.
  replace (1 + top1 - 1) with top1 by lia.
  unfold u64. rewrite Z.mod_small by lia.
  rewrite (u32_small (1 + top1)) by lia.
  destruct (top1 <? top2) eqn:E.
  - apply Z.ltb_lt in E. intros [_ H]. rewrite H. lia.
  - apply Z.ltb_ge in E. intros ->. lia.
Qed.

Lemma pairs_of_range (g : Z) : 0 <= KLsModel.pairs_of g < 2 ^ 32 - 1.
Proof.
  unfold KLsModel.pairs_of. pose proof (u32_range (g * u32 (g - 1))) as H.
  pose proof (Z.div_pos (u32 (g * u32 (g - 1))) 2 ltac:(lia) ltac:(lia)).
  assert (u32 (g * u32 (g - 1)) / 2 < 2 ^ 31) by (apply Z.div_lt_upper_bound; lia).
  lia.
Qed.

(** The size of the table once [main] has loaded the backgrounds. *)
Lemma log_table_size (logf : float -> float) (kind : measurementType) (nulls : bool)
    (chrom : string) (Nsites : Z) (infileQ1 : list (list Z))
    (infileQ2 : option (list (list Z))) (M : model) :
  kind <> measure_KLss ->
  startup logf kind nulls chrom Nsites infileQ1 infileQ2 = Ok (Accepted, M) ->
  m_group1size (members M) <> 0 ->
  (infileQ2 <> None -> m_group2size (members M) <> 0) ->
  Z.of_nat (List.length (logs_of M))
  = 1 + Z.max (tally_bound kind (m_group1size (members M)))
              (tally_bound kind (m_group2size (members M))).
Proof.
  intros Hkind H Hg1 Hg2. unfold startup in H.
  apply bind_Ok in H as ([v M1] & H1 & H).
  destruct kind; [| |congruence]; cbn [getQcontrib lift] in H1.
  - (* variant 1 *)
    apply bind_Ok in H1 as ([v1 m1] & Hq1 & H1). cbn [fst snd] in H1.
    injection H1 as <- <-.
    destruct v1 as [|e].
    + apply KLModel_getQcontrib_Accepted in Hq1 as (g & Hg & Hs1 & Hs2 & Hgrow).
      cbn [KLModel.create KLModel.base KLModel.m_logsOfObservationTallies] in Hs1, Hs2, Hgrow.
      replace (m_group1size (if nulls then _ else _)) with 0 in Hs1, Hs2
        by (destruct nulls; reflexivity).
      replace (m_group2size (if nulls then _ else _)) with 0 in Hs2
        by (destruct nulls; reflexivity).
      cbn [Z.eqb] in Hs1, Hs2. rewrite Hs1, Hs2 in Hgrow.
      apply grown_first in Hgrow as [Hne Hlen]; [|lia].
      destruct infileQ2 as [infile|].
      * cbn [getQcontrib lift] in H.
        apply bind_Ok in H as ([v2 m2] & Hq2 & H). cbn [fst snd] in H.
        injection H as -> <-.
        apply KLModel_getQcontrib_Accepted in Hq2 as (g' & Hg' & Ht1 & Ht2 & Hgrow2).
        cbn [members AnyModel logs_of tally_bound] in *.
        rewrite ?Hs1, ?Hs2 in Ht1, Ht2.
        destruct (g =? 0) eqn:E.
        -- exfalso. apply Hg2; [discriminate | congruence].
        -- assert (Hne2 : m_group2size (KLModel.base m2) <> 0) by (apply Hg2; discriminate).
           rewrite Ht1, Ht2 in *.
           eapply grown_second; eauto; lia.
      * injection H as <-. cbn [members AnyModel logs_of tally_bound].
        rewrite Hs1, Hs2, Hlen. lia.
    + destruct infileQ2; discriminate.
  - (* variant 2 *)
    apply bind_Ok in H1 as ([v1 m1] & Hq1 & H1). cbn [fst snd] in H1.
    injection H1 as <- <-.
    destruct v1 as [|e].
    + apply KLsModel_getQcontrib_Accepted in Hq1 as (g & Hg & Hs1 & Hs2 & Hgrow).
      cbn [KLsModel.create KLsModel.base KLsModel.m_logsOfObservationTallies] in Hs1, Hs2, Hgrow.
      replace (m_group1size (if nulls then _ else _)) with 0 in Hs1, Hs2
        by (destruct nulls; reflexivity).
      replace (m_group2size (if nulls then _ else _)) with 0 in Hs2
        by (destruct nulls; reflexivity).
      cbn [Z.eqb] in Hs1, Hs2. rewrite Hs1, Hs2 in Hgrow.
      pose proof (pairs_of_range g) as Hp.
      apply grown_first in Hgrow as [Hne Hlen]; [|lia].
      destruct infileQ2 as [infile|].
      * cbn [getQcontrib lift] in H.
        apply bind_Ok in H as ([v2 m2] & Hq2 & H). cbn [fst snd] in H.
        injection H as -> <-.
        apply KLsModel_getQcontrib_Accepted in Hq2 as (g' & Hg' & Ht1 & Ht2 & Hgrow2).
        cbn [members AnyModel logs_of tally_bound] in *.
        rewrite ?Hs1, ?Hs2 in Ht1, Ht2.
        destruct (g =? 0) eqn:E.
        -- exfalso. apply Hg2; [discriminate | congruence].
        -- assert (Hne2 : m_group2size (KLsModel.base m2) <> 0) by (apply Hg2; discriminate).
           rewrite Ht1, Ht2 in *.
           pose proof (pairs_of_range g').
           eapply grown_second; eauto; lia.
      * injection H as <-. cbn [members AnyModel logs_of tally_bound].
        rewrite Hs1, Hs2, Hlen. change (KLsModel.pairs_of 0) with 0. lia.
    + destruct infileQ2; discriminate.
Qed.

(** No count within the table makes [term] read past its end. *)
Lemma term_reads_within (denom1 denom2 : float) (group2size : Z) (P1 P2 : list Z)
    (Q1 Q2 logs : list float) (i k : Z) :
  (forall n, at_ P1numerators P1 i = Ok n -> 0 <= n < Z.of_nat (List.length logs)) ->
  (forall n, at_ P2numerators P2 i = Ok n -> 0 <= n < Z.of_nat (List.length logs)) ->
  term denom1 denom2 group2size P1 P2 Q1 Q2 logs i
  <> Undefined (OutOfRange LogsOfObservationTallies k).
Proof.
  intros H1 H2. unfold term, group1_term.
  destruct (at_ P1numerators P1 i) as [n|f] eqn:E1; cbn [bind].
  2:{ unfold at_ in E1. destruct (_ && _); [destruct (nth_error _ _)|]; congruence. }
  assert (Hstep : forall t : outcome float,
            t <> Undefined (OutOfRange LogsOfObservationTallies k) ->
            (forall t1, t = Ok t1 ->
               (if group2size =? 0 then Ok t1
                else n2 <- at_ P2numerators P2 i ;;
                     if n2 =? 0 then Ok t1
                     else q <- at_ Q2contrib Q2 i ;;
                          if IEEE.ltb (to_double q) sentinel_bound then Ok (fneg q)
                          else l <- at_ LogsOfObservationTallies logs n2 ;;
                               Ok (fsub t1 (fmul (fdiv (float_of n2) denom2) (fadd l q))))
               <> Undefined (OutOfRange LogsOfObservationTallies k)) ->
            bind t (fun t1 =>
               if group2size =? 0 then Ok t1
               else n2 <- at_ P2numerators P2 i ;;
                    if n2 =? 0 then Ok t1
                    else q <- at_ Q2contrib Q2 i ;;
                         if IEEE.ltb (to_double q) sentinel_bound then Ok (fneg q)
                         else l <- at_ LogsOfObservationTallies logs n2 ;;
                              Ok (fsub t1 (fmul (fdiv (float_of n2) denom2) (fadd l q))))
            <> Undefined (OutOfRange LogsOfObservationTallies k)).
  { intros [t1|f] Ht Hk; cbn [bind]; auto. }
  apply Hstep.
  - destruct (n =? 0); [discriminate|].
    destruct (at_ Q1contrib Q1 i) as [q|f] eqn:EQ; cbn [bind].
    2:{ unfold at_ in EQ. destruct (_ && _); [destruct (nth_error _ _)|]; congruence. }
    destruct (IEEE.ltb _ _); [discriminate|].
    destruct (at_in_range LogsOfObservationTallies logs n (H1 n eq_refl)) as [l ->].
    discriminate.
  - intros t1 _. destruct (group2size =? 0); [discriminate|].
    destruct (at_ P2numerators P2 i) as [n2|f] eqn:E2; cbn [bind].
    2:{ unfold at_ in E2. destruct (_ && _); [destruct (nth_error _ _)|]; congruence. }
    destruct (n2 =? 0); [discriminate|].
    destruct (at_ Q2contrib Q2 i) as [q|f] eqn:EQ; cbn [bind].
    2:{ unfold at_ in EQ. destruct (_ && _); [destruct (nth_error _ _)|]; congruence. }
    destruct (IEEE.ltb _ _); [discriminate|].
    destruct (at_in_range LogsOfObservationTallies logs n2 (H2 n2 eq_refl)) as [l ->].
    discriminate.
Qed.

(** A nonzero group-1 count past the table, at an identifier whose
    background contribution is not below the sentinel bound, makes [term]
    read past the end of the table. *)
Lemma term_reads_past_end_group1 (denom1 denom2 : float) (group2size : Z) (P1 P2 : list Z)
    (Q1 Q2 logs : list float) (i n : Z) (q : float) :
  at_ P1numerators P1 i = Ok n ->
  n <> 0 ->
  Z.of_nat (List.length logs) <= n ->
  at_ Q1contrib Q1 i = Ok q ->
  IEEE.ltb (to_double q) sentinel_bound = false ->
  term denom1 denom2 group2size P1 P2 Q1 Q2 logs i
  = Undefined (OutOfRange LogsOfObservationTallies n).
Proof.
  intros HP Hn0 Hn HQ Hs. unfold term, group1_term. rewrite HP; cbn [bind].
  replace (n =? 0) with false by (symmetry; apply Z.eqb_neq; lia).
  rewrite HQ; cbn [bind]. rewrite Hs.
  rewrite at_out_of_range by lia. reflexivity.
Qed.

Lemma term_reads_past_end_group2 (denom1 denom2 : float) (group2size : Z) (P1 P2 : list Z)
    (Q1 Q2 logs : list float) (i n : Z) (q t1 : float) :
  group1_term denom1 P1 Q1 logs i = Ok t1 ->
  group2size <> 0 ->
  at_ P2numerators P2 i = Ok n ->
  n <> 0 ->
  Z.of_nat (List.length logs) <= n ->
  at_ Q2contrib Q2 i = Ok q ->
  IEEE.ltb (to_double q) sentinel_bound = false ->
  term denom1 denom2 group2size P1 P2 Q1 Q2 logs i
  = Undefined (OutOfRange LogsOfObservationTallies n).
Proof.
  intros H1 Hg HP Hn0 Hn HQ Hs. unfold term. rewrite H1; cbn [bind].
  apply Z.eqb_neq in Hg; rewrite Hg. rewrite HP; cbn [bind].
  replace (n =? 0) with false by (symmetry; apply Z.eqb_neq; lia).
  rewrite HQ; cbn [bind]. rewrite Hs.
  rewrite at_out_of_range by lia. reflexivity.
Qed.

(** C10. In variants 1 and 2, once [main] has loaded the
    backgrounds of one or two groups (of sizes other than zero), the table
    of logarithms covers the indices 0 .. top, where top is the greater of
    the two groups' greatest possible counts ([g] for variant 1, [g(g-1)/2]
    for variant 2).  Whatever counts a segment holds (no code checks them),
    the term of an identifier reads the table within its bounds when its
    counts are at most their own group's greatest possible count; and a
    nonzero group-1 count, or with a second group a nonzero group-2 count,
    that is greater than top, at an identifier whose background contribution is not below
    the sentinel bound, reads past the end of the table. *)
Theorem log_table_access (logf : float -> float) (kind : measurementType) (nulls : bool)
    (chrom : string) (Nsites : Z) (infileQ1 : list (list Z))
    (infileQ2 : option (list (list Z))) (M : model) :
  kind <> measure_KLss ->
  startup logf kind nulls chrom Nsites infileQ1 infileQ2 = Ok (Accepted, M) ->
  m_group1size (members M) <> 0 ->
  (infileQ2 <> None -> m_group2size (members M) <> 0) ->
  let top1 := tally_bound kind (m_group1size (members M)) in
  let top2 := tally_bound kind (m_group2size (members M)) in
  Z.of_nat (List.length (logs_of M)) = Z.max top1 top2 + 1
  /\ (forall denom1 denom2 group2size P1 P2 Q1 Q2 i k,
        (forall n, at_ P1numerators P1 i = Ok n -> 0 <= n <= top1) ->
        (forall n, at_ P2numerators P2 i = Ok n -> 0 <= n <= top2) ->
        term denom1 denom2 group2size P1 P2 Q1 Q2 (logs_of M) i
        <> Undefined (OutOfRange LogsOfObservationTallies k))
  /\ (forall denom1 denom2 group2size P1 P2 Q1 Q2 i n q,
        at_ P1numerators P1 i = Ok n -> n <> 0 -> Z.max top1 top2 < n ->
        at_ Q1contrib Q1 i = Ok q -> IEEE.ltb (to_double q) sentinel_bound = false ->
        term denom1 denom2 group2size P1 P2 Q1 Q2 (logs_of M) i
        = Undefined (OutOfRange LogsOfObservationTallies n))
  /\ (forall denom1 denom2 group2size P1 P2 Q1 Q2 i n q t1,
        group1_term denom1 P1 Q1 (logs_of M) i = Ok t1 -> group2size <> 0 ->
        at_ P2numerators P2 i = Ok n -> n <> 0 -> Z.max top1 top2 < n ->
        at_ Q2contrib Q2 i = Ok q -> IEEE.ltb (to_double q) sentinel_bound = false ->
        term denom1 denom2 group2size P1 P2 Q1 Q2 (logs_of M) i
        = Undefined (OutOfRange LogsOfObservationTallies n)).
Proof.
  intros Hkind Hstart Hg1 Hg2; cbv zeta.
  pose proof (log_table_size logf kind nulls chrom Nsites infileQ1 infileQ2 M
                Hkind Hstart Hg1 Hg2) as Hlen.
  split; [lia|]. split; [|split].
  - intros denom1 denom2 group2size P1 P2 Q1 Q2 i k H1 H2.
    apply term_reads_within; intros n Hn; [specialize (H1 n Hn) | specialize (H2 n Hn)]; lia.
  - intros denom1 denom2 group2size P1 P2 Q1 Q2 i n q HP Hn0 Hn HQ Hs.
    eapply term_reads_past_end_group1; eauto. lia.
  - intros denom1 denom2 group2size P1 P2 Q1 Q2 i n q t1 H1 Hg HP Hn0 Hn HQ Hs.
    eapply term_reads_past_end_group2; eauto. lia.
Qed.

(** Variant 1 with groups of one and of two epigenomes (backgrounds [2 3]
    and [4 6] of 5 sites): the table holds the logarithms of 0, 1 and 2. *)
Lemma log_table_access_witness :
  exists M,
    startup logf_sample measure_KL false String.EmptyString 5 [[2; 3]] (Some [[4; 6]])
    = Ok (Accepted, M)
    /\ (m_group1size (members M) = 1 /\ m_group2size (members M) = 2)
    /\ Z.of_nat (List.length (logs_of M))
       = Z.max (tally_bound measure_KL (m_group1size (members M)))
               (tally_bound measure_KL (m_group2size (members M))) + 1.
Proof.
  eexists. split; [vm_compute; reflexivity|].
  split; [split; reflexivity|].
  refine (proj1 (log_table_access logf_sample measure_KL false String.EmptyString 5
                   [[2; 3]] (Some [[4; 6]]) _ _ _ _ _)).
  - discriminate.
  - vm_compute; reflexivity.
  - vm_compute; discriminate.
  - intros _; vm_compute; discriminate.
Defined.

(** In that model the segment [2 0 | 1 1] holds the
    group-1 count 2, greater than the greatest possible count 1 of group 1,
    at a state whose background contribution is not the sentinel, and its
    evaluation reads the table within its bounds and ends. *)
Lemma count_above_own_group_is_within_table :
  exists m total,
    (r <- startup logf_sample measure_KL false String.EmptyString 5 [[2; 3]] (Some [[4; 6]]) ;;
     after_values [10; 20; 2; 0; 1; 1] (snd r)) = Ok (OfKL m)
    /\ at_ P1numerators (KLModel.m_P1numerators m) 0 = Ok 2
    /\ tally_bound measure_KL (m_group1size (KLModel.base m)) = 1
    /\ (exists q, at_ Q1contrib (KLModel.m_Q1contrib m) 0 = Ok q
                  /\ IEEE.ltb (to_double q) sentinel_bound = false)
    /\ total_of (OfKL m) = Ok total.
Proof.
  eexists; eexists. split; [vm_compute; reflexivity|].
  split; [vm_compute; reflexivity|].
  split; [vm_compute; reflexivity|].
  split; [eexists; split; [vm_compute; reflexivity | vm_compute; reflexivity]|].
  vm_compute; reflexivity.
Qed.

(** ** Variant 2: the decomposition table *)

Lemma foldM_ext {A B : Type} (body body' : A -> B -> outcome A) (l : list B) (a : A) :
  (forall b a, In b l -> body a b = body' a b) ->
  foldM body l a = foldM body' l a.
Proof.
  revert a; induction l as [|b l IH]; intros a H; cbn [foldM]; auto.
  rewrite (H b a (or_introl eq_refl)).
  destruct (body' a b); cbn [bind]; auto.
  apply IH. intros; apply H; now right.
Qed.

(** A loop that stores [f d] at the index [g d] for each [d] of a list
    leaves [f d] at [g d] when the indices are distinct and within the
    vector, and keeps the other entries. *)
Lemma foldM_store {A : Type} (c : container) (f : Z -> A) (g : Z -> Z) (l : list Z)
    (v : list A) :
  (forall d, In d l -> 0 <= g d < Z.of_nat (List.length v)) ->
  NoDup (map g l) ->
  exists v',
    foldM (fun t d => store c t (g d) (f d)) l v = Ok v'
    /\ List.length v' = List.length v
    /\ (forall d, In d l -> nth_error v' (Z.to_nat (g d)) = Some (f d))
    /\ (forall k : nat, (forall d, In d l -> Z.to_nat (g d) <> k) ->
          nth_error v' k = nth_error v k).
Proof.
  revert v; induction l as [|d l IH]; intros v Hrange Hnodup; cbn [foldM].
  - exists v. repeat split; auto. intros d [].
  - cbn [map] in Hnodup. apply NoDup_cons_iff in Hnodup as [Hnotin Hnodup].
    pose proof (Hrange d (or_introl eq_refl)) as Hd.
    rewrite store_Ok by exact Hd. cbn [bind].
    destruct (IH (replace_nth (Z.to_nat (g d)) (f d) v)) as (v' & Hfold & Hlen & Hin & Hout).
    + intros d' Hd'. rewrite replace_nth_length. apply Hrange; now right.
    + exact Hnodup.
    + exists v'. split; [exact Hfold|]. split; [now rewrite Hlen, replace_nth_length|].
      split.
      * intros d' [<-|Hd']; [|now apply Hin].
        rewrite Hout.
        -- apply nth_error_replace_nth_eq. lia.
        -- intros d'' Hd'' E.
           pose proof (Hrange d'' (or_intror Hd'')).
           apply Hnotin. apply in_map_iff. exists d''. split; [lia | exact Hd''].
      * intros k Hk.
        rewrite Hout by (intros d' Hd'; apply Hk; now right).
        apply nth_error_replace_nth_neq. apply Hk; now left.
Qed.

Lemma triangular_double (n : Z) : 2 * triangular n = n * (n + 1).
Proof.
  unfold triangular.
  assert (H : (n * (n + 1)) mod 2 = 0).
  { rewrite Z.mul_mod by lia.
    pose proof (Z.mod_pos_bound n 2 ltac:(lia)) as Hn.
    assert (Hcases : n mod 2 = 0 \/ n mod 2 = 1) by lia.
    rewrite (Z.add_mod n 1) by lia.
    destruct Hcases as [-> | ->]; reflexivity. }
  pose proof (Z.div_mod (n * (n + 1)) 2 ltac:(lia)). lia.
Qed.

Lemma delta_rows_are_exact : forallb delta_row_is_exact (range 0 4949) = true.
Proof. vm_compute. reflexivity. Qed.

Lemma delta_row_exact (delta : Z) :
  0 <= delta <= 4949 ->
  exists r, KLsModel.delta_row_of delta = Ok r
            /\ 0 <= r /\ triangular r <= delta < triangular (r + 1).
Proof.
  intros H. pose proof delta_rows_are_exact as Hall.
  rewrite forallb_forall in Hall. specialize (Hall delta (proj2 (in_range 0 4949 delta) H)).
  unfold delta_row_is_exact in Hall.
  destruct (KLsModel.delta_row_of delta) as [r|]; [|discriminate].
  apply andb_true_iff in Hall as [Hall H3]. apply andb_true_iff in Hall as [H1 H2].
  apply Z.leb_le in H1, H2. apply Z.ltb_lt in H3.
  exists r. split; [reflexivity|]. split; [exact H1|].
  pose proof (triangular_double r). pose proof (triangular_double (r + 1)).
  replace (r + 1 + 1) with (r + 2) in * by lia. lia.
Qed.


Lemma triangular_row_unique (delta r r' : Z) :
  0 <= r -> 0 <= r' ->
  triangular r <= delta < triangular (r + 1) ->
  triangular r' <= delta < triangular (r' + 1) ->
  r = r'.
Proof.
  intros Hr Hr' H H'.
  pose proof (triangular_double r). pose proof (triangular_double (r + 1)).
  pose proof (triangular_double r'). pose proof (triangular_double (r' + 1)).
  nia.
Qed.

Lemma exact_row_spec (delta : Z) :
  0 <= delta <= 4949 ->
  KLsModel.delta_row_of delta = Ok (exact_row delta)
  /\ 0 <= exact_row delta
  /\ triangular (exact_row delta) <= delta < triangular (exact_row delta + 1).
Proof.
  intros H. destruct (delta_row_exact delta H) as (r & Hr & H0 & Hb).
  unfold exact_row. rewrite Hr. auto.
Qed.

Lemma exact_row_at (r c : Z) :
  0 <= r -> 0 <= c <= r -> triangular r + c <= 4949 ->
  exact_row (triangular r + c) = r.
Proof.
  intros Hr Hc Hb.
  pose proof (triangular_double r) as HT. pose proof (triangular_double (r + 1)) as HT1.
  assert (Hrange : 0 <= triangular r + c <= 4949) by nia.
  destruct (exact_row_spec (triangular r + c) Hrange) as (_ & H0 & H1).
  apply (triangular_row_unique (triangular r + c)); first [lia | nia].
Qed.

Lemma exact_row_small : exact_row 0 = 0 /\ exact_row 1 = 1 /\ exact_row 2 = 1.
Proof. vm_compute. auto. Qed.

Lemma NoDup_map_injective {A B : Type} (f : A -> B) (l : list A) :
  (forall a b, f a = f b -> a = b) -> NoDup l -> NoDup (map f l).
Proof.
  intros Hinj H; induction H as [|a l Hnotin Hl IH]; cbn [map]; constructor; auto.
  intros Hin. apply in_map_iff in Hin as (b & Hb & Hbl).
  apply Hinj in Hb; subst b. contradiction.
Qed.

Lemma NoDup_range (lo hi : Z) : NoDup (range lo hi).
Proof.
  unfold range. apply NoDup_map_injective; [|apply seq_NoDup].
  intros a b H; lia.
Qed.

(** Within the range of the check, a turn of the loop of lines 431-447
    stores the pair of the exact row at [maxUniqueStatePairID - delta]. *)
Lemma decomposition_step_exact (numStates delta : Z) (table : list (Z * Z)) :
  1 <= numStates <= 99 ->
  0 <= delta <= triangular numStates - 1 ->
  KLsModel.decomposition_step numStates (triangular numStates - 1) table delta
  = store StatePairDecompositions table (triangular numStates - 1 - delta)
      (decomposition_of numStates delta).
Proof.
  intros Hn Hd.
  pose proof (triangular_double numStates) as HT.
  assert (Hmax : triangular numStates <= 4950) by nia.
  assert (Hrange : 0 <= delta <= 4949) by lia.
  destruct (exact_row_spec delta Hrange) as (Hrow & Hr0 & Hr).
  pose proof (triangular_double (exact_row delta)) as HTr.
  pose proof (triangular_double (exact_row delta + 1)) as HTr1.
  assert (Hrn : exact_row delta < numStates) by nia.
  assert (Hcol : (if delta <=? 2 then (if delta =? 2 then 1 else 0)
                  else u32 (delta - u32 (exact_row delta * u32 (exact_row delta + 1)) / 2))
                 = delta - triangular (exact_row delta)).
  { destruct (delta <=? 2) eqn:E.
    - apply Z.leb_le in E.
      assert (Hcases : delta = 0 \/ delta = 1 \/ delta = 2) by lia.
      destruct Hcases as [->|[->| ->]].
      + rewrite (proj1 exact_row_small). reflexivity.
      + rewrite (proj1 (proj2 exact_row_small)). reflexivity.
      + rewrite (proj2 (proj2 exact_row_small)). reflexivity.
    - rewrite (u32_small (exact_row delta + 1)) by lia.
      rewrite (u32_small (exact_row delta * (exact_row delta + 1))) by nia.
      fold (triangular (exact_row delta)).
      rewrite u32_small by lia. reflexivity. }
  unfold KLsModel.decomposition_step, decomposition_of. rewrite Hrow; cbn [bind].
  rewrite Hcol.
  rewrite (u32_small (triangular numStates - 1 - delta)) by lia.
  rewrite (u32_small (numStates - exact_row delta)) by lia.
  rewrite u32_small by lia. reflexivity.
Qed.

(** The table of [numStates] states, entry by entry. *)
Lemma decompositions_exact (numStates : Z) :
  1 <= numStates <= 99 ->
  exists table,
    KLsModel.decompositions numStates = Ok table
    /\ Z.of_nat (List.length table) = triangular numStates
    /\ forall id, 0 <= id < triangular numStates ->
         nth_error table (Z.to_nat id)
         = Some (decomposition_of numStates (triangular numStates - 1 - id)).
Proof.
  intros Hn.
  pose proof (triangular_double numStates) as HT.
  assert (Hmax : 1 <= triangular numStates <= 4950) by nia.
  unfold KLsModel.decompositions.
  rewrite (u32_small (numStates + 1)) by lia.
  rewrite (u32_small (numStates * (numStates + 1))) by nia.
  fold (triangular numStates).
  rewrite (u32_small (triangular numStates - 1)) by lia.
  replace (triangular numStates - 1 =? 2 ^ 32 - 1) with false
    by (symmetry; apply Z.eqb_neq; lia).
  replace (triangular numStates - 1 + 1) with (triangular numStates) by lia.
  rewrite (u32_small (triangular numStates)) by lia.
  rewrite (foldM_ext _
             (fun t d => store StatePairDecompositions t (triangular numStates - 1 - d)
                           (decomposition_of numStates d))).
  2:{ intros d t Hd. apply in_range in Hd. apply decomposition_step_exact; lia. }
  destruct (foldM_store StatePairDecompositions (decomposition_of numStates)
              (fun d => triangular numStates - 1 - d)
              (range 0 (triangular numStates - 1))
              (assign (Z.to_nat (triangular numStates)) (0, 0)))
    as (table & Hfold & Hlen & Hin & _).
  - intros d Hd. apply in_range in Hd. unfold assign. rewrite repeat_length. lia.
  - apply NoDup_map_injective; [|apply NoDup_range]. intros a b H; lia.
  - exists table. split; [exact Hfold|]. split.
    + rewrite Hlen. unfold assign. rewrite repeat_length. lia.
    + intros id Hid.
      specialize (Hin (triangular numStates - 1 - id)).
      replace (triangular numStates - 1 - (triangular numStates - 1 - id)) with id in Hin
        by lia.
      apply Hin. apply in_range. lia.
Qed.




(** Where the bound of 99 states comes from: the tolerance 0.01 added
    before [floor] puts [delta] = 5049 in row 100 rather than 99. *)
Lemma delta_row_overshoots_at_5049 :
  KLsModel.delta_row_of 5049 = Ok 100
  /\ triangular 99 <= 5049 < triangular 100.
Proof. vm_compute. repeat split; discriminate. Qed.

(** ** Null mode and non-null mode compute the same total *)

Lemma OrderedMap_insert_In {V : Type} (k : Z) (v : V) (m : OrderedMap.t V) :
  In (k, v) (OrderedMap.insert k v m).
Proof.
  induction m as [|[k' v'] m IH]; cbn [OrderedMap.insert]; [now left|].
  destruct (k <? k'); [now left|]. destruct (k =? k'); [now left|]. now right.
Qed.

Lemma OrderedMap_insert_inv {V : Type} (k k' : Z) (v v' : V) (m : OrderedMap.t V) :
  In (k', v') (OrderedMap.insert k v m) -> (k' = k /\ v' = v) \/ In (k', v') m.
Proof.
  induction m as [|[k0 v0] m IH]; cbn [OrderedMap.insert].
  - intros [[= <- <-]|[]]; auto.
  - destruct (k <? k0).
    + intros [[= <- <-]|H]; auto.
    + destruct (k =? k0).
      * intros [[= <- <-]|H]; auto. right; now right.
      * intros [H|H]; [right; now left|].
        destruct (IH H) as [E|E]; auto. right; now right.
Qed.

Lemma OrderedMap_find_keys {V : Type} (k : Z) (v : V) (m : OrderedMap.t V) :
  OrderedMap.find k m = Some v -> In k (OrderedMap.keys m).
Proof.
  induction m as [|[k' v'] m IH]; cbn [OrderedMap.find OrderedMap.keys map fst];
    [discriminate|].
  destruct (k =? k') eqn:E; [apply Z.eqb_eq in E; now left | right; now apply IH].
Qed.

Lemma OrderedSet_insert_nonempty (k : Z) (s : OrderedSet.t) : OrderedSet.insert k s <> [].
Proof.
  destruct s as [|k' s]; cbn [OrderedSet.insert]; [discriminate|].
  destruct (k <? k'); [discriminate|]. destruct (k =? k'); discriminate.
Qed.

Lemma record_pair_holds (statePairID k : Z) (obs : KLssModel.observations) :
  exists epigenomePairs,
    In (statePairID, epigenomePairs) (KLssModel.record_pair statePairID k obs)
    /\ epigenomePairs <> [].
Proof.
  unfold KLssModel.record_pair.
  destruct (OrderedMap.find statePairID obs) as [s|];
    eexists; (split; [apply OrderedMap_insert_In | apply OrderedSet_insert_nonempty]).
Qed.

(** A value taken by [KLssModel::processInputValue] keeps every group
    holding a pair of its own. *)
Lemma KLssModel_processInputValue_groups (val : Z) (m m' : KLssModel.t) (v : verdict) :
  groups_hold_their_pairs m ->
  KLssModel.processInputValue val m = Ok (v, m') ->
  groups_hold_their_pairs m'.
Proof.
  intros Hinv. unfold KLssModel.processInputValue.
  destruct (m_numStates (KLssModel.base m) =? 0); [discriminate|].
  destruct (take_coordinate val (KLssModel.base m)) as [b'|] eqn:Hc.
  - intros [= <- <-]. apply take_coordinate_Some in Hc as [[-> | ->] _]; exact Hinv.
  - destruct (_ && _); [intros [= <- <-]; exact Hinv|].
    destruct (OrderedMap.find _ _) as [[g1 g2]|] eqn:Hfind;
      destruct (negb _); intros [= <- <-]; intros gid both Hin;
      cbn [KLssModel.m_statePairGroupObservationsAtThisSite KLssModel.with_observations
           KLssModel.with_base KLssModel.base m_numStates with_processed1 with_processed2] in *;
      apply OrderedMap_insert_inv in Hin as [[-> ->]|Hin]; try (now apply Hinv);
      cbn [fst snd].
    + destruct (record_pair_holds val (m_numValsProcessedForGroup1 (KLssModel.base m)) g1)
        as (s & Hs & Hne). exists val, s. auto.
    + destruct (record_pair_holds val (m_numValsProcessedForGroup2 (KLssModel.base m)) g2)
        as (s & Hs & Hne). exists val, s. auto.
    + destruct (record_pair_holds val (m_numValsProcessedForGroup1 (KLssModel.base m)) [])
        as (s & Hs & Hne). exists val, s. auto.
    + destruct (record_pair_holds val (m_numValsProcessedForGroup2 (KLssModel.base m)) [])
        as (s & Hs & Hne). exists val, s. auto.
Qed.

Lemma sum_over_contributions (combine : float -> float -> float)
    (Q : OrderedMap.t (OrderedMap.t float)) (obs : KLssModel.observations) (t t' : float) :
  KLssModel.sum_over combine Q obs t = Ok t' ->
  forall statePairID epigenomePairs,
    In (statePairID, epigenomePairs) obs -> epigenomePairs <> [] ->
    In statePairID (OrderedMap.keys Q).
Proof.
  unfold KLssModel.sum_over. revert t.
  induction obs as [|[s set] obs IH]; intros t H s' set' Hin Hne; [destruct Hin|].
  cbn [foldM fst snd] in H. apply bind_Ok in H as (t1 & H1 & H2).
  destruct Hin as [[= <- <-]|Hin]; [|eapply IH; eauto].
  destruct set as [|epi set]; [congruence|].
  cbn [foldM] in H1. apply bind_Ok in H1 as (t2 & Hc & _).
  apply bind_Ok in Hc as (c & Hc & _).
  unfold KLssModel.contribution in Hc.
  destruct (OrderedMap.find s Q) as [byPair|] eqn:Hfind; [|discriminate].
  eapply OrderedMap_find_keys; eauto.
Qed.

(** In a model whose background fits, the group of a pair the background
    has contributions for lies at a row and a column of the model. *)
Lemma group_of_known_pair_has_slots (m : KLssModel.t) (gid : Z)
    (both : KLssModel.observations * KLssModel.observations) (t : float) :
  background_fits (OfKLss m) ->
  (exists statePairID epigenomePairs,
      (In (statePairID, epigenomePairs) (fst both)
       \/ In (statePairID, epigenomePairs) (snd both))
      /\ epigenomePairs <> []
      /\ gid = KLssModel.statePairGroupID_of (m_numStates (KLssModel.base m)) statePairID) ->
  KLssModel.term_of m both = Ok t ->
  state_slot (m_numStates (KLssModel.base m))
    (fst (KLssModel.row_column (m_numStates (KLssModel.base m)) gid))
  /\ state_slot (m_numStates (KLssModel.base m))
       (snd (KLssModel.row_column (m_numStates (KLssModel.base m)) gid)).
Proof.
  intros (_ & Hn & Hb & Hkeys) (s & set & Hin & Hne & ->) Hterm.
  unfold KLssModel.term_of in Hterm. apply bind_Ok in Hterm as (t1 & H1 & H2).
  assert (Hs : 1 <= s <= m_numStates (KLssModel.base m) * m_numStates (KLssModel.base m)).
  { apply Hkeys. destruct Hin as [Hin|Hin].
    - left. eapply sum_over_contributions; eauto.
    - right. eapply sum_over_contributions; eauto. }
  destruct (row_column_spec _ s Hn Hb Hs) as (r & c & _ & Hr & Hc & ->).
  rewrite statePairGroupID_of_at by lia.
  rewrite row_column_at by lia. cbn [fst snd]. unfold state_slot. lia.
Qed.

Lemma take_coordinate_null (val : Z) (b : Base) :
  m_writeNullMetric b = true -> take_coordinate val b = None.
Proof. intros H; unfold take_coordinate; now rewrite H. Qed.

Lemma take_coordinate_read (val : Z) (b : Base) :
  m_curBegPos b <> -1 -> m_curEndPos b <> -1 -> take_coordinate val b = None.
Proof.
  intros H1 H2; unfold take_coordinate.
  apply Z.eqb_neq in H1, H2. rewrite H1, H2.
  destruct (negb _ && _); reflexivity.
Qed.

Ltac open_pair :=
  match goal with
  | H : paired _ _ |- _ =>
      destruct H as ((Hline & Hrest) & Hw1 & Hb1 & He1 & Hw2);
      destruct Hline as (Hn & Hs & Hg1 & Hg2 & Hc1 & Hc2)
  end.

Lemma KLModel_processInputValue_paired (val : Z) (m1 m2 : KLModel.t) :
  paired (OfKL m1) (OfKL m2) ->
  paired_outcomes (fun r => (fst r, OfKL (snd r))) (fun r => (fst r, OfKL (snd r)))
    (KLModel.processInputValue val m1) (KLModel.processInputValue val m2).
Proof.
  intros H; open_pair. destruct Hrest as (HP1 & HP2 & HQ1 & HQ2 & Hlogs).
  cbn [members AnyModel] in *.
  unfold KLModel.processInputValue, paired_outcomes.
  rewrite (take_coordinate_read val _ Hb1 He1), (take_coordinate_null val _ Hw2).
  rewrite <- Hn, <- Hg2, <- Hc1, <- Hc2, <- HP1, <- HP2.
  destruct (_ =? _).
  - destruct (_ =? _); [exact I|]. destruct (_ =? _); [exact I|].
    destruct (store P2numerators _ _ _); cbn [bind fst snd]; [|reflexivity].
    repeat split; cbn; auto.
  - destruct (store P1numerators _ _ _); cbn [bind fst snd]; [|reflexivity].
    repeat split; cbn; auto.
Qed.

Lemma KLsModel_processInputValue_paired (val : Z) (m1 m2 : KLsModel.t) :
  paired (OfKLs m1) (OfKLs m2) ->
  paired_outcomes (fun r => (fst r, OfKLs (snd r))) (fun r => (fst r, OfKLs (snd r)))
    (KLsModel.processInputValue val m1) (KLsModel.processInputValue val m2).
Proof.
  intros H; open_pair. destruct Hrest as (HP1 & HP2 & HQ1 & HQ2 & Hlogs & Htable).
  cbn [members AnyModel] in *.
  unfold KLsModel.processInputValue, paired_outcomes.
  rewrite (take_coordinate_read val _ Hb1 He1), (take_coordinate_null val _ Hw2).
  rewrite <- Hg1, <- Hg2, <- Hc1, <- Hc2, <- HP1, <- HP2.
  destruct (_ =? _).
  - destruct (_ =? _); [exact I|].
    destruct (store P2numerators _ _ _); cbn [bind fst snd]; [|reflexivity].
    repeat split; cbn; auto.
  - destruct (store P1numerators _ _ _); cbn [bind fst snd]; [|reflexivity].
    repeat split; cbn; auto.
Qed.

Lemma KLssModel_processInputValue_paired (val : Z) (m1 m2 : KLssModel.t) :
  paired (OfKLss m1) (OfKLss m2) ->
  paired_outcomes (fun r => (fst r, OfKLss (snd r))) (fun r => (fst r, OfKLss (snd r)))
    (KLssModel.processInputValue val m1) (KLssModel.processInputValue val m2).
Proof.
  intros H; open_pair. destruct Hrest as (HQ1 & HQ2 & Hobs).
  cbn [members AnyModel] in *.
  unfold KLssModel.processInputValue, paired_outcomes.
  rewrite (take_coordinate_read val _ Hb1 He1), (take_coordinate_null val _ Hw2).
  rewrite <- Hn, <- Hg1, <- Hg2, <- Hc1, <- Hc2, <- Hobs.
  destruct (_ =? 0); [reflexivity|].
  destruct (_ && _); [exact I|].
  destruct (OrderedMap.find _ _) as [[g1 g2]|]; destruct (negb _);
    cbn [fst snd]; repeat split; cbn; auto.
Qed.

Lemma processInputValue_paired (val : Z) (M1 M2 : model) :
  paired M1 M2 ->
  paired_outcomes (fun r => r) (fun r => r)
    (processInputValue val M1) (processInputValue val M2).
Proof.
  intros H. destruct M1 as [m1|m1|m1], M2 as [m2|m2|m2];
    try (exfalso; exact (proj2 (proj1 H))); cbn [processInputValue AnyModel lift].
  - pose proof (KLModel_processInputValue_paired val m1 m2 H) as Hp.
    unfold paired_outcomes in *.
    destruct (KLModel.processInputValue val m1) as [[v1 r1]|f1],
             (KLModel.processInputValue val m2) as [[v2 r2]|f2]; cbn [bind fst snd] in *; auto.
  - pose proof (KLsModel_processInputValue_paired val m1 m2 H) as Hp.
    unfold paired_outcomes in *.
    destruct (KLsModel.processInputValue val m1) as [[v1 r1]|f1],
             (KLsModel.processInputValue val m2) as [[v2 r2]|f2]; cbn [bind fst snd] in *; auto.
  - pose proof (KLssModel_processInputValue_paired val m1 m2 H) as Hp.
    unfold paired_outcomes in *.
    destruct (KLssModel.processInputValue val m1) as [[v1 r1]|f1],
             (KLssModel.processInputValue val m2) as [[v2 r2]|f2]; cbn [bind fst snd] in *; auto.
Qed.

(** The same values taken by two paired models leave them paired, whatever
    the driver has counted so far. *)
Lemma feed_paired (tokens : list Z) (n1 n2 linenum : Z) (M1 M2 : model) :
  paired M1 M2 ->
  paired_outcomes (fun r => (fst (fst r), snd r)) (fun r => (fst (fst r), snd r))
    (feed tokens n1 linenum M1) (feed tokens n2 linenum M2).
Proof.
  revert n1 n2 M1 M2; induction tokens as [|token rest IH]; intros n1 n2 M1 M2 H;
    cbn [feed].
  - exact H.
  - pose proof (processInputValue_paired (u32 token) M1 M2 H) as Hp.
    unfold paired_outcomes in Hp.
    destruct (processInputValue (u32 token) M1) as [[v1 M1']|f1],
             (processInputValue (u32 token) M2) as [[v2 M2']|f2]; cbn [bind]; try contradiction.
    + destruct v1, v2; try contradiction.
      * apply IH; exact Hp.
      * exact I.
    + exact Hp.
Qed.

Lemma feed_keeps (P : model -> Prop) :
  (forall val v M M', P M -> processInputValue val M = Ok (v, M') -> P M') ->
  forall tokens n linenum v n' M M',
    P M -> feed tokens n linenum M = Ok (v, n', M') -> P M'.
Proof.
  intros Hstep tokens; induction tokens as [|token rest IH];
    intros n linenum v n' M M' HP H; cbn [feed] in H.
  - injection H as <- <- <-. exact HP.
  - apply bind_Ok in H as ([v1 M1] & H1 & H).
    pose proof (Hstep _ _ _ _ HP H1) as HP1.
    destruct v1; [eapply IH; eauto|]. injection H as <- <- <-. exact HP1.
Qed.

Lemma processInputValue_keeps_background (val : Z) (v : verdict) (M M' : model) :
  background_fits M -> processInputValue val M = Ok (v, M') -> background_fits M'.
Proof.
  intros Hfit H. destruct M as [m|m|m]; cbn [processInputValue AnyModel lift] in H;
    apply bind_Ok in H as ([v' m'] & H & E); cbn [fst snd] in E; injection E as <- <-.
  - unfold KLModel.processInputValue in H.
    destruct (take_coordinate val (KLModel.base m)) as [b'|] eqn:Hc.
    + injection H as <- <-. apply take_coordinate_Some in Hc as [[-> | ->] _]; exact Hfit.
    + destruct (_ =? _).
      * destruct (_ =? _); [injection H as <- <-; exact Hfit|].
        destruct (_ =? _); [injection H as <- <-; exact Hfit|].
        apply bind_Ok in H as (w & Hw & H). injection H as <- <-. exact Hfit.
      * apply bind_Ok in H as (w & Hw & H). injection H as <- <-.
        apply store_length in Hw. destruct Hfit as [Hn Hfit]. split; [exact Hn|].
        cbn in *. now rewrite Hw.
  - unfold KLsModel.processInputValue in H.
    destruct (take_coordinate val (KLsModel.base m)) as [b'|] eqn:Hc.
    + injection H as <- <-. apply take_coordinate_Some in Hc as [[-> | ->] _]; exact Hfit.
    + destruct (_ =? _).
      * destruct (_ =? _); [injection H as <- <-; exact Hfit|].
        apply bind_Ok in H as (w & Hw & H). injection H as <- <-. exact Hfit.
      * apply bind_Ok in H as (w & Hw & H). injection H as <- <-.
        apply store_length in Hw. destruct Hfit as [Hn Hfit]. split; [exact Hn|].
        cbn in *. now rewrite Hw.
  - unfold KLssModel.processInputValue in H.
    destruct (_ =? 0); [discriminate|].
    destruct (take_coordinate val (KLssModel.base m)) as [b'|] eqn:Hc.
    + injection H as <- <-. apply take_coordinate_Some in Hc as [[-> | ->] _]; exact Hfit.
    + destruct (_ && _); [injection H as <- <-; exact Hfit|].
      destruct (OrderedMap.find _ _) as [[g1 g2]|]; destruct (negb _);
        injection H as <- <-; exact Hfit.
Qed.

Lemma processInputValue_keeps_groups (val : Z) (v : verdict) (M M' : model) :
  (forall m, M = OfKLss m -> groups_hold_their_pairs m) ->
  processInputValue val M = Ok (v, M') ->
  forall m', M' = OfKLss m' -> groups_hold_their_pairs m'.
Proof.
  intros Hinv H m' ->. destruct M as [m|m|m]; cbn [processInputValue AnyModel lift] in H;
    apply bind_Ok in H as ([v' m''] & H & E); cbn [fst snd] in E; try discriminate.
  injection E as <- <-. eapply KLssModel_processInputValue_groups; eauto.
Qed.

Lemma mapM_ext {A B : Type} (f g : A -> outcome B) (l : list A) :
  (forall x, f x = g x) -> mapM f l = mapM g l.
Proof.
  intros H; induction l as [|x l IH]; cbn [mapM]; [reflexivity|].
  now rewrite H, IH.
Qed.

(** Paired models evaluate to the same total. *)
Lemma total_of_paired (M1 M2 : model) :
  paired M1 M2 ->
  background_fits M2 ->
  (forall m, M2 = OfKLss m -> groups_hold_their_pairs m) ->
  total_of M1 = total_of M2.
Proof.
  intros H Hfit Hgroups. open_pair.
  destruct M1 as [m1|m1|m1], M2 as [m2|m2|m2]; try contradiction;
    cbn [members AnyModel] in *; cbn [total_of].
  - destruct Hrest as (HP1 & HP2 & HQ1 & HQ2 & Hlogs).
    unfold KLModel.metric_loop.
    rewrite (KLModel_loop_total m2) by (intros; congruence).
    rewrite (KLModel_loop_total m1).
    + unfold KLModel.identifiers, KLModel.term_of, KLModel.denom1, KLModel.denom2.
      now rewrite Hg1, Hg2, HP1, HP2, HQ1, HQ2, Hlogs, Hn.
    + intros _ i Hi; cbn [snd]. unfold assign; rewrite repeat_length.
      unfold KLModel.identifiers in Hi; apply in_range in Hi.
      destruct Hfit as [Hb Hfit]. cbn in Hfit, Hb. rewrite HP1 in Hi. lia.
  - destruct Hrest as (HP1 & HP2 & HQ1 & HQ2 & Hlogs & Htable).
    unfold KLsModel.metric_loop.
    rewrite (KLsModel_loop_total m2) by (intros; congruence).
    rewrite (KLsModel_loop_total m1).
    + unfold KLsModel.identifiers, KLsModel.term_of, KLsModel.denom1, KLsModel.denom2,
        KLsModel.start.
      now rewrite Hg1, Hg2, HP1, HP2, HQ1, HQ2, Hlogs, Hn.
    + intros _. cbn [KLsModel.start KLsModel.contribOfEachState].
      unfold assign; rewrite repeat_length.
      destruct Hfit as [Hb Hfit]. cbn in Hfit, Hb.
      split; [lia | split; [lia |]].
      intros id Hid. unfold KLsModel.identifiers in Hid; apply in_range in Hid.
      split; [lia|]. rewrite Htable, Hn. apply Hfit. rewrite <- HP1. lia.
  - destruct Hrest as (HQ1 & HQ2 & Hobs).
    unfold KLssModel.metric_loop.
    rewrite (KLssModel_loop_total m2) by (intros; congruence).
    rewrite (KLssModel_loop_total m1).
    + assert (Hterm : forall both, KLssModel.term_of m1 both = KLssModel.term_of m2 both)
        by (intros both; unfold KLssModel.term_of; now rewrite ?HQ1, ?HQ2, ?Hg1, ?Hg2).
      unfold KLssModel.start. rewrite Hobs, Hg2, Hn.
      now rewrite (mapM_ext _ (fun entry => KLssModel.term_of m2 (snd entry)))
        by (intros; apply Hterm).
    + intros _. cbn [KLssModel.start KLssModel.contribOfEachState].
      unfold assign; rewrite repeat_length.
      pose proof Hfit as (Hb & Hpos & _). cbn in Hpos, Hb.
      split; [lia | split; [lia | split; [lia|]]].
      intros entry t Hentry Hterm0. rewrite Hn.
      assert (Hterm2 : KLssModel.term_of m2 (snd entry) = Ok t)
        by (rewrite <- Hterm0; symmetry; unfold KLssModel.term_of; now rewrite ?HQ1, ?HQ2, ?Hg1, ?Hg2).
      destruct entry as [gid both]. cbn [fst snd] in *.
      eapply group_of_known_pair_has_slots; eauto.
      apply (Hgroups m2 eq_refl gid both). now rewrite <- Hobs.
Qed.

Ltac open_value :=
  cbn; unfold lift, KLModel.processInputValue, KLsModel.processInputValue,
    KLssModel.processInputValue, take_coordinate, KLModel.with_base, KLsModel.with_base,
    KLssModel.with_base, with_curBegPos, with_curEndPos, with_writeNullMetric; cbn.

(** In non-null mode, between two lines, the first two values of a line
    are taken as its coordinates; what follows is read as in null mode. *)
Lemma coordinates_are_taken (M : model) (beg end_ : Z) :
  between_lines M -> background_fits M ->
  i32 (u32 beg) <> -1 -> i32 (u32 end_) <> -1 ->
  exists Ma M1,
    processInputValue (u32 beg) (in_mode false M) = Ok (Accepted, Ma)
    /\ processInputValue (u32 end_) Ma = Ok (Accepted, M1)
    /\ paired M1 (in_mode true M).
Proof.
  intros (Hc1 & Hc2 & Hb & He & Hobs) Hfit Hbeg Hend.
  apply Z.eqb_neq in Hbeg as Hbeg'.
  destruct M as [m|m|m]; destruct m as [b];
    destruct b as [numStates size g1 g2 c1 c2 nulls obs nullValues scores chrom curBeg curEnd];
    cbn in Hc1, Hc2, Hb, He, Hobs; subst.
  - eexists _, _. split; [|split].
    + open_value. reflexivity.
    + open_value. rewrite Hbeg'. reflexivity.
    + cbn. repeat split; auto.
  - eexists _, _. split; [|split].
    + open_value. reflexivity.
    + open_value. rewrite Hbeg'. reflexivity.
    + cbn. repeat split; auto.
  - destruct Hfit as (_ & Hpos & _). cbn in Hpos.
    assert (Hz : (numStates =? 0) = false) by (apply Z.eqb_neq; lia).
    eexists _, _. split; [|split].
    + open_value. rewrite Hz. reflexivity.
    + open_value. rewrite Hz, Hbeg'. reflexivity.
    + cbn. repeat split; auto.
Qed.

Lemma background_fits_in_mode (nulls : bool) (M : model) :
  background_fits M -> background_fits (in_mode nulls M).
Proof. destruct M as [m|m|m]; destruct m as [b]; destruct b; exact (fun H => H). Qed.



(** * Rounding: the error of one operation *)

Local Open Scope Q_scope.

Lemma pow2_Qpower (z : Z) : IEEE.pow2 z == 2 ^ z.
Proof.
  unfold IEEE.pow2. destruct (Z.leb_spec 0 z).
  - now rewrite Zpower_Qpower by lia.
  - rewrite Zpower_Qpower by lia. rewrite <- Qpower_opp.
    now rewrite Z.opp_involutive.
Qed.

Lemma pow2_pos (z : Z) : 0 < IEEE.pow2 z.
Proof. rewrite pow2_Qpower. apply Qpower_0_lt. reflexivity. Qed.

Lemma pow2_add (a b : Z) : IEEE.pow2 (a + b) == IEEE.pow2 a * IEEE.pow2 b.
Proof. rewrite !pow2_Qpower. apply Qpower_plus. discriminate. Qed.

Lemma pow2_le (a b : Z) : (a <= b)%Z -> IEEE.pow2 a <= IEEE.pow2 b.
Proof.
  intros H. rewrite !pow2_Qpower. apply Qpower_le_compat_l; [exact H|discriminate].
Qed.

Lemma pow2_of_nonneg (z : Z) : (0 <= z)%Z -> IEEE.pow2 z = inject_Z (2 ^ z).
Proof. intros H. unfold IEEE.pow2. destruct (Z.leb_spec 0 z); [reflexivity|lia]. Qed.

Lemma rne_error (x : Q) : x - (1 # 2) <= inject_Z (IEEE.rne x) <= x + (1 # 2).
Proof.
  unfold IEEE.rne.
  pose proof (Qfloor_le x) as Hlo. pose proof (Qlt_floor x) as Hhi.
  rewrite inject_Z_plus in Hhi. change (inject_Z 1) with 1 in Hhi.
  destruct (Qcompare (x - inject_Z (Qfloor x)) (1 # 2)) eqn:E.
  - apply Qeq_alt in E.
    destruct (Z.even (Qfloor x)); rewrite ?inject_Z_plus; change (inject_Z 1) with 1; lra.
  - apply Qlt_alt in E. lra.
  - apply Qgt_alt in E. rewrite inject_Z_plus. change (inject_Z 1) with 1. lra.
Qed.

Lemma Qmake_as_div (n : Z) (d : positive) : n # d == inject_Z n / inject_Z (Zpos d).
Proof. apply Qmake_Qdiv. Qed.

Lemma ilog2_spec (x : Q) :
  0 < x -> IEEE.pow2 (IEEE.ilog2 x) <= x /\ x < IEEE.pow2 (IEEE.ilog2 x + 1).
Proof.
  intros Hx. destruct x as [n d]. unfold IEEE.ilog2. cbn [Qnum Qden].
  assert (Hn : (0 < n)%Z) by (unfold Qlt in Hx; cbn in Hx; lia).
  set (a := Z.log2 n). set (b := Z.log2 (Zpos d)).
  destruct (Z.log2_spec n Hn) as [Ha1 Ha2]. fold a in Ha1, Ha2.
  destruct (Z.log2_spec (Zpos d) eq_refl) as [Hb1 Hb2]. fold b in Hb1, Hb2.
  assert (Ha0 : (0 <= a)%Z) by apply Z.log2_nonneg.
  assert (Hb0 : (0 <= b)%Z) by apply Z.log2_nonneg.
  assert (Hd : 0 < inject_Z (Zpos d)) by reflexivity.
  assert (Qa1 : IEEE.pow2 a <= inject_Z n)
    by (rewrite pow2_of_nonneg by lia; rewrite <- Zle_Qle; exact Ha1).
  assert (Qa2 : inject_Z n < IEEE.pow2 (a + 1))
    by (rewrite pow2_of_nonneg by lia; rewrite <- Zlt_Qlt; replace (a + 1)%Z with (Z.succ a) by lia; exact Ha2).
  assert (Qb1 : IEEE.pow2 b <= inject_Z (Zpos d))
    by (rewrite pow2_of_nonneg by lia; rewrite <- Zle_Qle; exact Hb1).
  assert (Qb2 : inject_Z (Zpos d) < IEEE.pow2 (b + 1))
    by (rewrite pow2_of_nonneg by lia; rewrite <- Zlt_Qlt; replace (b + 1)%Z with (Z.succ b) by lia; exact Hb2).
  assert (Hup : n # d < IEEE.pow2 (a - b + 1)).
  { rewrite (Qmake_as_div n d). apply Qlt_shift_div_r; [exact Hd|].
    apply Qlt_le_trans with (IEEE.pow2 (a + 1)); [exact Qa2|].
    replace (a + 1)%Z with ((a - b + 1) + b)%Z by lia. rewrite pow2_add.
    apply Qmult_le_l; [apply pow2_pos | exact Qb1]. }
  assert (Hdown : IEEE.pow2 (a - b - 1) <= n # d).
  { rewrite (Qmake_as_div n d). apply Qle_shift_div_l; [exact Hd|].
    apply Qle_trans with (IEEE.pow2 a); [|exact Qa1].
    replace a with ((a - b - 1) + (b + 1))%Z at 2 by lia. rewrite pow2_add.
    apply Qmult_le_l; [apply pow2_pos | apply Qlt_le_weak; exact Qb2]. }
  destruct (Qle_bool (IEEE.pow2 (a - b)) (n # d)) eqn:E.
  - apply Qle_bool_iff in E. split; [exact E|exact Hup].
  - assert (E' : ~ IEEE.pow2 (a - b) <= n # d)
      by (intros F; apply Qle_bool_iff in F; congruence).
    apply Qnot_le_lt in E'. split; [exact Hdown|].
    replace (a - b - 1 + 1)%Z with (a - b)%Z by lia. exact E'.
Qed.

Lemma ilog2_normal (fmt : IEEE.format) (x : Q) :
  0 < x -> least_normal fmt <= x ->
  IEEE.ulp_exp fmt x = (IEEE.ilog2 x + 1 - IEEE.prec fmt)%Z.
Proof.
  intros Hx Hn. destruct (ilog2_spec x Hx) as [_ Hup]. unfold IEEE.ulp_exp.
  destruct (Z.lt_ge_cases (IEEE.ilog2 x) (IEEE.emin fmt + IEEE.prec fmt - 1)) as [Hlt|Hge];
    [|lia].
  assert (IEEE.pow2 (IEEE.ilog2 x + 1) <= least_normal fmt) by (apply pow2_le; lia).
  lra.
Qed.

Lemma round_at_error (e : Z) (x : Q) :
  x - IEEE.pow2 e * (1 # 2) <= IEEE.round_at e x <= x + IEEE.pow2 e * (1 # 2).
Proof.
  unfold IEEE.round_at. pose proof (pow2_pos e) as HP.
  pose proof (rne_error (x / IEEE.pow2 e)) as [Hlo Hhi].
  assert (Hx : x == x / IEEE.pow2 e * IEEE.pow2 e) by (field; lra).
  set (y := x / IEEE.pow2 e) in *. set (R := inject_Z (IEEE.rne y)) in *.
  set (P := IEEE.pow2 e) in *.
  assert (H1 : (y - (1 # 2)) * P <= R * P) by (apply Qmult_le_compat_r; lra).
  assert (H2 : R * P <= (y + (1 # 2)) * P) by (apply Qmult_le_compat_r; lra).
  split; rewrite Hx; lra.
Qed.

Lemma eps_half_ulp (fmt : IEEE.format) (l : Z) :
  IEEE.pow2 (l + 1 - IEEE.prec fmt) * (1 # 2) == IEEE.pow2 l * eps fmt.
Proof.
  unfold eps. replace (l + 1 - IEEE.prec fmt)%Z with (l + (1 + - IEEE.prec fmt))%Z by lia.
  rewrite !pow2_add. change (IEEE.pow2 1) with 2. field.
Qed.

Lemma round_pos_bounds (fmt : IEEE.format) (x : Q) :
  0 < x -> least_normal fmt <= x ->
  x * (1 - eps fmt) <= IEEE.round_pos fmt x <= x * (1 + eps fmt).
Proof.
  intros Hx Hn. unfold IEEE.round_pos. rewrite (ilog2_normal fmt x Hx Hn).
  pose proof (round_at_error (IEEE.ilog2 x + 1 - IEEE.prec fmt) x) as [Hlo Hhi].
  rewrite eps_half_ulp in Hlo, Hhi.
  destruct (ilog2_spec x Hx) as [Hl _].
  assert (He : 0 < eps fmt) by apply pow2_pos.
  assert (H : IEEE.pow2 (IEEE.ilog2 x) * eps fmt <= x * eps fmt)
    by (apply Qmult_le_compat_r; lra).
  split; lra.
Qed.

Lemma eps_le_1 (fmt : IEEE.format) : (0 <= IEEE.prec fmt)%Z -> eps fmt <= 1.
Proof. intros H. change 1 with (IEEE.pow2 0). apply pow2_le. lia. Qed.

Lemma round_bounds (fmt : IEEE.format) (x : Q) :
  0 <= x -> x == 0 \/ least_normal fmt <= x ->
  x * (1 - eps fmt) <= IEEE.round fmt x <= x * (1 + eps fmt).
Proof.
  intros Hx Hn. unfold IEEE.round.
  destruct (Qcompare x 0) eqn:E.
  - apply Qeq_alt in E. rewrite E. lra.
  - apply Qlt_alt in E. lra.
  - apply Qgt_alt in E. apply round_pos_bounds; [exact E|].
    destruct Hn as [Hn|Hn]; [lra|exact Hn].
Qed.

(** An operation whose exact result is not negative, zero or at least the
    least normal number, and below the overflow threshold, delivers that
    result with a relative error of at most [eps]. *)
Lemma deliver_within (fmt : IEEE.format) (x : Q) :
  (0 <= IEEE.prec fmt)%Z ->
  0 <= x -> x == 0 \/ least_normal fmt <= x ->
  x * (1 + eps fmt) < IEEE.pow2 (IEEE.emax fmt) ->
  within (x * (1 - eps fmt)) (x * (1 + eps fmt)) (IEEE.deliver fmt x).
Proof.
  intros Hp Hx Hn Hmax. unfold IEEE.deliver.
  pose proof (round_bounds fmt x Hx Hn) as [Hlo Hhi].
  pose proof (eps_le_1 fmt Hp) as He.
  assert (H0 : 0 <= x * (1 - eps fmt)) by (apply Qmult_le_0_compat; lra).
  assert (Hr : 0 <= IEEE.round fmt x) by lra.
  destruct (Qle_bool _ _) eqn:E.
  - apply Qle_bool_iff in E. rewrite Qabs_pos in E by exact Hr. lra.
  - eexists; split; [reflexivity|]. rewrite Qred_correct. split; assumption.
Qed.

Lemma within_weaken (lo hi lo' hi' : Q) (a : float) :
  within lo hi a -> lo' <= lo -> hi <= hi' -> within lo' hi' a.
Proof. intros (q & -> & H1 & H2) Hlo Hhi. exists q; split; [reflexivity|lra]. Qed.

Lemma square_le_inv (a b : Q) : 0 <= b -> a * a <= b * b -> a <= b.
Proof.
  intros Hb H. destruct (Qlt_le_dec b a) as [Hlt|Hle]; [|exact Hle].
  exfalso. assert (b * b < a * a) by nra. lra.
Qed.

Lemma ilog2_ge (k : Z) (x : Q) : 0 < x -> IEEE.pow2 k <= x -> (k <= IEEE.ilog2 x)%Z.
Proof.
  intros Hx Hk. destruct (ilog2_spec x Hx) as [_ Hup].
  destruct (Z.lt_ge_cases (IEEE.ilog2 x) k) as [Hlt|Hge]; [|lia].
  assert (IEEE.pow2 (IEEE.ilog2 x + 1) <= IEEE.pow2 k) by (apply pow2_le; lia).
  lra.
Qed.

(** The square root of a number between two squares: the nearest number
    of the format lies between the two roots, up to one rounding. *)
Lemma sqrt_pos_bounds (fmt : IEEE.format) (x lo hi : Q) :
  (IEEE.emin fmt <= - IEEE.prec fmt)%Z ->
  1 # 4 <= x -> 0 <= lo -> 0 <= hi -> lo * lo <= x -> x <= hi * hi ->
  lo - hi * eps fmt <= IEEE.sqrt_pos fmt x <= hi + hi * eps fmt.
Proof.
  intros Hfmt Hx Hlo Hhi Hlo2 Hhi2. unfold IEEE.sqrt_pos.
  assert (HL : (-2 <= IEEE.ilog2 x)%Z) by (apply ilog2_ge; [lra|exact Hx]).
  destruct (ilog2_spec x) as [Hl _]; [lra|].
  set (L := IEEE.ilog2 x) in *. set (t := (L / 2)%Z).
  assert (Ht : (-1 <= t /\ 2 * t <= L)%Z).
  { unfold t. split; [apply Z.div_le_lower_bound; lia|]. apply Z.mul_div_le. lia. }
  replace (Z.max (t + 1 - IEEE.prec fmt) (IEEE.emin fmt)) with (t + 1 - IEEE.prec fmt)%Z
    by lia.
  set (e := (t + 1 - IEEE.prec fmt)%Z).
  pose proof (pow2_pos e) as HP.
  assert (HPP : IEEE.pow2 (2 * e) == IEEE.pow2 e * IEEE.pow2 e)
    by (replace (2 * e)%Z with (e + e)%Z by lia; apply pow2_add).
  assert (Hhalf : IEEE.pow2 e * (1 # 2) == IEEE.pow2 t * eps fmt) by apply eps_half_ulp.
  assert (Htop : IEEE.pow2 t <= hi).
  { apply square_le_inv; [exact Hhi|]. rewrite <- pow2_add.
    apply Qle_trans with x; [|exact Hhi2].
    apply Qle_trans with (IEEE.pow2 L); [apply pow2_le; lia|exact Hl]. }
  assert (He : 0 < eps fmt) by apply pow2_pos.
  assert (Hulp : IEEE.pow2 e * (1 # 2) <= hi * eps fmt)
    by (rewrite Hhalf; apply Qmult_le_compat_r; lra).
  assert (Hy : x == x / IEEE.pow2 (2 * e) * (IEEE.pow2 e * IEEE.pow2 e))
    by (rewrite <- HPP; field; pose proof (pow2_pos (2 * e)); lra).
  set (y := x / IEEE.pow2 (2 * e)) in *. set (P := IEEE.pow2 e) in *.
  assert (Hy0 : 0 <= y).
  { unfold y. apply Qle_shift_div_l; [apply pow2_pos|]. lra. }
  assert (Hf0 : (0 <= Qfloor y)%Z).
  { change 0%Z with (Qfloor 0). apply Qfloor_resp_le. exact Hy0. }
  destruct (Z.sqrt_spec (Qfloor y) Hf0) as [Hm1 Hm2].
  pose proof (Z.sqrt_nonneg (Qfloor y)) as Hm0.
  set (m := Z.sqrt (Qfloor y)) in *.
  assert (Qm0 : 0 <= inject_Z m) by (change 0 with (inject_Z 0); rewrite <- Zle_Qle; exact Hm0).
  assert (Qm1 : inject_Z m * inject_Z m <= y).
  { rewrite <- inject_Z_mult. apply Qle_trans with (inject_Z (Qfloor y));
      [rewrite <- Zle_Qle; exact Hm1 | apply Qfloor_le]. }
  assert (Qm2 : y < (inject_Z m + 1) * (inject_Z m + 1)).
  { apply Qlt_le_trans with (inject_Z (Qfloor y + 1)); [apply Qlt_floor|].
    change 1 with (inject_Z 1). rewrite <- inject_Z_plus, <- inject_Z_mult.
    rewrite <- Zle_Qle. lia. }
  assert (Hk : exists K : Q, 0 <= K
             /\ y <= (K + (1 # 2)) * (K + (1 # 2))
             /\ (K - (1 # 2) <= 0 \/ (K - (1 # 2)) * (K - (1 # 2)) <= y)
             /\ K = inject_Z
                      match Qcompare y ((inject_Z m + (1 # 2)) * (inject_Z m + (1 # 2))) with
                      | Eq => if Z.even m then m else (m + 1)%Z
                      | Lt => m
                      | Gt => (m + 1)%Z
                      end).
  { destruct (Qcompare y _) eqn:E.
    - apply Qeq_alt in E. destruct (Z.even m).
      + exists (inject_Z m). repeat split; first [lra | nra | right; nra].
      + exists (inject_Z (m + 1)). rewrite inject_Z_plus. change (inject_Z 1) with 1.
        repeat split; first [lra | nra | right; nra].
    - apply Qlt_alt in E. exists (inject_Z m).
      repeat split; first [lra | nra | right; nra].
    - apply Qgt_alt in E. exists (inject_Z (m + 1)). rewrite inject_Z_plus.
      change (inject_Z 1) with 1. repeat split; first [lra | nra | right; nra]. }
  destruct Hk as (K & HK0 & HKup & HKdown & <-).
  assert (Hlow : lo <= (K + (1 # 2)) * P).
  { apply square_le_inv; [apply Qmult_le_0_compat; lra|].
    apply Qle_trans with x; [exact Hlo2|]. rewrite Hy.
    setoid_replace ((K + (1 # 2)) * P * ((K + (1 # 2)) * P))
      with ((K + (1 # 2)) * (K + (1 # 2)) * (P * P)) by ring.
    apply Qmult_le_compat_r; [exact HKup|]. apply Qmult_le_0_compat; lra. }
  assert (Hupp : (K - (1 # 2)) * P <= hi).
  { destruct HKdown as [Hneg|Hsq].
    - apply Qle_trans with 0; [|exact Hhi].
      setoid_replace 0 with (0 * P) by ring. apply Qmult_le_compat_r; lra.
    - apply square_le_inv; [exact Hhi|].
      apply Qle_trans with x; [|exact Hhi2]. rewrite Hy.
      setoid_replace ((K - (1 # 2)) * P * ((K - (1 # 2)) * P))
        with ((K - (1 # 2)) * (K - (1 # 2)) * (P * P)) by ring.
      apply Qmult_le_compat_r; [exact Hsq|]. apply Qmult_le_0_compat; lra. }
  split; lra.
Qed.

(** ** The two formats of the program *)

Lemma eps_binary32 : eps IEEE.binary32 = 1 # 16777216.
Proof. reflexivity. Qed.

Lemma eps_binary64 : eps IEEE.binary64 = 1 # 9007199254740992.
Proof. reflexivity. Qed.

Ltac by_bounds :=
  rewrite ?eps_binary32, ?eps_binary64 in *; lra.

Lemma least_normal_binary32 : least_normal IEEE.binary32 <= 1 # 1024.
Proof. vm_compute. discriminate. Qed.

Lemma least_normal_binary64 : least_normal IEEE.binary64 <= 1 # 1024.
Proof. vm_compute. discriminate. Qed.

Lemma below_overflow_binary32 : (2 ^ 100) * (1 + eps IEEE.binary32) < IEEE.pow2 128.
Proof. vm_compute. reflexivity. Qed.

Lemma below_overflow_binary64 : (2 ^ 1000) * (1 + eps IEEE.binary64) < IEEE.pow2 1024.
Proof. vm_compute. reflexivity. Qed.

Lemma deliver_between (fmt : IEEE.format) (top x lo hi : Q) :
  (0 <= IEEE.prec fmt)%Z ->
  least_normal fmt <= 1 # 1024 ->
  top * (1 + eps fmt) < IEEE.pow2 (IEEE.emax fmt) ->
  lo <= x <= hi -> 0 <= lo -> hi == 0 \/ 1 # 1024 <= lo -> hi <= top ->
  within (lo * (1 - eps fmt)) (hi * (1 + eps fmt)) (IEEE.deliver fmt x).
Proof.
  intros Hp Hmin Hmax [Hlo Hhi] H0 Hn Htop.
  pose proof (eps_le_1 fmt Hp) as He1.
  assert (He0 : 0 < eps fmt) by apply pow2_pos.
  apply within_weaken with (x * (1 - eps fmt)) (x * (1 + eps fmt)).
  - apply deliver_within; [exact Hp | lra | destruct Hn; [left|right]; lra |].
    apply Qle_lt_trans with (top * (1 + eps fmt)); [|exact Hmax].
    apply Qmult_le_compat_r; lra.
  - apply Qmult_le_compat_r; lra.
  - apply Qmult_le_compat_r; lra.
Qed.

Lemma deliver32_between (x lo hi : Q) :
  lo <= x <= hi -> 0 <= lo -> hi == 0 \/ 1 # 1024 <= lo -> hi <= 2 ^ 100 ->
  within (lo * (1 - eps IEEE.binary32)) (hi * (1 + eps IEEE.binary32))
    (IEEE.deliver IEEE.binary32 x).
Proof.
  apply deliver_between;
    [discriminate | exact least_normal_binary32 | exact below_overflow_binary32].
Qed.

Lemma deliver64_between (x lo hi : Q) :
  lo <= x <= hi -> 0 <= lo -> hi == 0 \/ 1 # 1024 <= lo -> hi <= 2 ^ 1000 ->
  within (lo * (1 - eps IEEE.binary64)) (hi * (1 + eps IEEE.binary64))
    (IEEE.deliver IEEE.binary64 x).
Proof.
  apply deliver_between;
    [discriminate | exact least_normal_binary64 | exact below_overflow_binary64].
Qed.

Lemma float_of_within (n : Z) :
  (0 <= n <= 2 ^ 100)%Z ->
  within (inject_Z n * (1 - eps IEEE.binary32)) (inject_Z n * (1 + eps IEEE.binary32))
    (float_of n).
Proof.
  intros Hn. unfold float_of, IEEE.of_Z. apply deliver32_between.
  - lra.
  - change 0 with (inject_Z 0). rewrite <- Zle_Qle. lia.
  - destruct (Z.eq_dec n 0) as [->|Hne]; [left; reflexivity|right].
    apply Qle_trans with (inject_Z 1); [discriminate|]. rewrite <- Zle_Qle. lia.
  - change (2 ^ 100) with (inject_Z (2 ^ 100)). rewrite <- Zle_Qle. lia.
Qed.

Lemma to_double_within (a : float) (lo hi : Q) :
  within lo hi a -> 0 <= lo -> hi == 0 \/ 1 # 1024 <= lo -> hi <= 2 ^ 1000 ->
  within (lo * (1 - eps IEEE.binary64)) (hi * (1 + eps IEEE.binary64)) (to_double a).
Proof.
  intros (q & -> & Hq) H0 Hn Htop. unfold to_double, IEEE.convert.
  now apply deliver64_between.
Qed.

Lemma dadd_within (a b : float) (la ha lb hb : Q) :
  within la ha a -> within lb hb b ->
  0 <= la + lb -> ha + hb == 0 \/ 1 # 1024 <= la + lb -> ha + hb <= 2 ^ 1000 ->
  within ((la + lb) * (1 - eps IEEE.binary64)) ((ha + hb) * (1 + eps IEEE.binary64))
    (dadd a b).
Proof.
  intros (x & -> & Hx) (y & -> & Hy) H0 Hn Htop. unfold dadd, IEEE.add.
  apply deliver64_between; try assumption. lra.
Qed.

Lemma dmul_within (a b : float) (k la ha : Q) :
  a = IEEE.Fin k -> within la ha b -> 0 <= k ->
  0 <= la -> k * ha == 0 \/ 1 # 1024 <= k * la -> k * ha <= 2 ^ 1000 ->
  within (k * la * (1 - eps IEEE.binary64)) (k * ha * (1 + eps IEEE.binary64))
    (dmul a b).
Proof.
  intros -> (y & -> & Hy) Hk H0 Hn Htop. unfold dmul, IEEE.mul.
  apply deliver64_between; try assumption.
  - split; nra.
  - apply Qmult_le_0_compat; lra.
Qed.

Lemma quotient_bounds (x y s n c : Q) :
  0 <= s -> 0 < n -> 0 <= c <= 1 # 4 ->
  s * (1 - c) <= x <= s * (1 + c) -> n * (1 - c) <= y <= n * (1 + c) ->
  0 < y /\ s / n * (1 - 2 * c) <= x / y <= s / n * (1 + 3 * c).
Proof.
  intros Hs Hn Hc [Hx1 Hx2] [Hy1 Hy2].
  assert (Hy : 0 < y) by nra.
  assert (Hr : s == s / n * n) by (field; lra).
  assert (Hr0 : 0 <= s / n) by (apply Qle_shift_div_l; lra).
  set (r := s / n) in *.
  split; [exact Hy|]. split.
  - apply Qle_shift_div_l; [exact Hy|].
    apply Qle_trans with (r * (1 - 2 * c) * (n * (1 + c))).
    + assert (0 <= r * (1 - 2 * c)) by nra. nra.
    + rewrite Hr in Hx1. nra.
  - apply Qle_shift_div_r; [exact Hy|].
    apply Qle_trans with (r * (1 + 3 * c) * (n * (1 - c))).
    + rewrite Hr in Hx2. nra.
    + assert (0 <= r * (1 + 3 * c)) by nra. nra.
Qed.

Lemma is_zero_positive (y : Q) : 0 < y -> IEEE.is_zero y = false.
Proof.
  intros Hy. unfold IEEE.is_zero. destruct (Qeq_bool y 0) eqn:E; [|reflexivity].
  apply Qeq_bool_iff in E. lra.
Qed.

(** The quotient of two values known up to the same relative error [c]. *)
Lemma div_within (fmt : IEEE.format) (top : Q) (a b : float) (s n c : Q) :
  (0 <= IEEE.prec fmt)%Z ->
  least_normal fmt <= 1 # 1024 ->
  top * (1 + eps fmt) < IEEE.pow2 (IEEE.emax fmt) ->
  within (s * (1 - c)) (s * (1 + c)) a -> within (n * (1 - c)) (n * (1 + c)) b ->
  0 < n -> 0 <= c <= 1 # 8 -> s == 0 \/ 1 # 512 <= s / n -> s / n * 2 <= top ->
  within (s / n * (1 - 2 * c) * (1 - eps fmt)) (s / n * (1 + 3 * c) * (1 + eps fmt))
    (IEEE.div fmt a b).
Proof.
  intros Hp Hmin Hmax (x & -> & Hx) (y & -> & Hy) Hn Hc Hs Htop.
  assert (Hs0 : 0 <= s).
  { destruct Hs as [Hs|Hs]; [lra|].
    assert (Hr : s == s / n * n) by (field; lra).
    rewrite Hr. apply Qmult_le_0_compat; lra. }
  assert (Hc' : 0 <= c <= 1 # 4) by lra.
  destruct (quotient_bounds x y s n c Hs0 Hn Hc' Hx Hy) as (Hy0 & Hq).
  assert (Hr0 : 0 <= s / n) by (apply Qle_shift_div_l; lra).
  unfold IEEE.div. rewrite (is_zero_positive y Hy0).
  apply deliver_between with top; try assumption.
  - nra.
  - destruct Hs as [Hs|Hs]; [left; rewrite Hs; field; lra|right; nra].
  - nra.
Qed.

Lemma fdiv_within (a b : float) (s n c : Q) :
  within (s * (1 - c)) (s * (1 + c)) a -> within (n * (1 - c)) (n * (1 + c)) b ->
  0 < n -> 0 <= c <= 1 # 8 -> s == 0 \/ 1 # 512 <= s / n -> s / n * 2 <= 2 ^ 100 ->
  within (s / n * (1 - 2 * c) * (1 - eps IEEE.binary32))
    (s / n * (1 + 3 * c) * (1 + eps IEEE.binary32)) (fdiv a b).
Proof.
  apply div_within;
    [discriminate | exact least_normal_binary32 | exact below_overflow_binary32].
Qed.

Lemma ddiv_within (a b : float) (s n c : Q) :
  within (s * (1 - c)) (s * (1 + c)) a -> within (n * (1 - c)) (n * (1 + c)) b ->
  0 < n -> 0 <= c <= 1 # 8 -> s == 0 \/ 1 # 512 <= s / n -> s / n * 2 <= 2 ^ 1000 ->
  within (s / n * (1 - 2 * c) * (1 - eps IEEE.binary64))
    (s / n * (1 + 3 * c) * (1 + eps IEEE.binary64)) (ddiv a b).
Proof.
  apply div_within;
    [discriminate | exact least_normal_binary64 | exact below_overflow_binary64].
Qed.

(** Division by the constant 2. *)
Lemma ddiv_2_within (a : float) (la ha : Q) :
  within la ha a -> 0 <= la -> 1 # 512 <= la -> ha <= 2 ^ 1000 ->
  within (la * (1 # 2) * (1 - eps IEEE.binary64)) (ha * (1 # 2) * (1 + eps IEEE.binary64))
    (ddiv a (IEEE.Fin 2)).
Proof.
  intros (x & -> & Hx) H0 Hn Htop. unfold ddiv, IEEE.div.
  rewrite is_zero_positive by reflexivity.
  assert (Hd : x / 2 == x * (1 # 2)) by (field; discriminate).
  apply deliver64_between; rewrite ?Hd; first [lra | right; lra].
Qed.

Lemma dsqrt_within (a : float) (la ha lo hi : Q) :
  within la ha a -> 1 # 4 <= la -> 0 <= lo -> 0 <= hi -> lo * lo <= la -> ha <= hi * hi ->
  within (lo - hi * eps IEEE.binary64) (hi + hi * eps IEEE.binary64) (dsqrt a).
Proof.
  intros (x & -> & Hx) H1 Hlo Hhi Hlo2 Hhi2. unfold dsqrt, IEEE.sqrt.
  destruct (Qcompare x 0) eqn:E.
  - apply Qeq_alt in E. lra.
  - apply Qlt_alt in E. lra.
  - eexists; split; [reflexivity|]. rewrite Qred_correct.
    apply sqrt_pos_bounds; try assumption; try lra. cbn. lia.
Qed.

(** [static_cast<unsigned int>(floor(x))] of a value between [g] and
    [g + 1]. *)
Lemma to_unsigned_floor (a : float) (lo hi : Q) (g : Z) :
  within lo hi a -> inject_Z g <= lo -> hi < inject_Z g + 1 ->
  (0 <= g < 2 ^ 32)%Z ->
  to_unsigned (IEEE.floor a) = Ok g.
Proof.
  intros (q & -> & Hq) Hlo Hhi Hg. unfold IEEE.floor, to_unsigned.
  assert (Hf : Qfloor q = g).
  { pose proof (Qfloor_le q) as H1. pose proof (Qlt_floor q) as H2.
    assert (H3 : inject_Z g < inject_Z (Qfloor q + 1)) by lra.
    assert (H4 : inject_Z (Qfloor q) < inject_Z (g + 1))
      by (rewrite inject_Z_plus; change (inject_Z 1) with 1; lra).
    rewrite <- Zlt_Qlt in H3, H4. lia. }
  rewrite Hf, Qfloor_Z, Qceiling_Z.
  destruct (Qle_bool 0 (inject_Z g));
    (destruct ((0 <=? g)%Z && (g <? 2 ^ 32)%Z) eqn:E; [reflexivity|];
     apply andb_false_iff in E as [E|E]; [apply Z.leb_gt in E | apply Z.ltb_ge in E]; lia).
Qed.

Lemma dint_1 : dint 1 = IEEE.Fin 1.
Proof. vm_compute. reflexivity. Qed.

Lemma dint_2 : dint 2 = IEEE.Fin 2.
Proof. vm_compute. reflexivity. Qed.

Lemma dint_8 : dint 8 = IEEE.Fin 8.
Proof. vm_compute. reflexivity. Qed.

Lemma hundredth_within : within (1 # 100) (101 # 10000) (dlit 1 100).
Proof.
  eexists; split; [vm_compute; reflexivity|]. split; vm_compute; discriminate.
Qed.

Lemma thousandth_within : within (1 # 1000) (101 # 100000) (dlit 1 1000).
Proof.
  eexists; split; [vm_compute; reflexivity|]. split; vm_compute; discriminate.
Qed.

Lemma within_Fin (q : Q) : within q q (IEEE.Fin q).
Proof. exists q; split; [reflexivity|lra]. Qed.

(** ** Numbers of a format are left as they are *)

Lemma rne_integer (k : Z) : IEEE.rne (inject_Z k) = k.
Proof.
  unfold IEEE.rne. rewrite Qfloor_Z.
  destruct (Qcompare (inject_Z k - inject_Z k) (1 # 2)) eqn:E.
  - apply Qeq_alt in E. lra.
  - reflexivity.
  - apply Qgt_alt in E. lra.
Qed.

Lemma rne_eq (x : Q) (k : Z) : x == inject_Z k -> IEEE.rne x = k.
Proof.
  intros H. unfold IEEE.rne.
  assert (Hf : Qfloor x = k) by (rewrite <- (Qfloor_Z k); now apply Qfloor_comp).
  rewrite Hf.
  destruct (Qcompare (x - inject_Z k) (1 # 2)) eqn:E.
  - apply Qeq_alt in E. lra.
  - reflexivity.
  - apply Qgt_alt in E. lra.
Qed.

Lemma pow2_sub (a b : Z) : IEEE.pow2 (a - b) == IEEE.pow2 a / IEEE.pow2 b.
Proof.
  pose proof (pow2_pos b).
  assert (H0 : IEEE.pow2 a == IEEE.pow2 (a - b) * IEEE.pow2 b)
    by (rewrite <- pow2_add; replace (a - b + b)%Z with a by lia; reflexivity).
  rewrite H0. field. lra.
Qed.

Lemma pow2_integer (z : Z) : (0 <= z)%Z -> IEEE.pow2 z == inject_Z (2 ^ z).
Proof. intros H. now rewrite pow2_of_nonneg. Qed.

Lemma round_at_exact (e : Z) (y : Q) (k : Z) :
  y == inject_Z k * IEEE.pow2 e -> IEEE.round_at e y == y.
Proof.
  intros H. unfold IEEE.round_at. pose proof (pow2_pos e).
  rewrite (rne_eq (y / IEEE.pow2 e) k); [now rewrite H|].
  rewrite H. field. lra.
Qed.

Lemma round_pos_representable (fmt fmt' : IEEE.format) (y : Q) :
  (1 <= IEEE.prec fmt <= IEEE.prec fmt')%Z -> (IEEE.emin fmt' <= IEEE.emin fmt)%Z ->
  0 < y -> representable fmt y -> IEEE.round_pos fmt' y == y.
Proof.
  intros Hp He Hy (k & e & Hk & Hkb & Hee). unfold IEEE.round_pos.
  pose proof (pow2_pos e) as HP.
  assert (Hk0 : (0 < k)%Z).
  { destruct (Z.lt_ge_cases 0 k) as [H|H]; [exact H|].
    assert (inject_Z k <= 0) by (change 0 with (inject_Z 0); rewrite <- Zle_Qle; exact H).
    nra. }
  destruct (ilog2_spec y Hy) as [Hl1 Hl2].
  set (L := IEEE.ilog2 y) in *. unfold IEEE.ulp_exp. fold L.
  set (e' := Z.max (L + 1 - IEEE.prec fmt') (IEEE.emin fmt')).
  destruct (Z.le_gt_cases e' e) as [Hle|Hgt].
  - (* the unit in the last place is not above that of [y] *)
    apply round_at_exact with (k * 2 ^ (e - e'))%Z.
    rewrite Hk, inject_Z_mult, <- pow2_integer by lia.
    rewrite <- Qmult_assoc, <- pow2_add. now replace (e - e' + e')%Z with e by lia.
  - (* [y] is a power of two *)
    assert (HL : (IEEE.prec fmt + e <= L)%Z) by lia.
    assert (Hlow : IEEE.pow2 (IEEE.prec fmt + e) <= y)
      by (apply Qle_trans with (IEEE.pow2 L); [apply pow2_le; lia|exact Hl1]).
    assert (Hkq : inject_Z k <= IEEE.pow2 (IEEE.prec fmt)).
    { rewrite pow2_integer by lia. rewrite <- Zle_Qle. lia. }
    assert (Hy2 : y == IEEE.pow2 (IEEE.prec fmt + e)).
    { rewrite pow2_add in *. apply Qle_antisym; [|exact Hlow].
      rewrite Hk. apply Qmult_le_compat_r; lra. }
    assert (HLe : L = (IEEE.prec fmt + e)%Z).
    { destruct (Z.lt_ge_cases (IEEE.prec fmt + e) L) as [H|H]; [|lia].
      assert (IEEE.pow2 (IEEE.prec fmt + e + 1) <= IEEE.pow2 L) by (apply pow2_le; lia).
      assert (IEEE.pow2 (IEEE.prec fmt + e) < IEEE.pow2 (IEEE.prec fmt + e + 1)).
      { rewrite (pow2_add _ 1). change (IEEE.pow2 1) with 2.
        pose proof (pow2_pos (IEEE.prec fmt + e)). lra. }
      lra. }
    apply round_at_exact with (2 ^ (IEEE.prec fmt + e - e'))%Z.
    rewrite Hy2, <- pow2_integer by lia. rewrite <- pow2_add.
    now replace (IEEE.prec fmt + e - e' + e')%Z with (IEEE.prec fmt + e)%Z by lia.
Qed.

Lemma representable_opp (fmt : IEEE.format) (y : Q) :
  representable fmt y -> representable fmt (- y).
Proof.
  intros (k & e & Hk & Hkb & He). exists (- k)%Z, e. split; [|split; [lia|exact He]].
  rewrite inject_Z_opp, Hk. ring.
Qed.

(** Rounding leaves a number of a format of no more precision and no
    wider range unchanged. *)
Lemma round_representable (fmt fmt' : IEEE.format) (y : Q) :
  (1 <= IEEE.prec fmt <= IEEE.prec fmt')%Z -> (IEEE.emin fmt' <= IEEE.emin fmt)%Z ->
  representable fmt y -> IEEE.round fmt' y == y.
Proof.
  intros Hp He Hy. unfold IEEE.round. destruct (Qcompare y 0) eqn:E.
  - apply Qeq_alt in E. now rewrite E.
  - apply Qlt_alt in E.
    rewrite (round_pos_representable fmt fmt' (- y) Hp He); [ring|lra|].
    now apply representable_opp.
  - apply Qgt_alt in E. now apply (round_pos_representable fmt fmt' y Hp He).
Qed.

Lemma round_pos_is_representable (fmt : IEEE.format) (x : Q) :
  (0 <= IEEE.prec fmt)%Z -> 0 < x -> representable fmt (IEEE.round_pos fmt x).
Proof.
  intros Hp Hx. unfold IEEE.round_pos, IEEE.round_at.
  destruct (ilog2_spec x Hx) as [_ Hl].
  set (e := IEEE.ulp_exp fmt x).
  assert (He : (IEEE.ilog2 x + 1 - IEEE.prec fmt <= e /\ IEEE.emin fmt <= e)%Z)
    by (unfold e, IEEE.ulp_exp; lia).
  pose proof (pow2_pos e) as HP.
  exists (IEEE.rne (x / IEEE.pow2 e)), e. split; [reflexivity|]. split; [|lia].
  pose proof (rne_error (x / IEEE.pow2 e)) as [Hlo Hhi].
  assert (Hq0 : 0 < x / IEEE.pow2 e) by (apply Qlt_shift_div_l; lra).
  assert (Hq1 : x / IEEE.pow2 e < IEEE.pow2 (IEEE.prec fmt)).
  { apply Qlt_shift_div_r; [exact HP|].
    apply Qlt_le_trans with (IEEE.pow2 (IEEE.ilog2 x + 1)); [exact Hl|].
    rewrite <- pow2_add. apply pow2_le. lia. }
  rewrite (pow2_of_nonneg (IEEE.prec fmt) Hp) in Hq1.
  set (k := IEEE.rne (x / IEEE.pow2 e)) in *.
  assert (H1 : inject_Z (-1) < inject_Z k) by (change (inject_Z (-1)) with (-1); lra).
  assert (H2 : inject_Z k < inject_Z (2 ^ IEEE.prec fmt + 1))
    by (rewrite inject_Z_plus; change (inject_Z 1) with 1; lra).
  rewrite <- Zlt_Qlt in H1, H2. lia.
Qed.

Lemma round_is_representable (fmt : IEEE.format) (x : Q) :
  (0 <= IEEE.prec fmt)%Z -> representable fmt (IEEE.round fmt x).
Proof.
  intros Hp. unfold IEEE.round. destruct (Qcompare x 0) eqn:E.
  - exists 0%Z, (IEEE.emin fmt). split; [ring|]. split; [|lia].
    change (Z.abs 0) with 0%Z. apply Z.pow_nonneg. lia.
  - apply Qlt_alt in E. apply representable_opp.
    apply round_pos_is_representable; [exact Hp|lra].
  - apply Qgt_alt in E. now apply round_pos_is_representable.
Qed.

Lemma representable_Qeq (fmt : IEEE.format) (x y : Q) :
  x == y -> representable fmt x -> representable fmt y.
Proof.
  intros H (k & e & Hk & Hrest). exists k, e. split; [now rewrite <- H|exact Hrest].
Qed.

(** A [float] converted to [double] and back is the same [float]. *)
Lemma float_through_double (x : Q) :
  to_float (to_double (IEEE.deliver IEEE.binary32 x)) = IEEE.deliver IEEE.binary32 x.
Proof.
  unfold IEEE.deliver at 2. unfold IEEE.deliver at 1.
  set (r := IEEE.round IEEE.binary32 x).
  assert (Hr : representable IEEE.binary32 (Qred r)).
  { apply representable_Qeq with r; [symmetry; apply Qred_correct|].
    apply round_is_representable. discriminate. }
  destruct (Qle_bool (IEEE.pow2 (IEEE.emax IEEE.binary32)) (Qabs r)) eqn:E; [reflexivity|].
  assert (Hsmall : Qabs r < IEEE.pow2 128).
  { apply Qnot_le_lt. intros F. apply Qle_bool_iff in F.
    change (IEEE.emax IEEE.binary32) with 128%Z in E. congruence. }
  assert (H64 : IEEE.round IEEE.binary64 (Qred r) == r).
  { rewrite (round_representable IEEE.binary32 IEEE.binary64); [apply Qred_correct| | |exact Hr];
      cbn; lia. }
  assert (H32 : IEEE.round IEEE.binary32 (Qred r) == r).
  { rewrite (round_representable IEEE.binary32 IEEE.binary32); [apply Qred_correct| | |exact Hr];
      cbn; lia. }
  assert (Htop : IEEE.pow2 128 <= IEEE.pow2 1024) by (apply pow2_le; lia).
  unfold to_double, IEEE.convert, IEEE.deliver.
  destruct (Qle_bool (IEEE.pow2 (IEEE.emax IEEE.binary64))
              (Qabs (IEEE.round IEEE.binary64 (Qred r)))) eqn:E64.
  { apply Qle_bool_iff in E64. rewrite H64 in E64.
    change (IEEE.emax IEEE.binary64) with 1024%Z in E64. lra. }
  rewrite (Qred_complete _ _ H64).
  unfold to_float, IEEE.convert, IEEE.deliver.
  destruct (Qle_bool (IEEE.pow2 (IEEE.emax IEEE.binary32))
              (Qabs (IEEE.round IEEE.binary32 (Qred r)))) eqn:E32.
  { apply Qle_bool_iff in E32. rewrite H32 in E32.
    change (IEEE.emax IEEE.binary32) with 128%Z in E32. lra. }
  now rewrite (Qred_complete _ _ H32).
Qed.

Lemma fsub_through_double (a b : float) : to_float (to_double (fsub a b)) = fsub a b.
Proof.
  unfold fsub, IEEE.sub, IEEE.add, IEEE.opp.
  destruct a as [x|s|], b as [y|t|]; try reflexivity.
  - apply float_through_double.
  - destruct (Bool.eqb s (negb t)); reflexivity.
Qed.

Local Close Scope Q_scope.

(** * The group size a background implies *)

Local Open Scope Q_scope.

(** Variant 1: a total within 0.4 percent of [Nsites] of [g * Nsites]
    implies the group size [g]. *)
Lemma KLModel_group_size_near (g totalNumTallies Nsites : Z) :
  (1 <= g <= 2 ^ 15)%Z -> (1 <= Nsites)%Z -> (0 <= totalNumTallies < 2 ^ 64)%Z ->
  (Z.abs (totalNumTallies - g * Nsites) * 250 <= Nsites)%Z ->
  KLModel.implied_group_size totalNumTallies Nsites = Ok g.
Proof.
  intros Hg HN HS Hnear. unfold KLModel.implied_group_size.
  assert (HNtop : (Nsites <= 2 ^ 65)%Z) by nia.
  assert (Hn : 1 <= inject_Z Nsites)
    by (change 1 with (inject_Z 1); rewrite <- Zle_Qle; lia).
  assert (HG : 1 <= inject_Z g <= 32768)
    by (change 1 with (inject_Z 1); change 32768 with (inject_Z (2 ^ 15));
        rewrite <- !Zle_Qle; lia).
  assert (Hs1 : inject_Z g * inject_Z Nsites * 250
                <= inject_Z Nsites + inject_Z totalNumTallies * 250).
  { change 250 with (inject_Z 250).
    rewrite <- !inject_Z_mult, <- inject_Z_plus, <- Zle_Qle. lia. }
  assert (Hs2 : inject_Z totalNumTallies * 250
                <= inject_Z Nsites + inject_Z g * inject_Z Nsites * 250).
  { change 250 with (inject_Z 250).
    rewrite <- !inject_Z_mult, <- inject_Z_plus, <- Zle_Qle. lia. }
  pose proof (float_of_within totalNumTallies) as HX.
  pose proof (float_of_within Nsites) as HY.
  set (s := inject_Z totalNumTallies) in *. set (n := inject_Z Nsites) in *.
  set (G := inject_Z g) in *.
  assert (Hr : s == s / n * n) by (field; lra).
  assert (Hratio : G - (1 # 250) <= s / n <= G + (1 # 250)).
  { set (r := s / n) in *. rewrite Hr in Hs1, Hs2. split; nra. }
  set (r := s / n) in *.
  assert (HQ : within (r * (1 - 2 * eps IEEE.binary32) * (1 - eps IEEE.binary32))
                 (r * (1 + 3 * eps IEEE.binary32) * (1 + eps IEEE.binary32))
                 (fdiv (float_of totalNumTallies) (float_of Nsites))).
  { apply fdiv_within; [apply HX; lia | apply HY; lia | lra | by_bounds | |].
    - right. fold r. lra.
    - fold r. apply Qle_trans with (2 ^ 17); [lra|discriminate]. }
  apply to_unsigned_floor with
    (lo := (r * (1 - 2 * eps IEEE.binary32) * (1 - eps IEEE.binary32)
              * (1 - eps IEEE.binary64) + (1 # 100)) * (1 - eps IEEE.binary64))
    (hi := (r * (1 + 3 * eps IEEE.binary32) * (1 + eps IEEE.binary32)
              * (1 + eps IEEE.binary64) + (101 # 10000)) * (1 + eps IEEE.binary64)).
  - apply dadd_within.
    + apply to_double_within; [exact HQ | by_bounds | right; by_bounds |].
      apply Qle_trans with (2 ^ 17); [by_bounds|discriminate].
    + exact hundredth_within.
    + by_bounds.
    + right. by_bounds.
    + apply Qle_trans with (2 ^ 17); [by_bounds|discriminate].
  - fold G. by_bounds.
  - fold G. by_bounds.
  - lia.
Qed.

Lemma pairs_exact (g : Z) : (2 * (g * (g - 1) / 2) = g * (g - 1))%Z.
Proof.
  destruct (Z.Even_or_Odd g) as [[k ->]|[k ->]].
  - replace (2 * k * (2 * k - 1))%Z with (k * (2 * k - 1) * 2)%Z by ring.
    rewrite Z.div_mul by discriminate. ring.
  - replace ((2 * k + 1) * (2 * k + 1 - 1))%Z with ((2 * k + 1) * k * 2)%Z by ring.
    rewrite Z.div_mul by discriminate. ring.
Qed.

(** [1 + 8 g(g-1)/2] is the square of [2 g - 1]. *)
Lemma discriminant_is_square (g : Z) :
  inject_Z (2 * g - 1) * inject_Z (2 * g - 1) == 1 + 8 * inject_Z (g * (g - 1) / 2).
Proof.
  change 1 with (inject_Z 1). change 8 with (inject_Z 8).
  rewrite <- !inject_Z_mult, <- inject_Z_plus. apply inject_Z_injective.
  pose proof (pairs_exact g). lia.
Qed.

Lemma inject_Z_range (lo hi z : Z) :
  (lo <= z <= hi)%Z -> inject_Z lo <= inject_Z z <= inject_Z hi.
Proof. intros [H1 H2]. split; rewrite <- Zle_Qle; assumption. Qed.

(** Variant 3: [g (g - 1) / 2] rows imply the group size [g]. *)
Lemma KLssModel_group_size_exact (g : Z) :
  (1 <= g <= 2 ^ 15)%Z ->
  KLssModel.implied_group_size (g * (g - 1) / 2) = Ok g.
Proof.
  intros Hg. unfold KLssModel.implied_group_size.
  destruct (Z.eq_dec g 1) as [->|Hg1]; [vm_compute; reflexivity|].
  pose proof (pairs_exact g) as Hpairs.
  pose proof (discriminant_is_square g) as Hsquare.
  assert (HL : (1 <= g * (g - 1) / 2 <= 2 ^ 30)%Z) by nia.
  pose proof (float_of_within (g * (g - 1) / 2)) as HX.
  pose proof (inject_Z_range _ _ _ HL) as Hl.
  assert (HT : (3 <= 2 * g - 1 <= 2 ^ 16)%Z) by lia.
  pose proof (inject_Z_range _ _ _ HT) as Ht.
  assert (HG : inject_Z (2 * g - 1) == 2 * inject_Z g - 1).
  { change 2 with (inject_Z 2). change 1 with (inject_Z 1).
    rewrite <- inject_Z_mult. unfold Qminus. rewrite <- inject_Z_opp, <- inject_Z_plus.
    reflexivity. }
  set (l := inject_Z (g * (g - 1) / 2)) in *. set (T := inject_Z (2 * g - 1)) in *.
  change (inject_Z 1) with 1 in *. change (inject_Z 3) with 3 in *.
  change (inject_Z (2 ^ 30)) with 1073741824 in *.
  change (inject_Z (2 ^ 16)) with 65536 in *.
  set (u := eps IEEE.binary32) in *. set (v := eps IEEE.binary64) in *.
  assert (Hu : u = 1 # 16777216) by reflexivity.
  assert (Hv : v = 1 # 9007199254740992) by reflexivity.
  rewrite dint_1, dint_2, dint_8.
  (* the discriminant *)
  assert (HA : within ((1 + 8 * l) * (1 - 2 * u)) ((1 + 8 * l) * (1 + 2 * u))
                 (dadd (IEEE.Fin 1)
                    (dmul (IEEE.Fin 8) (to_double (float_of (g * (g - 1) / 2)))))).
  { eapply within_weaken.
    - apply dadd_within.
      + apply within_Fin.
      + apply dmul_within; [reflexivity | | lra | | |].
        * apply to_double_within; [apply HX; lia | | |].
          -- fold u. rewrite Hu. lra.
          -- right. fold u. rewrite Hu. lra.
          -- apply Qle_trans with (2 ^ 40); [fold u; rewrite Hu; lra|discriminate].
        * fold u v. rewrite Hu, Hv. lra.
        * right. fold u v. rewrite Hu, Hv. lra.
        * apply Qle_trans with (2 ^ 40); [fold u v; rewrite Hu, Hv; lra|discriminate].
      + fold u v. rewrite Hu, Hv. lra.
      + right. fold u v. rewrite Hu, Hv. lra.
      + apply Qle_trans with (2 ^ 40); [fold u v; rewrite Hu, Hv; lra|discriminate].
    - fold u v. rewrite Hu, Hv. lra.
    - fold u v. rewrite Hu, Hv. lra. }
  (* its square root *)
  assert (HS : within (T * (1 - 2 * u) - T * (1 + 2 * u) * v)
                 (T * (1 + 2 * u) + T * (1 + 2 * u) * v)
                 (dsqrt (dadd (IEEE.Fin 1)
                    (dmul (IEEE.Fin 8) (to_double (float_of (g * (g - 1) / 2))))))).
  { eapply dsqrt_within; [exact HA | | | | |].
    - rewrite Hu. lra.
    - rewrite Hu. lra.
    - rewrite Hu. lra.
    - setoid_replace (T * (1 - 2 * u) * (T * (1 - 2 * u)))
        with ((1 + 8 * l) * ((1 - 2 * u) * (1 - 2 * u))) by (rewrite <- Hsquare; ring).
      rewrite Hu. lra.
    - setoid_replace (T * (1 + 2 * u) * (T * (1 + 2 * u)))
        with ((1 + 8 * l) * ((1 + 2 * u) * (1 + 2 * u))) by (rewrite <- Hsquare; ring).
      rewrite Hu. lra. }
  eapply to_unsigned_floor; [| | |lia].
  - apply dadd_within; [|exact thousandth_within| | |].
    + apply dadd_within; [apply within_Fin| | | |].
      * apply ddiv_2_within; [exact HS | | |].
        -- rewrite Hu, Hv. lra.
        -- rewrite Hu, Hv. lra.
        -- apply Qle_trans with (2 ^ 40); [rewrite Hu, Hv; lra|discriminate].
      * fold v. rewrite Hu, Hv. lra.
      * right. fold v. rewrite Hu, Hv. lra.
      * apply Qle_trans with (2 ^ 40); [fold v; rewrite Hu, Hv; lra|discriminate].
    + fold v. rewrite Hu, Hv. lra.
    + right. fold v. rewrite Hu, Hv. lra.
    + apply Qle_trans with (2 ^ 40); [fold v; rewrite Hu, Hv; lra|discriminate].
  - fold v. rewrite Hu, Hv. lra.
  - fold v. rewrite Hu, Hv. lra.
Qed.

(** Variant 2: a total of [Nsites * g (g - 1) / 2] implies the group size
    [g]. *)
Lemma KLsModel_group_size_exact (g Nsites : Z) :
  (1 <= g <= 2 ^ 15)%Z -> (1 <= Nsites < 2 ^ 32)%Z ->
  KLsModel.implied_group_size (Nsites * (g * (g - 1) / 2)) Nsites = Ok g.
Proof.
  intros Hg HN. unfold KLsModel.implied_group_size.
  pose proof (pairs_exact g) as Hpairs.
  pose proof (discriminant_is_square g) as Hsquare.
  assert (HL : (0 <= g * (g - 1) / 2 <= 2 ^ 30)%Z) by nia.
  assert (HS : (0 <= Nsites * (g * (g - 1) / 2) <= 2 ^ 62)%Z) by nia.
  pose proof (float_of_within (Nsites * (g * (g - 1) / 2))) as HX.
  pose proof (float_of_within Nsites) as HY.
  pose proof (inject_Z_range _ _ _ HL) as Hl.
  pose proof (inject_Z_range _ _ _ HS) as Hsr.
  assert (HT : (1 <= 2 * g - 1 <= 2 ^ 16)%Z) by lia.
  pose proof (inject_Z_range _ _ _ HT) as Ht.
  assert (HNr : (1 <= Nsites <= 2 ^ 32)%Z) by lia.
  pose proof (inject_Z_range _ _ _ HNr) as Hn.
  assert (HG : inject_Z (2 * g - 1) == 2 * inject_Z g - 1).
  { change 2 with (inject_Z 2). change 1 with (inject_Z 1).
    rewrite <- inject_Z_mult. unfold Qminus. rewrite <- inject_Z_opp, <- inject_Z_plus.
    reflexivity. }
  assert (Hs : inject_Z (Nsites * (g * (g - 1) / 2)) == 0
               \/ 1 <= inject_Z (Nsites * (g * (g - 1) / 2))).
  { destruct (Z.eq_dec (g * (g - 1) / 2) 0) as [->|Hne].
    - left. now rewrite Z.mul_0_r.
    - right. change 1 with (inject_Z 1). rewrite <- Zle_Qle. nia. }
  assert (Hsl : inject_Z (Nsites * (g * (g - 1) / 2)) == 0
                \/ 1 <= inject_Z (g * (g - 1) / 2)).
  { destruct (Z.eq_dec (g * (g - 1) / 2) 0) as [->|Hne].
    - left. now rewrite Z.mul_0_r.
    - right. change 1 with (inject_Z 1). rewrite <- Zle_Qle. lia. }
  assert (Hsn : 8 * inject_Z (Nsites * (g * (g - 1) / 2)) / inject_Z Nsites
                == 8 * inject_Z (g * (g - 1) / 2)).
  { rewrite inject_Z_mult. field. change (inject_Z 1) with 1 in Hn. lra. }
  set (s := inject_Z (Nsites * (g * (g - 1) / 2))) in *.
  set (n := inject_Z Nsites) in *.
  set (l := inject_Z (g * (g - 1) / 2)) in *. set (T := inject_Z (2 * g - 1)) in *.
  change (inject_Z 1) with 1 in *. change (inject_Z 0) with 0 in *.
  change (inject_Z (2 ^ 30)) with 1073741824 in *.
  change (inject_Z (2 ^ 16)) with 65536 in *.
  change (inject_Z (2 ^ 32)) with 4294967296 in *.
  change (inject_Z (2 ^ 62)) with 4611686018427387904 in *.
  set (u := eps IEEE.binary32) in *. set (v := eps IEEE.binary64) in *.
  assert (Hu : u = 1 # 16777216) by reflexivity.
  assert (Hv : v = 1 # 9007199254740992) by reflexivity.
  rewrite dint_1, dint_2, dint_8.
  (* eight times the total, and the number of sites *)
  assert (HM : within (8 * s * (1 - 2 * u)) (8 * s * (1 + 2 * u))
                 (dmul (IEEE.Fin 8) (to_double (float_of (Nsites * (g * (g - 1) / 2)))))).
  { eapply within_weaken.
    - apply dmul_within; [reflexivity | | lra | | |].
      + apply to_double_within; [apply HX; lia | | |].
        * fold u. rewrite Hu. lra.
        * fold u. rewrite Hu. destruct Hs; [left|right]; lra.
        * apply Qle_trans with (2 ^ 70); [fold u; rewrite Hu; lra|discriminate].
      + fold u v. rewrite Hu, Hv. lra.
      + fold u v. rewrite Hu, Hv. destruct Hs; [left|right]; lra.
      + apply Qle_trans with (2 ^ 70); [fold u v; rewrite Hu, Hv; lra|discriminate].
    - fold u v. rewrite Hu, Hv. lra.
    - fold u v. rewrite Hu, Hv. lra. }
  assert (HD : within (n * (1 - 2 * u)) (n * (1 + 2 * u)) (to_double (float_of Nsites))).
  { eapply within_weaken.
    - apply to_double_within; [apply HY; lia | | |].
      + fold u. rewrite Hu. lra.
      + right. fold u. rewrite Hu. lra.
      + apply Qle_trans with (2 ^ 70); [fold u; rewrite Hu; lra|discriminate].
    - fold u v. rewrite Hu, Hv. lra.
    - fold u v. rewrite Hu, Hv. lra. }
  (* the discriminant *)
  assert (HR : within (8 * l * (1 - 2 * (2 * u)) * (1 - v))
                 (8 * l * (1 + 3 * (2 * u)) * (1 + v))
                 (ddiv (dmul (IEEE.Fin 8) (to_double (float_of (Nsites * (g * (g - 1) / 2)))))
                       (to_double (float_of Nsites)))).
  { pose proof (ddiv_within _ _ (8 * s) n (2 * u) HM HD) as H.
    fold v in H. set (r := 8 * s / n) in *.
    eapply within_weaken; [apply H| |].
    - lra.
    - rewrite Hu. lra.
    - destruct Hsl; [left|right]; lra.
    - apply Qle_trans with (2 ^ 70); [lra|discriminate].
    - rewrite Hu, Hv. lra.
    - rewrite Hu, Hv. lra. }
  assert (HA : within ((1 + 8 * l) * (1 - 5 * u)) ((1 + 8 * l) * (1 + 7 * u))
                 (dadd (IEEE.Fin 1)
                    (ddiv (dmul (IEEE.Fin 8)
                             (to_double (float_of (Nsites * (g * (g - 1) / 2)))))
                          (to_double (float_of Nsites))))).
  { eapply within_weaken.
    - apply dadd_within; [apply within_Fin | exact HR | | |].
      + rewrite Hu, Hv. lra.
      + right. rewrite Hu, Hv. lra.
      + apply Qle_trans with (2 ^ 70); [rewrite Hu, Hv; lra|discriminate].
    - fold v. rewrite Hu, Hv. lra.
    - fold v. rewrite Hu, Hv. lra. }
  (* its square root *)
  assert (HQ : within (T * (1 - 5 * u) - T * (1 + 7 * u) * v)
                 (T * (1 + 7 * u) + T * (1 + 7 * u) * v)
                 (dsqrt (dadd (IEEE.Fin 1)
                    (ddiv (dmul (IEEE.Fin 8)
                             (to_double (float_of (Nsites * (g * (g - 1) / 2)))))
                          (to_double (float_of Nsites)))))).
  { eapply dsqrt_within; [exact HA | | | | |].
    - rewrite Hu. lra.
    - rewrite Hu. lra.
    - rewrite Hu. lra.
    - setoid_replace (T * (1 - 5 * u) * (T * (1 - 5 * u)))
        with ((1 + 8 * l) * ((1 - 5 * u) * (1 - 5 * u))) by (rewrite <- Hsquare; ring).
      rewrite Hu. lra.
    - setoid_replace (T * (1 + 7 * u) * (T * (1 + 7 * u)))
        with ((1 + 8 * l) * ((1 + 7 * u) * (1 + 7 * u))) by (rewrite <- Hsquare; ring).
      rewrite Hu. lra. }
  eapply to_unsigned_floor; [| | |lia].
  - apply dadd_within; [|exact hundredth_within| | |].
    + apply ddiv_2_within; [| | |].
      * apply dadd_within; [exact HQ | apply within_Fin | | |].
        -- rewrite Hu, Hv. lra.
        -- right. rewrite Hu, Hv. lra.
        -- apply Qle_trans with (2 ^ 40); [rewrite Hu, Hv; lra|discriminate].
      * fold v. rewrite Hu, Hv. lra.
      * fold v. rewrite Hu, Hv. lra.
      * apply Qle_trans with (2 ^ 40); [fold v; rewrite Hu, Hv; lra|discriminate].
    + fold v. rewrite Hu, Hv. lra.
    + right. fold v. rewrite Hu, Hv. lra.
    + apply Qle_trans with (2 ^ 40); [fold v; rewrite Hu, Hv; lra|discriminate].
  - fold v. rewrite Hu, Hv. lra.
  - fold v. rewrite Hu, Hv. lra.
Qed.

Local Close Scope Q_scope.

(** * The background of variant 1 *)

Lemma Qcontrib_of_eq (logf : float -> float) (Nsites tally : Z) :
  Qcontrib_of logf (logf (float_of Nsites)) tally = contribution_of logf Nsites tally.
Proof.
  unfold Qcontrib_of, contribution_of. destruct (tally =? 0); [reflexivity|].
  apply fsub_through_double.
Qed.

Lemma u64_small (x : Z) : 0 <= x < 2 ^ 64 -> u64 x = x.
Proof. intros H. unfold u64. now apply Z.mod_small. Qed.

Lemma total_tallies_nonneg (line : list Z) :
  Forall (fun t => 0 <= t) line -> 0 <= total_tallies line.
Proof.
  induction 1 as [|t line Ht _ IH]; cbn [total_tallies fold_right]; [lia|].
  fold (total_tallies line). lia.
Qed.

Lemma fold_tally_step (logf : float -> float) (Nsites : Z) (line : list Z)
    (total : Z) (contrib : list float) :
  Forall (fun t => 0 <= t) line -> 0 <= total -> total + total_tallies line < 2 ^ 64 ->
  fold_left (tally_step logf (logf (float_of Nsites))) line (total, contrib)
  = (total + total_tallies line, contrib ++ map (contribution_of logf Nsites) line).
Proof.
  intros Hline. revert total contrib.
  induction Hline as [|t line Ht Hline IH]; intros total contrib H0 Hsum;
    cbn [fold_left total_tallies fold_right map].
  - now rewrite Z.add_0_r, app_nil_r.
  - cbn [total_tallies fold_right] in Hsum. fold (total_tallies line) in *.
    pose proof (total_tallies_nonneg line Hline) as Hrest.
    unfold tally_step at 2. cbn [fst snd].
    rewrite (u64_small t) by lia. rewrite (u64_small (total + t)) by lia.
    rewrite Qcontrib_of_eq, IH by lia.
    rewrite <- app_assoc. cbn [app]. f_equal. lia.
Qed.




(** * The group size of a background built for a known group *)




(** * The number of states a background implies *)

Local Open Scope Q_scope.

Lemma dsub_within (a : float) (k la ha : Q) :
  within la ha a -> 0 <= la - k -> 1 # 1024 <= la - k -> ha - k <= 2 ^ 1000 ->
  within ((la - k) * (1 - eps IEEE.binary64)) ((ha - k) * (1 + eps IEEE.binary64))
    (dsub a (IEEE.Fin k)).
Proof.
  intros (x & -> & Hx) H0 Hn Htop. unfold dsub, IEEE.sub, IEEE.opp, IEEE.add.
  pose proof (Qred_correct (- k)) as Hk.
  apply deliver64_between; try assumption; [lra|right; exact Hn].
Qed.

Lemma fsqrt_within (a : float) (la ha lo hi : Q) :
  within la ha a -> 1 # 4 <= la -> 0 <= lo -> 0 <= hi -> lo * lo <= la -> ha <= hi * hi ->
  within (lo - hi * eps IEEE.binary32) (hi + hi * eps IEEE.binary32)
    (IEEE.sqrt IEEE.binary32 a).
Proof.
  intros (x & -> & Hx) H1 Hlo Hhi Hlo2 Hhi2. unfold IEEE.sqrt.
  destruct (Qcompare x 0) eqn:E.
  - apply Qeq_alt in E. lra.
  - apply Qlt_alt in E. lra.
  - eexists; split; [reflexivity|]. rewrite Qred_correct.
    apply sqrt_pos_bounds; try assumption; try lra. cbn. lia.
Qed.

(** X2. Variant 2 reads the number of states off the number of tallies of
    the background line: [n (n + 1) / 2] tallies imply [n] states, for [n]
    from 1 to 32768. *)
Theorem KLsModel_numStates_round_trip (n : Z) :
  (1 <= n <= 2 ^ 15)%Z ->
  KLsModel.implied_numStates (n * (n + 1) / 2) = Ok n.
Proof.
  intros Hn. unfold KLsModel.implied_numStates.
  pose proof (pairs_exact (n + 1)) as Hpairs.
  pose proof (discriminant_is_square (n + 1)) as Hsquare.
  replace ((n + 1) * (n + 1 - 1))%Z with (n * (n + 1))%Z in * by ring.
  replace (2 * (n + 1) - 1)%Z with (2 * n + 1)%Z in * by ring.
  assert (HL : (1 <= n * (n + 1) / 2 <= 2 ^ 30)%Z) by nia.
  pose proof (float_of_within (n * (n + 1) / 2)) as HX.
  pose proof (inject_Z_range _ _ _ HL) as Hl.
  assert (HT : (3 <= 2 * n + 1 <= 2 ^ 17)%Z) by lia.
  pose proof (inject_Z_range _ _ _ HT) as Ht.
  assert (HG : inject_Z (2 * n + 1) == 2 * inject_Z n + 1).
  { change 2 with (inject_Z 2). change 1 with (inject_Z 1).
    rewrite <- inject_Z_mult, <- inject_Z_plus. reflexivity. }
  set (l := inject_Z (n * (n + 1) / 2)) in *. set (T := inject_Z (2 * n + 1)) in *.
  change (inject_Z 1) with 1 in *. change (inject_Z 3) with 3 in *.
  change (inject_Z (2 ^ 30)) with 1073741824 in *.
  change (inject_Z (2 ^ 17)) with 131072 in *.
  set (u := eps IEEE.binary32) in *. set (v := eps IEEE.binary64) in *.
  assert (Hu : u = 1 # 16777216) by reflexivity.
  assert (Hv : v = 1 # 9007199254740992) by reflexivity.
  rewrite dint_1, dint_2, dint_8.
  assert (HA : within ((1 + 8 * l) * (1 - 2 * u)) ((1 + 8 * l) * (1 + 2 * u))
                 (dadd (IEEE.Fin 1)
                    (dmul (IEEE.Fin 8) (to_double (float_of (n * (n + 1) / 2)))))).
  { eapply within_weaken.
    - apply dadd_within.
      + apply within_Fin.
      + apply dmul_within; [reflexivity | | lra | | |].
        * apply to_double_within; [apply HX; lia | | |].
          -- fold u. rewrite Hu. lra.
          -- right. fold u. rewrite Hu. lra.
          -- apply Qle_trans with (2 ^ 40); [fold u; rewrite Hu; lra|discriminate].
        * fold u v. rewrite Hu, Hv. lra.
        * right. fold u v. rewrite Hu, Hv. lra.
        * apply Qle_trans with (2 ^ 40); [fold u v; rewrite Hu, Hv; lra|discriminate].
      + fold u v. rewrite Hu, Hv. lra.
      + right. fold u v. rewrite Hu, Hv. lra.
      + apply Qle_trans with (2 ^ 40); [fold u v; rewrite Hu, Hv; lra|discriminate].
    - fold u v. rewrite Hu, Hv. lra.
    - fold u v. rewrite Hu, Hv. lra. }
  assert (HS : within (T * (1 - 2 * u) - T * (1 + 2 * u) * v)
                 (T * (1 + 2 * u) + T * (1 + 2 * u) * v)
                 (dsqrt (dadd (IEEE.Fin 1)
                    (dmul (IEEE.Fin 8) (to_double (float_of (n * (n + 1) / 2))))))).
  { eapply dsqrt_within; [exact HA | | | | |].
    - rewrite Hu. lra.
    - rewrite Hu. lra.
    - rewrite Hu. lra.
    - setoid_replace (T * (1 - 2 * u) * (T * (1 - 2 * u)))
        with ((1 + 8 * l) * ((1 - 2 * u) * (1 - 2 * u))) by (rewrite <- Hsquare; ring).
      rewrite Hu. lra.
    - setoid_replace (T * (1 + 2 * u) * (T * (1 + 2 * u)))
        with ((1 + 8 * l) * ((1 + 2 * u) * (1 + 2 * u))) by (rewrite <- Hsquare; ring).
      rewrite Hu. lra. }
  eapply to_unsigned_floor; [| | |lia].
  - apply dadd_within; [|exact hundredth_within| | |].
    + apply ddiv_2_within; [| | |].
      * apply dsub_within; [exact HS| | |].
        -- rewrite Hu, Hv. lra.
        -- rewrite Hu, Hv. lra.
        -- apply Qle_trans with (2 ^ 40); [rewrite Hu, Hv; lra|discriminate].
      * fold v. rewrite Hu, Hv. lra.
      * fold v. rewrite Hu, Hv. lra.
      * apply Qle_trans with (2 ^ 40); [fold v; rewrite Hu, Hv; lra|discriminate].
    + fold v. rewrite Hu, Hv. lra.
    + right. fold v. rewrite Hu, Hv. lra.
    + apply Qle_trans with (2 ^ 40); [fold v; rewrite Hu, Hv; lra|discriminate].
  - fold v. rewrite Hu, Hv. lra.
  - fold v. rewrite Hu, Hv. lra.
Qed.

Lemma KLsModel_numStates_round_trip_witness :
  KLsModel.implied_numStates (15 * (15 + 1) / 2)%Z = Ok 15%Z.
Proof. apply (KLsModel_numStates_round_trip 15). lia. Defined.

(** X3. Variant 3 reads the number of states off the number of columns of
    the first row of the background: [n * n] columns imply [n] states, for
    every [n] from 1 whose square is an [unsigned int]. *)
Theorem KLssModel_numStates_round_trip (n : Z) :
  (1 <= n)%Z -> (n * n < 2 ^ 32)%Z ->
  KLssModel.implied_numStates (n * n) = Ok n.
Proof.
  intros Hn Hsq. unfold KLssModel.implied_numStates.
  assert (Hn16 : (n < 2 ^ 16)%Z) by nia.
  assert (HL : (1 <= n * n <= 2 ^ 32)%Z) by nia.
  pose proof (float_of_within (n * n)) as HX.
  pose proof (inject_Z_range _ _ _ HL) as Hl.
  assert (HT : (1 <= n <= 2 ^ 16)%Z) by lia.
  pose proof (inject_Z_range _ _ _ HT) as Ht.
  rewrite inject_Z_mult in *.
  set (N := inject_Z n) in *.
  change (inject_Z 1) with 1 in *.
  change (inject_Z (2 ^ 32)) with 4294967296 in *.
  change (inject_Z (2 ^ 16)) with 65536 in *.
  set (u := eps IEEE.binary32) in *. set (v := eps IEEE.binary64) in *.
  assert (Hu : u = 1 # 16777216) by reflexivity.
  assert (Hv : v = 1 # 9007199254740992) by reflexivity.
  assert (HS : within (N * (1 - u) - N * (1 + u) * u) (N * (1 + u) + N * (1 + u) * u)
                 (IEEE.sqrt IEEE.binary32 (float_of (n * n)))).
  { eapply fsqrt_within; [apply HX; lia | | | | |].
    - rewrite Hu. lra.
    - rewrite Hu. lra.
    - rewrite Hu. lra.
    - setoid_replace (N * (1 - u) * (N * (1 - u))) with (N * N * ((1 - u) * (1 - u)))
        by ring.
      rewrite Hu. lra.
    - setoid_replace (N * (1 + u) * (N * (1 + u))) with (N * N * ((1 + u) * (1 + u)))
        by ring.
      rewrite Hu. lra. }
  eapply to_unsigned_floor; [| | |lia].
  - apply dadd_within; [|exact hundredth_within| | |].
    + apply to_double_within; [exact HS| | |].
      * rewrite Hu. lra.
      * right. rewrite Hu. lra.
      * apply Qle_trans with (2 ^ 40); [rewrite Hu; lra|discriminate].
    + fold v. rewrite Hu, Hv. lra.
    + right. fold v. rewrite Hu, Hv. lra.
    + apply Qle_trans with (2 ^ 40); [fold v; rewrite Hu, Hv; lra|discriminate].
  - fold v. fold N. rewrite Hu, Hv. lra.
  - fold v. fold N. rewrite Hu, Hv. lra.
Qed.

Lemma KLssModel_numStates_round_trip_witness :
  KLssModel.implied_numStates (15 * 15)%Z = Ok 15%Z.
Proof. apply (KLssModel_numStates_round_trip 15); lia. Defined.

Local Close Scope Q_scope.

(** * What streaming changes and what it leaves *)

Lemma same_background_refl (M : model) : same_background M M.
Proof. destruct M; repeat split; reflexivity. Qed.

Lemma same_background_trans (M1 M2 M3 : model) :
  same_background M1 M2 -> same_background M2 M3 -> same_background M1 M3.
Proof.
  intros (H1 & H2 & H3 & H4 & H5 & H6 & H) (K1 & K2 & K3 & K4 & K5 & K6 & K).
  repeat (split; [congruence|]).
  destruct M1, M2, M3; try contradiction; cbn in *; intuition congruence.
Qed.

Ltac framed :=
  repeat split; cbn; rewrite ?replace_nth_length; reflexivity.

(** A value consumed writes nothing and leaves the background as it is. *)
Lemma processInputValue_frame (val : Z) (v : verdict) (M M' : model) :
  processInputValue val M = Ok (v, M') ->
  same_background M M' /\ written (members M') = written (members M).
Proof.
  intros H. destruct M as [m|m|m]; cbn [processInputValue AnyModel lift] in H;
    apply bind_Ok in H as ([v' m'] & H & E); cbn [fst snd] in E; injection E as <- <-.
  - unfold KLModel.processInputValue in H.
    destruct (take_coordinate val (KLModel.base m)) as [b'|] eqn:Hc.
    + injection H as <- <-. apply take_coordinate_Some in Hc as [[-> | ->] _]; framed.
    + destruct (_ =? _).
      * destruct (_ =? _); [injection H as <- <-; framed|].
        destruct (_ =? _); [injection H as <- <-; framed|].
        apply bind_Ok in H as (w & Hw & H). injection H as <- <-.
        apply store_length in Hw. repeat split; cbn; congruence.
      * apply bind_Ok in H as (w & Hw & H). injection H as <- <-.
        apply store_length in Hw. repeat split; cbn; congruence.
  - unfold KLsModel.processInputValue in H.
    destruct (take_coordinate val (KLsModel.base m)) as [b'|] eqn:Hc.
    + injection H as <- <-. apply take_coordinate_Some in Hc as [[-> | ->] _]; framed.
    + destruct (_ =? _).
      * destruct (_ =? _); [injection H as <- <-; framed|].
        apply bind_Ok in H as (w & Hw & H). injection H as <- <-.
        apply store_length in Hw. repeat split; cbn; congruence.
      * apply bind_Ok in H as (w & Hw & H). injection H as <- <-.
        apply store_length in Hw. repeat split; cbn; congruence.
  - unfold KLssModel.processInputValue in H.
    destruct (_ =? 0); [discriminate|].
    destruct (take_coordinate val (KLssModel.base m)) as [b'|] eqn:Hc.
    + injection H as <- <-. apply take_coordinate_Some in Hc as [[-> | ->] _]; framed.
    + destruct (_ && _); [injection H as <- <-; framed|].
      destruct (OrderedMap.find _ _) as [[g1 g2]|]; destruct (negb _);
        injection H as <- <-; framed.
Qed.

Lemma feed_frame (tokens : list Z) (n linenum : Z) (v : verdict) (n' : Z) (M M' : model) :
  feed tokens n linenum M = Ok (v, n', M') ->
  same_background M M' /\ written (members M') = written (members M).
Proof.
  revert n M; induction tokens as [|token rest IH]; intros n M H; cbn [feed] in H.
  - injection H as <- <- <-. split; [apply same_background_refl|reflexivity].
  - apply bind_Ok in H as ([v1 M1] & H1 & H).
    apply processInputValue_frame in H1 as [Hb Hw].
    destruct v1.
    + apply IH in H as [Hb' Hw']. split; [eapply same_background_trans; eauto|congruence].
    + injection H as <- <- <-. split; assumption.
Qed.

Lemma assign_length {A : Type} (n : nat) (a : A) : List.length (assign n a) = n.
Proof. apply repeat_length. Qed.

Lemma KLModel_reset_eq (m : KLModel.t) :
  KLModel.reset m
  = KLModel.mk (reset_counters (KLModel.base m))
      (assign (List.length (KLModel.m_P1numerators m)) 0)
      (assign (List.length (KLModel.m_P2numerators m)) 0)
      (KLModel.m_Q1contrib m) (KLModel.m_Q2contrib m) (KLModel.m_logsOfObservationTallies m).
Proof.
  destruct m as [b P1 P2 Q1 Q2 logs]. unfold KLModel.reset. cbn. destruct P2; reflexivity.
Qed.

Lemma KLsModel_reset_eq (m : KLsModel.t) :
  KLsModel.reset m
  = KLsModel.mk (reset_counters (KLsModel.base m))
      (assign (List.length (KLsModel.m_Ps1numerators m)) 0)
      (assign (List.length (KLsModel.m_Ps2numerators m)) 0)
      (KLsModel.m_Qs1contrib m) (KLsModel.m_Qs2contrib m)
      (KLsModel.m_logsOfObservationTallies m) (KLsModel.m_unorderedStatePairDecompositions m).
Proof.
  destruct m as [b P1 P2 Q1 Q2 logs table]. unfold KLsModel.reset. cbn.
  destruct P2; reflexivity.
Qed.

Ltac field_by_field :=
  repeat split; cbn;
  first [reflexivity | congruence
        | rewrite ?assign_length, ?repeat_length, ?app_nil_r; reflexivity].

Ltac written_null retVal :=
  exists [], [], [retVal]; split;
  [field_by_field | split; [reflexivity|split; [reflexivity|eexists; reflexivity]]].

Ltac written_records :=
  eexists [_], [_], []; split;
  [field_by_field | split; [reflexivity|eexists; eexists; repeat split; reflexivity]].

(** One evaluation writes one record, clears the model for the next line
    and leaves the background as it is. *)
Lemma computeAndWriteMetric_effect (M M' : model) :
  computeAndWriteMetric M = Ok M' ->
  same_background M M' /\ cleared M'
  /\ exists obs scores nulls,
       appended (members M) (members M') obs scores nulls
       /\ one_record (writingNulls M) (m_chrom (members M)) (m_curBegPos (members M))
            (m_curEndPos (members M)) obs scores nulls.
Proof.
  intros H. destruct M as [m|m|m]; cbn [computeAndWriteMetric AnyModel] in H;
    apply bind_Ok in H as (m' & H & E); injection E as <-;
    cbn [writingNulls members AnyModel].
  - unfold KLModel.computeAndWriteMetric in H.
    apply bind_Ok in H as ([retVal contrib] & _ & H).
    apply bind_Ok in H as (b' & Hb & H). injection H as <-.
    rewrite KLModel_reset_eq. unfold KLModel.writingNulls.
    destruct (m_writeNullMetric (KLModel.base m)) eqn:Hmode.
    + injection Hb as <-.
      split; [field_by_field | split; [field_by_field | written_null retVal]].
    + apply bind_Ok in Hb as ([position maxContributor] & _ & Hb). injection Hb as <-.
      split; [field_by_field | split; [field_by_field | written_records]].
  - unfold KLsModel.computeAndWriteMetric in H.
    apply bind_Ok in H as (st & _ & H).
    apply bind_Ok in H as (b' & Hb & H). injection H as <-.
    rewrite KLsModel_reset_eq. unfold KLsModel.writingNulls.
    destruct (m_writeNullMetric (KLsModel.base m)) eqn:Hmode.
    + injection Hb as <-.
      split; [field_by_field
             | split; [field_by_field | written_null (KLsModel.retVal st)]].
    + apply bind_Ok in Hb as ([s1 s2] & _ & Hb).
      apply bind_Ok in Hb as ([position maxContributor] & _ & Hb). injection Hb as <-.
      split; [field_by_field | split; [field_by_field | written_records]].
  - unfold KLssModel.computeAndWriteMetric in H.
    apply bind_Ok in H as (st & _ & H).
    apply bind_Ok in H as (b' & Hb & H). injection H as <-.
    unfold KLssModel.reset, KLssModel.writingNulls.
    destruct (m_writeNullMetric (KLssModel.base m)) eqn:Hmode.
    + injection Hb as <-.
      split; [field_by_field
             | split; [field_by_field | written_null (KLssModel.retVal st)]].
    + destruct (_ =? 0); [discriminate|].
      destruct (KLssModel.row_column _ _) as [s1 s2].
      apply bind_Ok in Hb as ([position maxContributor] & _ & Hb). injection Hb as <-.
      split; [field_by_field | split; [field_by_field | written_records]].
Qed.

Lemma one_record_is_a_line (nulls : bool) (chrom : string) (curBegPos curEndPos : Z)
    (obs : list obs_line) (scores : list scores_line) (values : list float) :
  one_record nulls chrom curBegPos curEndPos obs scores values ->
  records_of_lines nulls 1 obs scores values.
Proof.
  unfold one_record, records_of_lines. destruct nulls.
  - intros (-> & -> & r & ->). repeat split.
  - intros (-> & o & s & -> & -> & Ho & Hs). repeat split.
    cbn [map]. now rewrite Ho, Hs.
Qed.

Lemma records_of_lines_app (nulls : bool) (n n' : nat)
    (obs obs' : list obs_line) (scores scores' : list scores_line)
    (values values' : list float) :
  records_of_lines nulls n obs scores values ->
  records_of_lines nulls n' obs' scores' values' ->
  records_of_lines nulls (n + n') (obs ++ obs') (scores ++ scores') (values ++ values').
Proof.
  unfold records_of_lines. destruct nulls.
  - intros (-> & -> & H) (-> & -> & H'). repeat split. rewrite length_app. lia.
  - intros (-> & H1 & H2 & H3) (-> & H1' & H2' & H3').
    repeat split; rewrite ?length_app, ?map_app; try lia. congruence.
Qed.

Lemma appended_trans (b1 b2 b3 : Base)
    (obs obs' : list obs_line) (scores scores' : list scores_line)
    (values values' : list float) :
  appended b1 b2 obs scores values -> appended b2 b3 obs' scores' values' ->
  appended b1 b3 (obs ++ obs') (scores ++ scores') (values ++ values').
Proof.
  intros (H1 & H2 & H3) (K1 & K2 & K3). unfold appended.
  rewrite K1, K2, K3, H1, H2, H3, !app_assoc. repeat split.
Qed.

Lemma appended_written (b b1 b2 : Base)
    (obs : list obs_line) (scores : list scores_line) (values : list float) :
  written b1 = written b -> appended b1 b2 obs scores values ->
  appended b b2 obs scores values.
Proof.
  unfold written, appended. intros [= E1 E2 E3] (H1 & H2 & H3).
  rewrite H1, H2, H3, E1, E2, E3. repeat split.
Qed.

Lemma same_background_mode (M1 M2 : model) :
  same_background M1 M2 -> writingNulls M1 = writingNulls M2.
Proof.
  intros (_ & _ & _ & _ & Hmode & _ & H).
  destruct M1, M2; try contradiction; exact Hmode.
Qed.

Lemma process_line_effect (numExpected linenum : Z) (tokens : list Z) (M M' : model) :
  process_line numExpected linenum tokens M = Ok (Accepted, M') ->
  same_background M M' /\ cleared M'
  /\ exists obs scores values,
       appended (members M) (members M') obs scores values
       /\ records_of_lines (writingNulls M) 1 obs scores values.
Proof.
  intros H. unfold process_line in H. destruct tokens as [|token rest]; [discriminate|].
  apply bind_Ok in H as ([[v n] M1] & Hfeed & H).
  destruct v; [|discriminate].
  destruct (negb (n =? numExpected)); [discriminate|].
  apply bind_Ok in H as (M2 & Hcompute & H). injection H as <-.
  apply feed_frame in Hfeed as [Hb Hw].
  apply computeAndWriteMetric_effect in Hcompute
    as (Hb' & Hclear & obs & scores & values & Happ & Hone).
  split; [eapply same_background_trans; eauto|]. split; [exact Hclear|].
  exists obs, scores, values. split.
  - eapply appended_written; eauto.
  - apply one_record_is_a_line in Hone.
    now rewrite (same_background_mode M M1 Hb).
Qed.

Lemma process_lines_effect (numExpected linenum : Z) (ifs : list (list Z)) (M M' : model) :
  process_lines numExpected linenum ifs M = Ok (Accepted, M') ->
  same_background M M' /\ (ifs <> [] -> cleared M')
  /\ exists obs scores values,
       appended (members M) (members M') obs scores values
       /\ records_of_lines (writingNulls M) (List.length ifs) obs scores values.
Proof.
  revert linenum M; induction ifs as [|tokens rest IH]; intros linenum M H;
    cbn [process_lines] in H.
  - injection H as <-. split; [apply same_background_refl|]. split; [congruence|].
    exists [], [], []. split; [repeat split; cbn; now rewrite app_nil_r|].
    unfold records_of_lines. destruct (writingNulls M); repeat split.
  - apply bind_Ok in H as ([v M1] & Hline & H). destruct v; [|discriminate].
    apply process_line_effect in Hline as (Hb & Hclear & obs & scores & values & Happ & Hrec).
    pose proof (IH _ _ H) as (Hb' & Hclear' & obs' & scores' & values' & Happ' & Hrec').
    split; [eapply same_background_trans; eauto|]. split.
    + intros _. destruct rest as [|next rest'].
      * cbn [process_lines] in H. injection H as <-. exact Hclear.
      * apply Hclear'. discriminate.
    + exists (obs ++ obs'), (scores ++ scores'), (values ++ values').
      split; [eapply appended_trans; eauto|].
      rewrite <- (same_background_mode M M1 Hb) in Hrec'.
      exact (records_of_lines_app _ 1 (List.length rest) _ _ _ _ _ _ Hrec Hrec').
Qed.





(** * The dominant state *)

Lemma FloatAbs_LT_finite (x y : Q) :
  FloatAbs_LT (IEEE.Fin x) (IEEE.Fin y) = true <-> (Qabs x < Qabs y)%Q.
Proof.
  unfold FloatAbs_LT, fabs, IEEE.abs, IEEE.ltb.
  destruct (Qcompare (Qred (Qabs x)) (Qred (Qabs y))) eqn:E.
  - apply Qeq_alt in E. rewrite !Qred_correct in E. split; [discriminate|].
    intros H. rewrite E in H. exfalso. exact (Qlt_irrefl _ H).
  - apply Qlt_alt in E. rewrite !Qred_correct in E. split; [intros _; exact E|reflexivity].
  - apply Qgt_alt in E. rewrite !Qred_correct in E. split; [discriminate|].
    intros H. exfalso. apply (Qlt_irrefl (Qabs x)). now apply Qlt_trans with (Qabs y).
Qed.

Lemma finite_list (v : list float) :
  Forall finite v -> exists qs, v = map IEEE.Fin qs.
Proof.
  induction 1 as [|a v [q ->] _ [qs ->]]; [now exists []|]. now exists (q :: qs).
Qed.

Lemma max_element_from_first_greatest (t p : list Q) (i0 : nat) (q0 : Q) :
  nth_error p i0 = Some q0 ->
  (forall j y, nth_error p j = Some y -> (Qabs y <= Qabs q0)%Q) ->
  (forall j y, (j < i0)%nat -> nth_error p j = Some y -> (Qabs y < Qabs q0)%Q) ->
  exists i q,
    max_element_from (Z.of_nat i0, IEEE.Fin q0) (Z.of_nat (List.length p)) (map IEEE.Fin t)
    = (Z.of_nat i, IEEE.Fin q)
    /\ nth_error (p ++ t) i = Some q
    /\ (forall j y, nth_error (p ++ t) j = Some y -> (Qabs y <= Qabs q)%Q)
    /\ (forall j y, (j < i)%nat -> nth_error (p ++ t) j = Some y -> (Qabs y < Qabs q)%Q).
Proof.
  revert p i0 q0. induction t as [|y t IH]; intros p i0 q0 Hnth Hmax Hfirst.
  - exists i0, q0. rewrite app_nil_r. cbn [map max_element_from]. auto.
  - cbn [map max_element_from snd].
    assert (Hi0 : (i0 < List.length p)%nat) by (apply nth_error_Some; congruence).
    replace (Z.of_nat (List.length p) + 1) with (Z.of_nat (List.length (p ++ [y])))
      by (rewrite length_app; cbn [List.length]; lia).
    replace (p ++ y :: t) with ((p ++ [y]) ++ t) by (now rewrite <- app_assoc).
    destruct (FloatAbs_LT (IEEE.Fin q0) (IEEE.Fin y)) eqn:E.
    + apply FloatAbs_LT_finite in E.
      apply (IH (p ++ [y]) (List.length p) y).
      * rewrite nth_error_app2 by lia. now rewrite Nat.sub_diag.
      * intros j z Hj. destruct (Nat.lt_ge_cases j (List.length p)) as [Hlt|Hge].
        -- rewrite nth_error_app1 in Hj by lia.
           apply Qle_trans with (Qabs q0); [eapply Hmax; eauto|now apply Qlt_le_weak].
        -- rewrite nth_error_app2 in Hj by lia.
           destruct (j - List.length p)%nat as [|k]; cbn in Hj;
             [injection Hj as <-; apply Qle_refl|destruct k; discriminate].
      * intros j z Hj Hz. rewrite nth_error_app1 in Hz by lia.
        apply Qle_lt_trans with (Qabs q0); [eapply Hmax; eauto|exact E].
    + assert (E' : ~ (Qabs q0 < Qabs y)%Q)
        by (intros F; apply FloatAbs_LT_finite in F; congruence).
      apply Qnot_lt_le in E'.
      apply (IH (p ++ [y]) i0 q0).
      * now rewrite nth_error_app1 by lia.
      * intros j z Hj. destruct (Nat.lt_ge_cases j (List.length p)) as [Hlt|Hge].
        -- rewrite nth_error_app1 in Hj by lia. eapply Hmax; eauto.
        -- rewrite nth_error_app2 in Hj by lia.
           destruct (j - List.length p)%nat as [|k]; cbn in Hj;
             [injection Hj as <-; exact E'|destruct k; discriminate].
      * intros j z Hj Hz. rewrite nth_error_app1 in Hz by lia. eapply Hfirst; eauto.
Qed.

(** X6. [max_element] with [FloatAbs_LT], which picks the dominant state:
    over contributions that are numbers it returns the first position of
    greatest absolute value: no contribution is greater in absolute value,
    and every earlier one is smaller. *)
Theorem max_element_is_first_greatest (v : list float) (i : Z) (x : float) :
  Forall finite v -> max_element v = Ok (i, x) ->
  0 <= i < Z.of_nat (List.length v)
  /\ nth_error v (Z.to_nat i) = Some x
  /\ (forall j y, nth_error v j = Some y -> FloatAbs_LT x y = false)
  /\ (forall j y, Z.of_nat j < i -> nth_error v j = Some y -> FloatAbs_LT y x = true).
Proof.
  intros Hfin H. destruct (finite_list v Hfin) as [qs ->].
  destruct qs as [|q0 qs]; [discriminate|]. cbn [map max_element] in H.
  injection H as H.
  destruct (max_element_from_first_greatest qs [q0] 0 q0 eq_refl) as (k & q & Hk & Hnth & Hmax & Hfirst).
  - intros [|j] y Hy; cbn in Hy; [injection Hy as <-; apply Qle_refl|destruct j; discriminate].
  - intros j y Hj. lia.
  - cbn [List.length app] in *. change (Z.of_nat 0) with 0 in Hk. change (Z.of_nat 1) with 1 in Hk.
    rewrite Hk in H. injection H as <- <-.
    assert (Hlen : (k < List.length (q0 :: qs))%nat) by (apply nth_error_Some; congruence).
    rewrite length_map. split; [cbn [List.length] in *; lia|].
    rewrite Nat2Z.id. split.
    + change (IEEE.Fin q0 :: map IEEE.Fin qs) with (map IEEE.Fin (q0 :: qs)).
      now rewrite nth_error_map, Hnth.
    + change (IEEE.Fin q0 :: map IEEE.Fin qs) with (map IEEE.Fin (q0 :: qs)).
      split.
      * intros j y Hy. rewrite nth_error_map in Hy.
        destruct (nth_error (q0 :: qs) j) as [z|] eqn:Hz; [|discriminate].
        injection Hy as <-. destruct (FloatAbs_LT _ _) eqn:E; [|reflexivity].
        apply FloatAbs_LT_finite in E. specialize (Hmax j z Hz).
        exfalso. apply (Qlt_irrefl (Qabs q)). now apply Qlt_le_trans with (Qabs z).
      * intros j y Hj Hy. rewrite nth_error_map in Hy.
        destruct (nth_error (q0 :: qs) j) as [z|] eqn:Hz; [|discriminate].
        injection Hy as <-. apply FloatAbs_LT_finite. apply (Hfirst j z); [lia|exact Hz].
Qed.

(** The contributions [1/2, -2, 2, 1]: the dominant state is the second. *)
Lemma max_element_is_first_greatest_witness :
  max_element [IEEE.Fin (1 # 2); IEEE.Fin (-2); IEEE.Fin 2; IEEE.Fin 1] = Ok (1, IEEE.Fin (-2))
  /\ FloatAbs_LT (IEEE.Fin (-2)) (IEEE.Fin 2) = false
  /\ FloatAbs_LT (IEEE.Fin (1 # 2)) (IEEE.Fin (-2)) = true.
Proof.
  assert (H : max_element [IEEE.Fin (1 # 2); IEEE.Fin (-2); IEEE.Fin 2; IEEE.Fin 1]
              = Ok (1, IEEE.Fin (-2))) by (vm_compute; reflexivity).
  assert (Hfin : Forall finite [IEEE.Fin (1 # 2); IEEE.Fin (-2); IEEE.Fin 2; IEEE.Fin 1])
    by (repeat constructor; eexists; reflexivity).
  split; [exact H|].
  destruct (max_element_is_first_greatest _ 1 (IEEE.Fin (-2)) Hfin H)
    as (_ & _ & Hmax & Hfirst).
  split; [exact (Hmax 2%nat _ eq_refl) | apply (Hfirst 0%nat); [lia|reflexivity]].
Defined.

(** * The rows of a variant-3 background *)

Lemma replace_nth_app {A : Type} (done todo : list A) (old new : A) :
  replace_nth (List.length done) new (done ++ old :: todo) = done ++ new :: todo.
Proof. induction done as [|d done IH]; cbn; [reflexivity|now rewrite IH]. Qed.

(** The loop that overwrites [row] with the values of a later line: it
    takes values while [row] has room, and one more when the line still
    has one. *)
Lemma overwrite_inv (tokens done todo : list Z) :
  Z.of_nat (List.length done) + Z.of_nat (List.length todo) < 2 ^ 32 ->
  KLssModel.overwrite tokens (Z.of_nat (List.length done)) (done ++ todo)
  = if (List.length tokens <=? List.length todo)%nat
    then Ok (Z.of_nat (List.length done) + Z.of_nat (List.length tokens),
             done ++ map u32 tokens ++ skipn (List.length tokens) todo, [])
    else Ok (Z.of_nat (List.length done) + Z.of_nat (List.length todo),
             done ++ map u32 (firstn (List.length todo) tokens),
             skipn (S (List.length todo)) tokens).
Proof.
  revert done todo. induction tokens as [|token rest IH]; intros done todo Hlen.
  - cbn. now rewrite Z.add_0_r.
  - cbn [KLssModel.overwrite]. rewrite length_app.
    destruct todo as [|old todo].
    + replace (Z.of_nat (List.length done) <? Z.of_nat (List.length done + List.length []))
        with false by (symmetry; apply Z.ltb_ge; cbn [List.length]; lia).
      cbn. now rewrite Z.add_0_r.
    + cbn [List.length] in *.
      replace (Z.of_nat (List.length done) <? Z.of_nat (List.length done + S (List.length todo)))
        with true by (symmetry; apply Z.ltb_lt; lia).
      rewrite store_Ok by (rewrite length_app; cbn [List.length]; lia).
      rewrite Nat2Z.id, replace_nth_app. cbn [bind].
      rewrite u32_small by lia.
      replace (Z.of_nat (List.length done) + 1) with (Z.of_nat (List.length (done ++ [u32 token])))
        by (rewrite length_app; cbn [List.length]; lia).
      replace (done ++ u32 token :: todo) with ((done ++ [u32 token]) ++ todo)
        by (now rewrite <- app_assoc).
      rewrite IH by (rewrite length_app; cbn [List.length]; lia).
      rewrite length_app. cbn [List.length Nat.leb map firstn skipn].
      destruct (List.length rest <=? List.length todo)%nat.
      * replace (Z.of_nat (List.length done + 1) + Z.of_nat (List.length rest))
          with (Z.of_nat (List.length done) + Z.of_nat (S (List.length rest))) by lia.
        now rewrite <- !app_assoc.
      * replace (Z.of_nat (List.length done + 1) + Z.of_nat (List.length todo))
          with (Z.of_nat (List.length done) + Z.of_nat (S (List.length todo))) by lia.
        now rewrite <- !app_assoc.
Qed.

(** X7. A later row of a variant-3 background against the [numCols] values
    of the first: with fewer values it is rejected; with [numCols] values it
    replaces [row]; with exactly one value more it is accepted as well, the
    last value dropped; with two or more values more it is rejected. *)
Theorem later_row_length_check
    (linenum numCols numStates : Z) (row tokens : list Z) (tallyMatrix : list (list Z)) :
  1 <= linenum < 2 ^ 32 - 1 ->
  Z.of_nat (List.length row) = numCols -> 1 <= numCols < 2 ^ 32 ->
  tokens <> [] ->
  let st := (linenum, numCols, row, tallyMatrix, numStates) in
  let n := Z.of_nat (List.length tokens) in
  KLssModel.read_row st tokens
  = if n <? numCols then Ok (Reported (TooFewColumns numCols n (linenum + 1)), st)
    else if n <=? numCols + 1 then
      let row' := map u32 (firstn (List.length row) tokens) in
      Ok (Accepted, (linenum + 1, numCols, row', tallyMatrix ++ [row'], numStates))
    else Ok (Reported (TooManyColumns numCols (linenum + 1)), st).
Proof.
  intros Hline Hrow Hcols Hne. cbv zeta. unfold KLssModel.read_row.
  rewrite u32_small by lia.
  destruct tokens as [|token rest]; [congruence|]. cbv beta iota.
  remember (token :: rest) as tokens eqn:Htok.
  set (n := Z.of_nat (List.length tokens)).
  replace (linenum + 1 =? 1) with false by (symmetry; apply Z.eqb_neq; lia).
  pose proof (overwrite_inv tokens [] row) as Hover.
  cbn [List.length app] in Hover. change (Z.of_nat 0) with 0 in Hover.
  rewrite Hover by lia. clear Hover.
  destruct (Nat.leb_spec (List.length tokens) (List.length row)) as [Hle|Hgt].
  - cbn [bind]. rewrite Z.add_0_l. fold n.
    destruct (Z.ltb_spec n numCols) as [Hlt|Hge].
    + replace (n =? numCols) with false by (symmetry; apply Z.eqb_neq; lia).
      reflexivity.
    + assert (Heq : List.length tokens = List.length row) by lia.
      replace (n =? numCols) with true by (symmetry; apply Z.eqb_eq; lia).
      replace (n <=? numCols + 1) with true by (symmetry; apply Z.leb_le; lia).
      cbn [negb]. rewrite <- Heq, firstn_all, skipn_all2, app_nil_r by lia.
      reflexivity.
  - cbn [bind]. rewrite Z.add_0_l.
    replace (n <? numCols) with false by (symmetry; apply Z.ltb_ge; lia).
    replace (Z.of_nat (List.length row) =? numCols) with true
      by (symmetry; apply Z.eqb_eq; lia).
    cbn [negb].
    destruct (Z.leb_spec n (numCols + 1)) as [Hle|Hgt'].
    + rewrite skipn_all2 by lia. reflexivity.
    + destruct (skipn (S (List.length row)) tokens) as [|x unread] eqn:Hskip;
        [|reflexivity].
      apply (f_equal (@List.length Z)) in Hskip. rewrite length_skipn in Hskip.
      cbn [List.length] in Hskip. lia.
Qed.

(** After a first row of four values, a row of five values is accepted
    and its fifth value dropped. *)
Lemma later_row_length_check_witness :
  KLssModel.read_row (1, 4, [2; 1; 1; 1], [[2; 1; 1; 1]], 2) [1; 2; 1; 1; 9]
  = Ok (Accepted, (2, 4, [1; 2; 1; 1], [[2; 1; 1; 1]; [1; 2; 1; 1]], 2)).
Proof.
  apply (later_row_length_check 1 4 2 [2; 1; 1; 1] [1; 2; 1; 1; 9]
           [[2; 1; 1; 1]]); try lia; [reflexivity|discriminate].
Defined.

Lemma read_row_keeps_numStates
    (linenum numCols numStates : Z) (row tokens : list Z) (tallyMatrix : list (list Z))
    (linenum' numCols' numStates' : Z) (row' : list Z) (tallyMatrix' : list (list Z)) :
  1 <= linenum < 2 ^ 32 - 1 ->
  KLssModel.read_row (linenum, numCols, row, tallyMatrix, numStates) tokens
  = Ok (Accepted, (linenum', numCols', row', tallyMatrix', numStates')) ->
  linenum' = linenum + 1 /\ numStates' = numStates
  /\ List.length tallyMatrix' = S (List.length tallyMatrix).
Proof.
  intros Hline H. unfold KLssModel.read_row in H. rewrite u32_small in H by lia.
  destruct tokens as [|token rest]; [discriminate|].
  replace (linenum + 1 =? 1) with false in H by (symmetry; apply Z.eqb_neq; lia).
  apply bind_Ok in H as ([[fieldnum row''] unread] & _ & H).
  destruct (negb _); [discriminate|]. destruct unread; [|discriminate].
  injection H as <- <- <- <- <-. rewrite length_app. cbn [List.length]. repeat split. lia.
Qed.

Lemma read_rows_keeps_numStates (infile : list (list Z))
    (linenum numCols numStates : Z) (row : list Z) (tallyMatrix : list (list Z))
    (linenum' numCols' numStates' : Z) (row' : list Z) (tallyMatrix' : list (list Z)) :
  1 <= linenum -> linenum + Z.of_nat (List.length infile) < 2 ^ 32 ->
  KLssModel.read_rows infile (linenum, numCols, row, tallyMatrix, numStates)
  = Ok (Accepted, (linenum', numCols', row', tallyMatrix', numStates')) ->
  numStates' = numStates
  /\ List.length tallyMatrix' = (List.length tallyMatrix + List.length infile)%nat.
Proof.
  revert linenum numCols row tallyMatrix.
  induction infile as [|tokens rest IH]; intros linenum numCols row tallyMatrix H1 Hlen H;
    cbn [KLssModel.read_rows] in H.
  - injection H as <- <- <- <- <-. cbn [List.length]. split; [reflexivity|lia].
  - cbn [List.length] in Hlen.
    apply bind_Ok in H as ([v [[[[l1 c1] r1] t1] n1]] & Hrow & H).
    destruct v; [|discriminate].
    apply read_row_keeps_numStates in Hrow as (-> & -> & Ht); [|lia].
    apply IH in H as [-> Hlen']; [|lia|lia].
    split; [reflexivity|]. cbn [List.length]. lia.
Qed.

(** X8. Variant 3 takes the number of states from the first row of the
    background it is reading, whatever number of states the model held: the
    backgrounds of two groups are never compared, and the second sets
    [m_numStates] anew. *)
Theorem variant3_background_sets_numStates (logf : float -> float)
    (first : list Z) (rest : list (list Z)) (Nsites : Z) (m m' : KLssModel.t) :
  Z.of_nat (List.length (first :: rest)) < 2 ^ 32 ->
  KLssModel.getQcontrib logf (first :: rest) Nsites m = Ok (Accepted, m') ->
  KLssModel.implied_numStates (u32 (Z.of_nat (List.length first)))
  = Ok (m_numStates (KLssModel.base m')).
Proof.
  intros Hlen H. unfold KLssModel.getQcontrib in H.
  apply bind_Ok in H as ([v [[[[l1 c1] r1] t1] n1]] & Hrows & H).
  destruct v; [|discriminate].
  apply bind_Ok in H as (g & _ & H). apply bind_Ok in H as (transposed & _ & H).
  injection H as <-.
  cbn [KLssModel.read_rows] in Hrows.
  apply bind_Ok in Hrows as ([v [[[[l0 c0] r0] t0] n0]] & Hrow & Hrows).
  unfold KLssModel.read_row in Hrow. destruct first as [|token first']; [|].
  { injection Hrow as <- <- <- <- <- <-. discriminate. }
  cbv beta iota zeta in Hrow. change (u32 (0 + 1) =? 1) with true in Hrow.
  cbv beta iota in Hrow.
  apply bind_Ok in Hrow as (n & Hn & Hrow). injection Hrow as <- <- <- <- <- <-.
  cbn [List.length] in Hlen.
  apply read_rows_keeps_numStates in Hrows as [-> _];
    [|change (u32 1) with 1; lia|change (u32 1) with 1; lia].
  rewrite Z.add_0_l in Hn. rewrite Hn. f_equal.
  cbn [KLssModel.base KLssModel.with_base with_size m_numStates].
  destruct (KLssModel.m_Qss1contrib _);
    cbn [KLssModel.base KLssModel.with_Qss1contrib KLssModel.with_Qss2contrib];
    destruct (m_group1size _ =? 0);
    cbn [KLssModel.base KLssModel.with_base with_group1size with_group2size with_numStates
         m_numStates]; reflexivity.
Qed.

(** A model that held three states reads a background of four columns:
    it holds two states afterwards. *)
Lemma variant3_background_sets_numStates_witness :
  let m := KLssModel.with_base
             (with_numStates 3 (init None None (Some String.EmptyString) String.EmptyString))
             (KLssModel.create (init None None (Some String.EmptyString) String.EmptyString)) in
  exists m',
    KLssModel.getQcontrib logf_sample [[2; 1; 1; 1]] 5 m = Ok (Accepted, m')
    /\ KLssModel.implied_numStates (u32 (Z.of_nat (List.length [2; 1; 1; 1])))
       = Ok (m_numStates (KLssModel.base m'))
    /\ m_numStates (KLssModel.base m) = 3
    /\ m_numStates (KLssModel.base m') = 2.
Proof.
  intros m. eexists.
  split; [vm_compute; reflexivity|].
  split; [|split; reflexivity].
  apply (variant3_background_sets_numStates logf_sample [2; 1; 1; 1] [] 5 m);
    [vm_compute; reflexivity|vm_compute; reflexivity].
Defined.

(** * The backgrounds of two groups *)

Lemma fold_tally_step_length (logf : float -> float) (LOG_Nsites : float) (line : list Z)
    (acc : Z * list float) :
  List.length (snd (fold_left (tally_step logf LOG_Nsites) line acc))
  = (List.length (snd acc) + List.length line)%nat.
Proof.
  revert acc. induction line as [|t line IH]; intros acc; cbn [fold_left List.length].
  - lia.
  - rewrite IH. unfold tally_step. cbn [snd]. rewrite length_app. cbn [List.length]. lia.
Qed.

(** What an accepted first background of variant 1 leaves: a state per
    tally, and nothing yet for a second group. *)
Lemma KLModel_first_background (logf : float -> float) (line : list Z) (rest : list (list Z))
    (Nsites : Z) (b : Base) (m1 : KLModel.t) :
  m_group1size b = 0 ->
  KLModel.getQcontrib logf (line :: rest) Nsites (KLModel.create b) = Ok (Accepted, m1) ->
  rest = []
  /\ m_numStates (KLModel.base m1) = u32 (Z.of_nat (List.length line))
  /\ KLModel.m_Q2contrib m1 = [].
Proof.
  intros Hb H. unfold KLModel.getQcontrib in H.
  destruct line as [|t line]; [discriminate|].
  cbn [KLModel.base KLModel.create KLModel.m_Q1contrib KLModel.m_Q2contrib] in H.
  rewrite Hb in H. change (0 =? 0) with true in H. cbv beta iota in H.
  pose proof (fold_tally_step_length logf (logf (float_of Nsites)) (t :: line) (0, [])) as Hlen.
  destruct (fold_left _ _ _) as [total contrib]. cbn [snd List.length] in Hlen.
  destruct rest; [|discriminate]. cbn [negb andb] in H.
  apply bind_Ok in H as (g & _ & H). apply bind_Ok in H as (logs & _ & H).
  injection H as <-. cbn. rewrite Hlen. repeat split.
Qed.

(** X9. In variant 1, the background of a second group whose number of
    tallies differs from that of the first group is rejected, both numbers
    of states reported. *)
Theorem second_background_must_agree_on_states (logf : float -> float) (nulls : bool)
    (chrom : string) (Nsites : Z) (line1 line2 : list Z) (M1 : model) :
  startup logf measure_KL nulls chrom Nsites [line1] None = Ok (Accepted, M1) ->
  m_group1size (members M1) <> 0 ->
  line2 <> [] ->
  Z.of_nat (List.length line1) < 2 ^ 32 -> Z.of_nat (List.length line2) < 2 ^ 32 ->
  List.length line2 <> List.length line1 ->
  exists M',
    startup logf measure_KL nulls chrom Nsites [line1] (Some [line2])
    = Ok (Reported (NumStatesMismatch (Z.of_nat (List.length line1))
                      (Z.of_nat (List.length line2))), M').
Proof.
  intros H1 Hg Hne Hlen1 Hlen2 Hdiff. unfold startup in *.
  apply bind_Ok in H1 as ([v M] & Hfirst & H1). rewrite Hfirst. cbn [bind].
  assert (E : (v, M) = (Accepted, M1)) by (destruct v; injection H1; congruence).
  injection E as -> ->. clear H1.
  cbn [getQcontrib lift] in Hfirst.
  apply bind_Ok in Hfirst as ([v m1] & Hfirst & E). cbn [fst snd] in E.
  injection E as -> <-.
  apply KLModel_first_background in Hfirst as (_ & Hn & HQ2);
    [|destruct nulls; reflexivity].
  cbn [members AnyModel] in Hg. cbn [getQcontrib lift].
  unfold KLModel.getQcontrib.
  destruct line2 as [|t line2']; [congruence|]. set (line2 := t :: line2') in *.
  apply Z.eqb_neq in Hg. rewrite Hg. rewrite HQ2.
  pose proof (fold_tally_step_length logf (logf (float_of Nsites)) line2 (0, [])) as Hlen.
  destruct (fold_left _ _ _) as [total contrib]. cbn [snd List.length Nat.add] in Hlen.
  cbn [negb andb KLModel.m_Q2contrib KLModel.with_Q2contrib KLModel.base].
  rewrite Hlen, Hn, !u32_small by lia.
  replace (Z.of_nat (List.length line2) =? Z.of_nat (List.length line1)) with false
    by (symmetry; apply Z.eqb_neq; lia).
  cbn [negb bind fst snd]. eexists. reflexivity.
Qed.

(** A first background of three tallies and a second of two. *)
Lemma second_background_must_agree_on_states_witness :
  exists M1 M',
    startup logf_sample measure_KL false String.EmptyString 5 [[4; 0; 6]] None
    = Ok (Accepted, M1)
    /\ startup logf_sample measure_KL false String.EmptyString 5 [[4; 0; 6]] (Some [[4; 6]])
       = Ok (Reported (NumStatesMismatch 3 2), M').
Proof.
  assert (H1 : exists M1,
             startup logf_sample measure_KL false String.EmptyString 5 [[4; 0; 6]] None
             = Ok (Accepted, M1) /\ m_group1size (members M1) <> 0)
    by (eexists; split; [vm_compute; reflexivity|vm_compute; discriminate]).
  destruct H1 as (M1 & H1 & Hg).
  destruct (second_background_must_agree_on_states logf_sample false String.EmptyString 5
              [4; 0; 6] [4; 6] M1 H1 Hg) as [M' H'];
    [discriminate | vm_compute; reflexivity | vm_compute; reflexivity | discriminate |].
  exists M1, M'. split; [exact H1|exact H'].
Defined.

(** * Variant 1 from the backgrounds to the last line *)

Lemma Forall_replace_nth {A : Type} (P : A -> Prop) (n : nat) (a : A) (v : list A) :
  Forall P v -> P a -> Forall P (replace_nth n a v).
Proof.
  intros Hv Ha. revert n. induction Hv as [|x v Hx Hv IH]; intros n.
  - destruct n; constructor.
  - destruct n; cbn; constructor; auto.
Qed.

Lemma take_coordinate_done (val : Z) (b : Base) :
  coordinates_done b -> take_coordinate val b = None.
Proof.
  intros [H|[H1 H2]]; [now apply take_coordinate_null|now apply take_coordinate_read].
Qed.

(** A count of group 1 is stored. *)
Lemma streaming_count1 (m : KLModel.t) (p1 p2 c : Z) :
  streaming m p1 p2 -> p1 < m_numStates (KLModel.base m) ->
  0 <= c <= m_group1size (KLModel.base m) ->
  exists m',
    processInputValue (u32 c) (OfKL m) = Ok (Accepted, OfKL m')
    /\ streaming m' (p1 + 1) p2.
Proof.
  intros (Hl & Hc & H1 & H2 & Hp1 & Hp2 & Hb1 & Hb2) Hlt Hcount.
  pose proof Hl as (Hn & Hg1 & Hg2 & HP1 & HQ1 & Hsecond & Hlogs & Hsize).
  cbn [processInputValue AnyModel lift]. unfold KLModel.processInputValue.
  rewrite (take_coordinate_done _ _ Hc), H1.
  replace (p1 =? m_numStates (KLModel.base m)) with false by (symmetry; apply Z.eqb_neq; lia).
  rewrite store_Ok by lia. cbn [bind fst snd].
  rewrite !u32_small by lia.
  eexists. split; [reflexivity|].
  destruct m as [b P1 P2 Q1 Q2 logs]. destruct b.
  unfold streaming, loaded, counts_within in *. cbn in *.
  rewrite replace_nth_length.
  repeat split; try assumption; try lia.
  apply Forall_replace_nth; [exact Hb1|lia].
Qed.

(** A count of group 2 is stored once group 1 is full. *)
Lemma streaming_count2 (m : KLModel.t) (p2 c : Z) :
  streaming m (m_numStates (KLModel.base m)) p2 ->
  m_group2size (KLModel.base m) <> 0 ->
  p2 < m_numStates (KLModel.base m) ->
  0 <= c <= m_group2size (KLModel.base m) ->
  exists m',
    processInputValue (u32 c) (OfKL m) = Ok (Accepted, OfKL m')
    /\ m_numStates (KLModel.base m') = m_numStates (KLModel.base m)
    /\ streaming m' (m_numStates (KLModel.base m)) (p2 + 1).
Proof.
  intros (Hl & Hc & H1 & H2 & Hp1 & Hp2 & Hb1 & Hb2) Hg Hlt Hcount.
  pose proof Hl as (Hn & Hg1 & Hg2 & HP1 & HQ1 & Hsecond & Hlogs & Hsize).
  apply Z.eqb_neq in Hg as Hg'. rewrite Hg' in Hsecond. destruct Hsecond as [HP2 HQ2].
  cbn [processInputValue AnyModel lift]. unfold KLModel.processInputValue.
  rewrite (take_coordinate_done _ _ Hc), H1, Z.eqb_refl, Hg', H2.
  replace (p2 =? m_numStates (KLModel.base m)) with false by (symmetry; apply Z.eqb_neq; lia).
  rewrite store_Ok by lia. cbn [bind fst snd].
  rewrite !u32_small by lia.
  eexists. split; [reflexivity|].
  destruct m as [b P1 P2 Q1 Q2 logs]. destruct b.
  unfold streaming, loaded, counts_within in *. cbn in *.
  rewrite replace_nth_length, Hg'.
  repeat split; try assumption; try lia.
  apply Forall_replace_nth; [exact Hb2|lia].
Qed.

Lemma same_background_fields (m m' : KLModel.t) :
  same_background (OfKL m) (OfKL m') ->
  m_numStates (KLModel.base m') = m_numStates (KLModel.base m)
  /\ m_group1size (KLModel.base m') = m_group1size (KLModel.base m)
  /\ m_group2size (KLModel.base m') = m_group2size (KLModel.base m)
  /\ m_writeNullMetric (KLModel.base m') = m_writeNullMetric (KLModel.base m).
Proof. intros (H1 & _ & H3 & H4 & H5 & _). cbn in *. auto. Qed.

Lemma feed_counts1 (counts : list Z) (k linenum : Z) :
  forall (m : KLModel.t) (p1 p2 : Z),
    streaming m p1 p2 ->
    p1 + Z.of_nat (List.length counts) <= m_numStates (KLModel.base m) ->
    counts_within (m_group1size (KLModel.base m)) counts ->
    0 <= k -> k + Z.of_nat (List.length counts) < 2 ^ 32 ->
    exists m',
      feed counts k linenum (OfKL m) = Ok (Accepted, k + Z.of_nat (List.length counts), OfKL m')
      /\ streaming m' (p1 + Z.of_nat (List.length counts)) p2.
Proof.
  revert k. induction counts as [|c counts IH]; intros k m p1 p2 Hs Hlen Hcounts Hk Hk'.
  - exists m. cbn [feed List.length]. rewrite !Z.add_0_r. split; [reflexivity|exact Hs].
  - cbn [List.length] in *. inversion Hcounts as [|c' counts' Hc Hrest]; subst.
    destruct (streaming_count1 m p1 p2 c Hs ltac:(lia) Hc) as (m1 & Hstep & Hs1).
    pose proof (processInputValue_frame _ _ _ _ Hstep) as [Hb _].
    apply same_background_fields in Hb as (En & Eg1 & _).
    cbn [feed]. rewrite Hstep. cbn [bind]. rewrite u32_small by lia.
    assert (Hlen' : p1 + 1 + Z.of_nat (List.length counts) <= m_numStates (KLModel.base m1))
      by (rewrite En; lia).
    assert (Hrest' : counts_within (m_group1size (KLModel.base m1)) counts)
      by (now rewrite Eg1).
    destruct (IH (k + 1) m1 (p1 + 1) p2 Hs1 Hlen' Hrest' ltac:(lia) ltac:(lia))
      as (m' & Hfeed & Hs').
    + exists m'. rewrite Hfeed. split; [f_equal; f_equal; f_equal; lia|].
      replace (p1 + Z.of_nat (S (List.length counts)))
        with (p1 + 1 + Z.of_nat (List.length counts)) by lia.
      exact Hs'.
Qed.

Lemma feed_counts2 (counts : list Z) (k linenum : Z) :
  forall (m : KLModel.t) (p2 : Z),
    streaming m (m_numStates (KLModel.base m)) p2 ->
    m_group2size (KLModel.base m) <> 0 ->
    p2 + Z.of_nat (List.length counts) <= m_numStates (KLModel.base m) ->
    counts_within (m_group2size (KLModel.base m)) counts ->
    0 <= k -> k + Z.of_nat (List.length counts) < 2 ^ 32 ->
    exists m',
      feed counts k linenum (OfKL m) = Ok (Accepted, k + Z.of_nat (List.length counts), OfKL m')
      /\ streaming m' (m_numStates (KLModel.base m)) (p2 + Z.of_nat (List.length counts)).
Proof.
  revert k. induction counts as [|c counts IH]; intros k m p2 Hs Hg Hlen Hcounts Hk Hk'.
  - exists m. cbn [feed List.length]. rewrite !Z.add_0_r. split; [reflexivity|exact Hs].
  - cbn [List.length] in *. inversion Hcounts as [|c' counts' Hc Hrest]; subst.
    destruct (streaming_count2 m p2 c Hs Hg ltac:(lia) Hc) as (m1 & Hstep & En & Hs1).
    pose proof (processInputValue_frame _ _ _ _ Hstep) as [Hb _].
    apply same_background_fields in Hb as (_ & _ & Eg2 & _).
    cbn [feed]. rewrite Hstep. cbn [bind]. rewrite u32_small by lia.
    rewrite <- En in Hs1.
    assert (Hg' : m_group2size (KLModel.base m1) <> 0) by (now rewrite Eg2).
    assert (Hlen' : p2 + 1 + Z.of_nat (List.length counts) <= m_numStates (KLModel.base m1))
      by (rewrite En; lia).
    assert (Hrest' : counts_within (m_group2size (KLModel.base m1)) counts)
      by (now rewrite Eg2).
    destruct (IH (k + 1) m1 (p2 + 1) Hs1 Hg' Hlen' Hrest' ltac:(lia) ltac:(lia))
      as (m' & Hfeed & Hs').
    + exists m'. rewrite Hfeed. split; [f_equal; f_equal; f_equal; lia|].
      rewrite En in Hs'.
      replace (p2 + Z.of_nat (S (List.length counts)))
        with (p2 + 1 + Z.of_nat (List.length counts)) by lia.
      exact Hs'.
Qed.

Lemma feed_app_accepted (a b : list Z) (k k' linenum : Z) (M M' : model) :
  feed a k linenum M = Ok (Accepted, k', M') ->
  feed (a ++ b) k linenum M = feed b k' linenum M'.
Proof.
  revert k M. induction a as [|x a IH]; intros k M H; cbn [feed app] in *.
  - now injection H as <- <-.
  - destruct (processInputValue (u32 x) M) as [[v M1]|f]; cbn [bind] in *; [|discriminate].
    destruct v; [now apply IH|discriminate].
Qed.

Lemma counts_within_zero (g : Z) (n : nat) : 0 <= g -> counts_within g (assign n 0).
Proof.
  intros Hg. unfold counts_within, assign. induction n; cbn; constructor; [lia|assumption].
Qed.

(** A cleared model has no count above the size of a group. *)
Lemma cleared_counts (m : KLModel.t) :
  loaded m -> cleared (OfKL m) ->
  counts_within (m_group1size (KLModel.base m)) (KLModel.m_P1numerators m)
  /\ counts_within (m_group2size (KLModel.base m)) (KLModel.m_P2numerators m).
Proof.
  intros (_ & Hg1 & Hg2 & _) (_ & -> & ->).
  split; apply counts_within_zero; lia.
Qed.

Lemma KLModel_takes_begin (m : KLModel.t) (val : Z) :
  m_writeNullMetric (KLModel.base m) = false ->
  m_numValsProcessedForGroup1 (KLModel.base m) = 0 ->
  m_curBegPos (KLModel.base m) = -1 ->
  processInputValue val (OfKL m)
  = Ok (Accepted, OfKL (KLModel.with_base (with_curBegPos (i32 val) (KLModel.base m)) m)).
Proof.
  intros Hmode Hp1 Hcb. cbn [processInputValue AnyModel]. unfold lift.
  unfold KLModel.processInputValue, take_coordinate. rewrite Hmode, Hp1, Hcb.
  reflexivity.
Qed.

Lemma KLModel_takes_end (m : KLModel.t) (val : Z) :
  m_writeNullMetric (KLModel.base m) = false ->
  m_numValsProcessedForGroup1 (KLModel.base m) = 0 ->
  m_curBegPos (KLModel.base m) <> -1 ->
  m_curEndPos (KLModel.base m) = -1 ->
  processInputValue val (OfKL m)
  = Ok (Accepted, OfKL (KLModel.with_base (with_curEndPos (i32 val) (KLModel.base m)) m)).
Proof.
  intros Hmode Hp1 Hcb Hce. cbn [processInputValue AnyModel]. unfold lift.
  unfold KLModel.processInputValue, take_coordinate. rewrite Hmode, Hp1, Hce.
  apply Z.eqb_neq in Hcb. rewrite Hcb. reflexivity.
Qed.

Lemma coordinates_fed (m : KLModel.t) (beg end_ linenum : Z) :
  loaded m -> cleared (OfKL m) -> m_writeNullMetric (KLModel.base m) = false ->
  i32 (u32 beg) <> -1 -> i32 (u32 end_) <> -1 ->
  exists m',
    feed [beg; end_] 0 linenum (OfKL m) = Ok (Accepted, 2, OfKL m')
    /\ streaming m' 0 0.
Proof.
  intros Hl Hc Hmode Hbeg Hend.
  destruct (cleared_counts m Hl Hc) as [Hb1 Hb2].
  destruct Hc as ((Hp1 & Hp2 & Hcb & Hce & _) & _).
  cbn [members AnyModel] in Hp1, Hp2, Hcb, Hce.
  exists (KLModel.with_base
            (with_curEndPos (i32 (u32 end_))
               (with_curBegPos (i32 (u32 beg)) (KLModel.base m))) m).
  split.
  - cbn [feed]. rewrite (KLModel_takes_begin m (u32 beg) Hmode Hp1 Hcb). cbn [bind].
    rewrite KLModel_takes_end; [reflexivity| | | |].
    + exact Hmode.
    + exact Hp1.
    + exact Hbeg.
    + exact Hce.
  - destruct m as [b P1 P2 Q1 Q2 logs].
    destruct b as [numStates size g1 g2 c1 c2 nulls obs nullValues scores chrom curBeg curEnd].
    unfold streaming, loaded, coordinates_done in *. cbn in *.
    repeat split; try tauto; try lia.
Qed.

Lemma cleared_streaming (m : KLModel.t) :
  loaded m -> cleared (OfKL m) -> m_writeNullMetric (KLModel.base m) = true ->
  streaming m 0 0.
Proof.
  intros Hl Hc Hmode.
  destruct (cleared_counts m Hl Hc) as [Hb1 Hb2].
  destruct Hc as ((Hp1 & Hp2 & _) & _). cbn [members AnyModel] in Hp1, Hp2.
  pose proof Hl as (Hn & _).
  unfold streaming, coordinates_done.
  split; [exact Hl|]. split; [now left|]. repeat split; try assumption; lia.
Qed.

(** The counts of a line, after its coordinates: [k] values are counted
    so far. *)
Lemma counts_fed (m : KLModel.t) (k linenum : Z) (counts1 counts2 : list Z) :
  streaming m 0 0 -> 0 <= k <= 2 ->
  Z.of_nat (List.length counts1) = m_numStates (KLModel.base m) ->
  counts_within (m_group1size (KLModel.base m)) counts1 ->
  (if m_group2size (KLModel.base m) =? 0 then counts2 = []
   else Z.of_nat (List.length counts2) = m_numStates (KLModel.base m)
        /\ counts_within (m_group2size (KLModel.base m)) counts2) ->
  exists m' p1 p2,
    feed (counts1 ++ counts2) k linenum (OfKL m)
    = Ok (Accepted, k + m_size (KLModel.base m), OfKL m')
    /\ streaming m' p1 p2.
Proof.
  intros Hs Hk Hlen1 Hw1 H2.
  pose proof Hs as (Hl & _).
  destruct Hl as (Hn & Hg1 & Hg2 & HP1 & HQ1 & HP2 & Hlogs & Hsize).
  destruct (feed_counts1 counts1 k linenum m 0 0 Hs ltac:(lia) Hw1 ltac:(lia) ltac:(lia))
    as (m1 & Hf1 & Hs1).
  rewrite (feed_app_accepted _ counts2 _ _ _ _ _ Hf1).
  pose proof (feed_frame _ _ _ _ _ _ _ Hf1) as [Hb _].
  apply same_background_fields in Hb as (En & Eg1 & Eg2 & _).
  destruct (m_group2size (KLModel.base m) =? 0) eqn:E2.
  - subst counts2. rewrite HP2 in Hsize. cbn [feed]. exists m1; do 2 eexists.
    split; [|exact Hs1]. rewrite Hsize. cbn [List.length]. do 3 f_equal. lia.
  - destruct H2 as [Hlen2 Hw2]. destruct HP2 as [HP2 HQ2]. apply Z.eqb_neq in E2.
    replace (0 + Z.of_nat (List.length counts1)) with (m_numStates (KLModel.base m1)) in Hs1
      by lia.
    assert (Hg' : m_group2size (KLModel.base m1) <> 0) by (now rewrite Eg2).
    assert (Hlen' : 0 + Z.of_nat (List.length counts2) <= m_numStates (KLModel.base m1))
      by lia.
    assert (Hw' : counts_within (m_group2size (KLModel.base m1)) counts2)
      by (now rewrite Eg2).
    destruct (feed_counts2 counts2 (k + Z.of_nat (List.length counts1)) linenum m1 0
                Hs1 Hg' Hlen' Hw' ltac:(lia) ltac:(lia)) as (m2 & Hf2 & Hs2).
    exists m2; do 2 eexists. split; [|exact Hs2]. rewrite Hf2. do 3 f_equal. lia.
Qed.

(** The values of a fitting line are all taken, and counted as many as
    the driver expects. *)
Lemma line_is_fed (m : KLModel.t) (tokens : list Z) (linenum : Z) :
  loaded m -> cleared (OfKL m) -> line_fits m tokens ->
  exists m' p1 p2,
    feed tokens 0 linenum (OfKL m) = Ok (Accepted, numExpected_of (OfKL m), OfKL m')
    /\ streaming m' p1 p2.
Proof.
  intros Hl Hc (coords & c1 & c2 & -> & Hco & Hlen1 & Hw1 & H2).
  pose proof Hl as (Hn & Hg1 & Hg2 & HP1 & HQ1 & HP2 & Hlogs & Hsize).
  assert (Hsz : 0 <= m_size (KLModel.base m) <= 2 * m_numStates (KLModel.base m)).
  { destruct (m_group2size (KLModel.base m) =? 0).
    - rewrite HP2 in Hsize. cbn [List.length] in Hsize. lia.
    - lia. }
  unfold numExpected_of. cbn [writingNulls size AnyModel].
  unfold KLModel.writingNulls, KLModel.size.
  destruct (m_writeNullMetric (KLModel.base m)) eqn:Emode.
  - subst coords. cbn [app].
    destruct (counts_fed m 0 linenum c1 c2 (cleared_streaming m Hl Hc Emode)
                ltac:(lia) Hlen1 Hw1 H2) as (m' & p1 & p2 & Hf & Hs).
    exists m', p1, p2. split; [|exact Hs]. rewrite Hf. do 3 f_equal.
  - destruct Hco as (beg & end_ & -> & Hbeg & Hend).
    destruct (coordinates_fed m beg end_ linenum Hl Hc Emode Hbeg Hend) as (m0 & Hf0 & Hs0).
    rewrite (feed_app_accepted _ (c1 ++ c2) _ _ _ _ _ Hf0).
    pose proof (feed_frame _ _ _ _ _ _ _ Hf0) as [(En & Es & Eg1 & Eg2 & _) _].
    cbn [members AnyModel] in En, Es, Eg1, Eg2.
    rewrite En in Hlen1. rewrite Eg1 in Hw1. rewrite En, Eg2 in H2.
    destruct (counts_fed m0 2 linenum c1 c2 Hs0 ltac:(lia) Hlen1 Hw1 H2)
      as (m' & p1 & p2 & Hf & Hs).
    exists m', p1, p2. split; [|exact Hs]. rewrite Hf, <- Es. do 3 f_equal.
    rewrite u32_small by lia. lia.
Qed.

Lemma at_count_within {c : container} (g : Z) (v : list Z) (i n : Z) :
  counts_within g v -> at_ c v i = Ok n -> 0 <= n <= g.
Proof.
  intros Hv H. apply at_inv in H as [_ H]. apply nth_error_In in H.
  unfold counts_within in Hv. rewrite Forall_forall in Hv. now apply Hv.
Qed.

Lemma group1_term_defined (denom1 : float) (g1 : Z) (P1 : list Z) (Q1 logs : list float)
    (i : Z) :
  0 <= i < Z.of_nat (List.length P1) ->
  List.length Q1 = List.length P1 ->
  counts_within g1 P1 ->
  g1 < Z.of_nat (List.length logs) ->
  exists t, group1_term denom1 P1 Q1 logs i = Ok t.
Proof.
  intros Hi HQ HP Hlogs. unfold group1_term.
  destruct (at_in_range P1numerators P1 i Hi) as [n Hn].
  pose proof (at_count_within g1 P1 i n HP Hn) as Hng.
  rewrite Hn. cbn [bind].
  destruct (n =? 0); [eexists; reflexivity|].
  destruct (at_in_range Q1contrib Q1 i ltac:(lia)) as [q Hq]. rewrite Hq. cbn [bind].
  destruct (IEEE.ltb (to_double q) sentinel_bound); [eexists; reflexivity|].
  destruct (at_in_range LogsOfObservationTallies logs n ltac:(lia)) as [l Hl].
  rewrite Hl. cbn [bind]. eexists. reflexivity.
Qed.

(** The term of a state is computed within the vectors when no count is
    above the size of its group and the table of logarithms reaches the
    larger group. *)
Lemma term_defined (denom1 denom2 : float) (g1 g2 : Z) (P1 P2 : list Z)
    (Q1 Q2 logs : list float) (i : Z) :
  0 <= i < Z.of_nat (List.length P1) ->
  List.length Q1 = List.length P1 ->
  counts_within g1 P1 ->
  (g2 <> 0 ->
   List.length P2 = List.length P1 /\ List.length Q2 = List.length P1
   /\ counts_within g2 P2) ->
  Z.max g1 g2 < Z.of_nat (List.length logs) ->
  exists t, term denom1 denom2 g2 P1 P2 Q1 Q2 logs i = Ok t.
Proof.
  intros Hi HQ HP H2 Hlogs. unfold term.
  destruct (group1_term_defined denom1 g1 P1 Q1 logs i Hi HQ HP ltac:(lia)) as [t Ht].
  rewrite Ht. cbn [bind].
  destruct (g2 =? 0) eqn:E2; [eexists; reflexivity|].
  apply Z.eqb_neq in E2. destruct (H2 E2) as (HlenP & HlenQ & HP2).
  destruct (at_in_range P2numerators P2 i ltac:(lia)) as [n Hn].
  pose proof (at_count_within g2 P2 i n HP2 Hn) as Hng.
  rewrite Hn. cbn [bind].
  destruct (n =? 0); [eexists; reflexivity|].
  destruct (at_in_range Q2contrib Q2 i ltac:(lia)) as [q Hq]. rewrite Hq. cbn [bind].
  destruct (IEEE.ltb (to_double q) sentinel_bound); [eexists; reflexivity|].
  destruct (at_in_range LogsOfObservationTallies logs n ltac:(lia)) as [l Hl].
  rewrite Hl. cbn [bind]. eexists. reflexivity.
Qed.

Lemma foldM_defined {A B : Type} (body : A -> B -> outcome A) (I : A -> Prop) (l : list B) :
  (forall a b, I a -> In b l -> exists a', body a b = Ok a' /\ I a') ->
  forall a, I a -> exists a', foldM body l a = Ok a' /\ I a'.
Proof.
  induction l as [|b l IH]; intros Hbody a Ha; cbn [foldM].
  - exists a. split; [reflexivity|exact Ha].
  - destruct (Hbody a b Ha (or_introl eq_refl)) as (a1 & Hstep & Ha1).
    rewrite Hstep. cbn [bind]. apply IH; [|exact Ha1].
    intros a2 b2 Ha2 Hin. apply Hbody; [exact Ha2|now right].
Qed.

Lemma KLModel_term_of_defined (m : KLModel.t) (p1 p2 i : Z) :
  streaming m p1 p2 -> 0 <= i < m_numStates (KLModel.base m) ->
  exists t, KLModel.term_of m i = Ok t.
Proof.
  intros (Hl & _ & _ & _ & _ & _ & Hw1 & Hw2) Hi.
  destruct Hl as (Hn & Hg1 & Hg2 & HP1 & HQ1 & HP2 & Hlogs & Hsize).
  unfold KLModel.term_of.
  apply (term_defined _ _ (m_group1size (KLModel.base m))); try lia; try assumption.
  intros Hne. apply Z.eqb_neq in Hne. rewrite Hne in HP2. destruct HP2 as [HP2 HQ2].
  repeat split; [lia|lia|exact Hw2].
Qed.

(** The evaluation loop of a line whose counts are within the groups
    ends, with a score for every state. *)
Lemma KLModel_metric_loop_defined (m : KLModel.t) (p1 p2 : Z) :
  streaming m p1 p2 ->
  exists retVal contribOfEachState,
    KLModel.metric_loop m = Ok (retVal, contribOfEachState)
    /\ Z.of_nat (List.length contribOfEachState) = m_numStates (KLModel.base m).
Proof.
  intros Hs. pose proof Hs as (Hl & _).
  destruct Hl as (Hn & _ & _ & HP1 & _).
  unfold KLModel.metric_loop, KLModel.identifiers.
  destruct (foldM_defined (KLModel.metric_step m)
              (fun acc => Z.of_nat (List.length (snd acc)) = m_numStates (KLModel.base m))
              (range 0 (Z.of_nat (List.length (KLModel.m_P1numerators m)) - 1)))
    with (a := (fzero, assign (Z.to_nat (m_numStates (KLModel.base m))) fzero))
    as ([retVal contrib] & Hloop & Hlen).
  - intros [retVal contrib] i Hacc Hin. cbn [snd] in Hacc. apply in_range in Hin.
    destruct (KLModel_term_of_defined m p1 p2 i Hs ltac:(lia)) as [t Ht].
    unfold KLModel.metric_step. rewrite Ht. cbn [bind snd fst].
    destruct (m_writeNullMetric (KLModel.base m)).
    + cbn [bind]. eexists. split; [reflexivity|exact Hacc].
    + rewrite store_Ok by lia. cbn [bind]. eexists. split; [reflexivity|].
      cbn [snd]. now rewrite replace_nth_length.
  - cbn [snd]. rewrite assign_length. lia.
  - exists retVal, contrib. split; [exact Hloop|exact Hlen].
Qed.

(** A line whose counts are within the groups is evaluated and written. *)
Lemma KLModel_evaluation_defined (m : KLModel.t) (p1 p2 : Z) :
  streaming m p1 p2 ->
  exists m', computeAndWriteMetric (OfKL m) = Ok (OfKL m').
Proof.
  intros Hs. destruct (KLModel_metric_loop_defined m p1 p2 Hs) as (retVal & contrib & Hloop & Hlen).
  destruct Hs as ((Hn & _) & _).
  cbn [computeAndWriteMetric AnyModel]. unfold KLModel.computeAndWriteMetric.
  rewrite Hloop. cbn [bind].
  destruct (m_writeNullMetric (KLModel.base m)); cbn [bind]; [eexists; reflexivity|].
  destruct contrib as [|x contrib]; [cbn [List.length] in Hlen; lia|].
  cbn [max_element bind]. destruct (max_element_from _ _ _) as [position maxContributor].
  cbn [bind]. eexists. reflexivity.
Qed.

Lemma loaded_same_background (m m' : KLModel.t) :
  same_background (OfKL m) (OfKL m') -> loaded m -> loaded m'.
Proof.
  intros (En & Es & Eg1 & Eg2 & _ & _ & EQ1 & EQ2 & Elogs & EP1 & EP2) Hl.
  cbn [members AnyModel] in En, Es, Eg1, Eg2.
  destruct Hl as (Hn & Hg1 & Hg2 & HP1 & HQ1 & HP2 & Hlogs & Hsize).
  unfold loaded. cbv zeta.
  rewrite <- En, <- Es, <- Eg1, <- Eg2, <- EQ1, <- EQ2, <- Elogs, <- EP1, <- EP2.
  repeat split; try lia.
  destruct (m_group2size (KLModel.base m) =? 0); [|exact HP2].
  rewrite HP2 in EP2. now destruct (KLModel.m_P2numerators m').
Qed.

Lemma line_fits_same_background (m m' : KLModel.t) (tokens : list Z) :
  same_background (OfKL m) (OfKL m') -> line_fits m tokens -> line_fits m' tokens.
Proof.
  intros (En & _ & Eg1 & Eg2 & Emode & _). cbn [members AnyModel] in En, Eg1, Eg2, Emode.
  unfold line_fits. cbv zeta. now rewrite <- En, <- Eg1, <- Eg2, <- Emode.
Qed.

Lemma numExpected_same_background (m m' : KLModel.t) :
  same_background (OfKL m) (OfKL m') ->
  numExpected_of (OfKL m') = numExpected_of (OfKL m).
Proof.
  intros (_ & Es & _ & _ & Emode & _). cbn [members AnyModel] in Es, Emode.
  unfold numExpected_of. cbn [writingNulls size AnyModel].
  unfold KLModel.writingNulls, KLModel.size. now rewrite <- Es, <- Emode.
Qed.

Lemma line_fits_nonempty (m : KLModel.t) (tokens : list Z) :
  loaded m -> line_fits m tokens -> tokens <> [].
Proof.
  intros (Hn & _) (coords & c1 & c2 & E & _ & Hlen1 & _) ->.
  destruct c1 as [|c c1]; [cbn [List.length] in Hlen1; lia|].
  destruct coords; discriminate.
Qed.

(** A fitting line is read, found of the expected number of values,
    evaluated and written. *)
Lemma line_is_processed (m : KLModel.t) (tokens : list Z) (linenum : Z) :
  loaded m -> cleared (OfKL m) -> line_fits m tokens ->
  exists m',
    process_line (numExpected_of (OfKL m)) linenum tokens (OfKL m) = Ok (Accepted, OfKL m').
Proof.
  intros Hl Hc Hfit.
  destruct (line_is_fed m tokens linenum Hl Hc Hfit) as (m1 & p1 & p2 & Hf & Hs).
  destruct (KLModel_evaluation_defined m1 p1 p2 Hs) as [m2 He].
  pose proof (line_fits_nonempty m tokens Hl Hfit) as Hne.
  unfold process_line. destruct tokens as [|t rest]; [congruence|].
  rewrite Hf. cbn [bind]. rewrite Z.eqb_refl. cbn [negb].
  rewrite He. cbn [bind]. exists m2. reflexivity.
Qed.

Lemma lines_are_processed (ifs : list (list Z)) :
  forall (linenum : Z) (m : KLModel.t),
    loaded m -> cleared (OfKL m) -> Forall (line_fits m) ifs ->
    exists m',
      process_lines (numExpected_of (OfKL m)) linenum ifs (OfKL m) = Ok (Accepted, OfKL m').
Proof.
  induction ifs as [|tokens ifs IH]; intros linenum m Hl Hc Hall; cbn [process_lines].
  - exists m. reflexivity.
  - inversion Hall as [|? ? Hfit Hrest]; subst.
    destruct (line_is_processed m tokens (u32 (linenum + 1)) Hl Hc Hfit) as [m1 H1].
    rewrite H1. cbn [bind].
    apply process_line_effect in H1 as (Hb & Hc1 & _).
    rewrite <- (numExpected_same_background m m1 Hb).
    apply IH; [now apply (loaded_same_background m)|exact Hc1|].
    eapply Forall_impl; [|exact Hrest].
    intros tokens'. now apply line_fits_same_background.
Qed.


(** * What an accepted background leaves in the model of variant 1 *)

Lemma KLModel_getQcontrib_vectors (logf : float -> float) (infile : list (list Z))
    (Nsites : Z) (m m' : KLModel.t) :
  KLModel.getQcontrib logf infile Nsites m = Ok (Accepted, m') ->
  exists line,
    infile = [line] /\ line <> []
    /\ m_numValsProcessedForGroup1 (KLModel.base m')
       = m_numValsProcessedForGroup1 (KLModel.base m)
    /\ m_numValsProcessedForGroup2 (KLModel.base m')
       = m_numValsProcessedForGroup2 (KLModel.base m)
    /\ m_curBegPos (KLModel.base m') = m_curBegPos (KLModel.base m)
    /\ m_curEndPos (KLModel.base m') = m_curEndPos (KLModel.base m)
    /\ m_size (KLModel.base m')
       = u32 (Z.of_nat (List.length (KLModel.m_P1numerators m'))
              + Z.of_nat (List.length (KLModel.m_P2numerators m')))
    /\ if m_group1size (KLModel.base m) =? 0
       then List.length (KLModel.m_Q1contrib m')
            = (List.length (KLModel.m_Q1contrib m) + List.length line)%nat
            /\ m_numStates (KLModel.base m')
               = u32 (Z.of_nat (List.length (KLModel.m_Q1contrib m')))
            /\ KLModel.m_P1numerators m' = assign (List.length (KLModel.m_Q1contrib m')) 0
            /\ KLModel.m_P2numerators m' = KLModel.m_P2numerators m
            /\ KLModel.m_Q2contrib m' = KLModel.m_Q2contrib m
       else List.length (KLModel.m_Q2contrib m')
            = (List.length (KLModel.m_Q2contrib m) + List.length line)%nat
            /\ m_numStates (KLModel.base m') = m_numStates (KLModel.base m)
            /\ u32 (Z.of_nat (List.length (KLModel.m_Q2contrib m')))
               = m_numStates (KLModel.base m)
            /\ KLModel.m_P2numerators m' = assign (List.length (KLModel.m_Q2contrib m')) 0
            /\ KLModel.m_P1numerators m' = KLModel.m_P1numerators m
            /\ KLModel.m_Q1contrib m' = KLModel.m_Q1contrib m.
Proof.
  unfold KLModel.getQcontrib.
  destruct infile as [|[|t line] rest]; try discriminate.
  pose proof (fold_tally_step_length logf (logf (float_of Nsites)) (t :: line)
                (0, if m_group1size (KLModel.base m) =? 0
                    then KLModel.m_Q1contrib m else KLModel.m_Q2contrib m)) as Hlen.
  destruct (fold_left _ _ _) as [total contrib]. cbn [snd] in Hlen.
  destruct rest; [|discriminate].
  destruct (m_group1size (KLModel.base m) =? 0) eqn:G1; cbn [negb andb].
  - intros H. apply bind_Ok in H as (g & Hg & H).
    apply bind_Ok in H as (logs' & Hlogs & H). injection H as <-.
    exists (t :: line). cbn. repeat split; try reflexivity; try discriminate.
    exact Hlen.
  - destruct (negb _) eqn:E; [discriminate|].
    apply negb_false_iff, Z.eqb_eq in E. cbn in E.
    intros H. apply bind_Ok in H as (g & Hg & H).
    apply bind_Ok in H as (logs' & Hlogs & H). injection H as <-.
    exists (t :: line). cbn. repeat split; try reflexivity; try discriminate.
    + exact Hlen.
    + exact E.
Qed.

Lemma assign_cleared (n : nat) (v : list Z) :
  v = assign n 0 -> v = assign (List.length v) 0.
Proof. intros ->. now rewrite assign_length. Qed.

(** X11. What [main] hands to [parseInputWriteOutput] in variant 1: when the
    background of the first group, and that of the second when one is
    given, is accepted, its lines are shorter than [2^31 - 1] values and no
    group size it implies is zero, the model has a count, zero, and a
    contribution per state and group, a table of logarithms up to the
    larger group size, [m_size] the number of counts of a line, and its
    counters and coordinates as [init] set them. *)
Theorem accepted_backgrounds_load_the_model (logf : float -> float) (nulls : bool)
    (chrom : string) (Nsites : Z) (infileQ1 : list (list Z))
    (infileQ2 : option (list (list Z))) (M : model) :
  startup logf measure_KL nulls chrom Nsites infileQ1 infileQ2 = Ok (Accepted, M) ->
  Forall (fun line => Z.of_nat (List.length line) < 2 ^ 31 - 1) infileQ1 ->
  match infileQ2 with
  | Some infile =>
      Forall (fun line => Z.of_nat (List.length line) < 2 ^ 31 - 1) infile
      /\ m_group2size (members M) <> 0
  | None => True
  end ->
  1 <= m_group1size (members M) ->
  exists m, M = OfKL m /\ loaded m /\ cleared (OfKL m).
Proof.
  intros H Hshort1 H2 Hg1. unfold startup in H.
  apply bind_Ok in H as ([v M1] & Hfirst & H).
  cbn [getQcontrib] in Hfirst. unfold lift in Hfirst.
  apply bind_Ok in Hfirst as ([v1 m1] & Hfirst & E). cbn [fst snd] in E.
  injection E as <- <-.
  destruct v1 as [|e]; [|destruct infileQ2; discriminate].
  destruct (KLModel_getQcontrib_Accepted _ _ _ _ _ Hfirst) as (g & Hg & Eg1 & Eg2 & Hgrown).
  destruct (KLModel_getQcontrib_vectors _ _ _ _ _ Hfirst)
    as (line1 & -> & Hne1 & Ec1 & Ec2 & Ebeg & Eend & Esize & Hvec).
  clear Hfirst.
  assert (Hinit : forall b, b = (if nulls
                  then init None None (Some String.EmptyString) chrom
                  else init (Some String.EmptyString) (Some String.EmptyString) None chrom) ->
            m_group1size b = 0 /\ m_group2size b = 0
            /\ m_numValsProcessedForGroup1 b = 0 /\ m_numValsProcessedForGroup2 b = 0
            /\ m_curBegPos b = -1 /\ m_curEndPos b = -1)
    by (intros b ->; destruct nulls; repeat split).
  destruct (Hinit _ eq_refl) as (I1 & I2 & I3 & I4 & I5 & I6). clear Hinit.
  cbn [KLModel.base KLModel.create KLModel.m_Q1contrib KLModel.m_Q2contrib
       KLModel.m_P1numerators KLModel.m_P2numerators KLModel.m_logsOfObservationTallies]
    in Eg1, Eg2, Hgrown, Ec1, Ec2, Ebeg, Eend, Hvec.
  rewrite I1 in Eg1, Eg2, Hvec. rewrite I2 in Eg2.
  rewrite I3 in Ec1. rewrite I4 in Ec2. rewrite I5 in Ebeg. rewrite I6 in Eend.
  change (0 =? 0) with true in Eg1, Eg2, Hvec. cbv beta iota in Eg1, Eg2, Hvec.
  cbn [List.length Nat.add] in Hvec.
  destruct Hvec as (HQ1 & Hn & HP1 & HP2 & HQ2).
  inversion Hshort1 as [|? ? Hs1 _]; subst.
  clear I1 I2 I3 I4 I5 I6 Hshort1.
  rewrite Eg2 in Hgrown.
  destruct (grown_first _ _ _ (proj1 Hg) Hgrown) as [Htop Hlogs].
  assert (Hlen1 : 1 <= Z.of_nat (List.length line1))
    by (destruct line1; [congruence|cbn [List.length]; lia]).
  assert (EQ1 : Z.of_nat (List.length (KLModel.m_Q1contrib m1)) = Z.of_nat (List.length line1))
    by (now rewrite HQ1).
  assert (EP1 : Z.of_nat (List.length (KLModel.m_P1numerators m1))
                = Z.of_nat (List.length line1))
    by (now rewrite HP1, assign_length, HQ1).
  assert (En : m_numStates (KLModel.base m1) = Z.of_nat (List.length line1))
    by (rewrite Hn, EQ1; apply u32_small; lia).
  destruct infileQ2 as [infile|].
  - destruct H2 as [Hshort2 Hg2]. cbn [getQcontrib] in H. unfold lift in H.
    apply bind_Ok in H as ([v2 m2] & Hsecond & E). cbn [fst snd] in E.
    injection E as -> <-.
    cbn [members AnyModel] in Hg1, Hg2.
    destruct (KLModel_getQcontrib_Accepted _ _ _ _ _ Hsecond)
      as (g' & Hg' & Eg1' & Eg2' & Hgrown').
    destruct (KLModel_getQcontrib_vectors _ _ _ _ _ Hsecond)
      as (line2 & -> & Hne2 & Ec1' & Ec2' & Ebeg' & Eend' & Esize' & Hvec).
    clear Hsecond.
    destruct (m_group1size (KLModel.base m1) =? 0) eqn:G; [congruence|].
    apply Z.eqb_neq in G.
    destruct Hvec as (HQ2' & Hn' & Hn2 & HP2' & HP1' & HQ1').
    rewrite HQ2 in HQ2'. cbn [List.length Nat.add] in HQ2'.
    inversion Hshort2 as [|? ? Hs2 _]; subst.
    rewrite Eg1' in Hgrown'.
    assert (Htop1 : 0 <= m_group1size (KLModel.base m1) < 2 ^ 32 - 1) by lia.
    pose proof (grown_second _ _ _ _ _ Hg2 Hlogs Htop1 (proj1 Hg') Hgrown') as Hlogs'.
    assert (Hsame : Z.of_nat (List.length line2) = Z.of_nat (List.length line1))
      by (rewrite HQ2', u32_small in Hn2 by lia; lia).
    assert (EP2' : Z.of_nat (List.length (KLModel.m_P2numerators m2))
                   = Z.of_nat (List.length line1))
      by (now rewrite HP2', assign_length, HQ2').
    exists m2. split; [reflexivity|]. split.
    + unfold loaded. cbv zeta. apply Z.eqb_neq in Hg2. rewrite Hg2.
      apply Z.eqb_neq in Hg2.
      rewrite Esize', HP1', HQ1', Hn', Eg1', EP2', EP1, EQ1, En, HQ2', Hsame.
      rewrite u32_small by lia. repeat split; try lia.
    + unfold cleared, between_lines. cbn [members AnyModel].
      rewrite Ec1', Ec2', Ebeg', Eend'. repeat split; try assumption.
      * rewrite HP1'. now apply (assign_cleared (List.length (KLModel.m_Q1contrib m1))).
      * now apply (assign_cleared (List.length (KLModel.m_Q2contrib m2))).
  - injection H as <-. cbn [members AnyModel] in Hg1.
    exists m1. split; [reflexivity|]. split.
    + unfold loaded. cbv zeta. rewrite Eg2. change (0 =? 0) with true. cbv iota.
      rewrite Esize, HP2, EP1, EQ1, En. cbn [List.length].
      rewrite u32_small by lia. repeat split; try lia.
    + unfold cleared, between_lines. cbn [members AnyModel].
      repeat split; try assumption.
      * now apply (assign_cleared (List.length (KLModel.m_Q1contrib m1))).
      * now rewrite HP2.
Qed.

(** Two groups of three states: a background of group size 2 and one of
    group size 1. *)
Lemma accepted_backgrounds_load_the_model_witness :
  exists m,
    startup logf_sample measure_KL false String.EmptyString 5 [[4; 0; 6]] (Some [[2; 1; 2]])
    = Ok (Accepted, OfKL m)
    /\ loaded m /\ cleared (OfKL m).
Proof.
  assert (H : exists M,
             startup logf_sample measure_KL false String.EmptyString 5
               [[4; 0; 6]] (Some [[2; 1; 2]]) = Ok (Accepted, M)
             /\ Forall (fun line => Z.of_nat (List.length line) < 2 ^ 31 - 1) [[4; 0; 6]]
             /\ (Forall (fun line => Z.of_nat (List.length line) < 2 ^ 31 - 1) [[2; 1; 2]]
                 /\ m_group2size (members M) <> 0)
             /\ 1 <= m_group1size (members M)).
  { eexists. split; [vm_compute; reflexivity|].
    split; [repeat constructor|].
    split; [split; [repeat constructor|vm_compute; discriminate]|].
    vm_compute; discriminate. }
  destruct H as (M & Hs & H1 & H2 & Hg).
  destruct (accepted_backgrounds_load_the_model logf_sample false String.EmptyString 5
              [[4; 0; 6]] (Some [[2; 1; 2]]) M Hs H1 H2 Hg) as (m & -> & Hl & Hc).
  exists m. split; [exact Hs|]. split; [exact Hl|exact Hc].
Defined.
